(** * Auto Mode Service: a shallow embedding of the orchestration engine

    The development follows [AutoModeService] of the server
    (apps/server, the TypeScript class whose methods are [executeFeature],
    [resumeFeature], [followUpFeature], [verifyFeature], [commitFeature],
    [setupWorktree], [runAgent], ...).

    Conventions of the embedding:
    - a JavaScript string is a sequence of code units, each held in an
      8-bit [ascii]; code units above 255 are outside the model;
    - [Map<string, RunningFeature>] is a [JsMap RunningFeature]: the
      entries in the order they were inserted, which is the order [keys()]
      and [values()] list them in;
    - an [async] method is a tree of synchronous effects on a [World],
      cut by suspension points at every [await]; the event loop runs one
      segment of one task at a time. *)

From Stdlib Require Import String Ascii ZArith Lia Bool.
From stdpp Require Import gmap strings list pretty.

Local Open Scope string_scope.

(** ** JavaScript string primitives used by the service *)

Module JS.

(** The code units below 256 that [String.prototype.trim] strips:
    TAB, LF, VT, FF, CR, SPACE and NBSP. *)
Definition is_ws (c : ascii) : bool :=
  let n := nat_of_ascii c in
  (Nat.leb 9 n && Nat.leb n 13) || Nat.eqb n 32 || Nat.eqb n 160.

Definition nl : ascii := ascii_of_nat 10.

Definition is_empty (s : string) : bool :=
  match s with EmptyString => true | String _ _ => false end.

Fixpoint trimStart (s : string) : string :=
  match s with
  | EmptyString => EmptyString
  | String c r => if is_ws c then trimStart r else s
  end.

Fixpoint trimEnd (s : string) : string :=
  match s with
  | EmptyString => EmptyString
  | String c r =>
      let r' := trimEnd r in
      if is_ws c && is_empty r' then EmptyString else String c r'
  end.

Definition trim (s : string) : string := trimEnd (trimStart s).

(** [s.split("\n")]: the pieces between line feeds; never empty. *)
Fixpoint split_nl (s : string) : list string :=
  match s with
  | EmptyString => [EmptyString]
  | String c r =>
      if Ascii.eqb c nl then EmptyString :: split_nl r
      else match split_nl r with
           | [] => [String c EmptyString]
           | l :: ls => String c l :: ls
           end
  end.

(** [s.split("\n")[0]] *)
Definition first_line (s : string) : string :=
  match split_nl s with
  | [] => EmptyString
  | l :: _ => l
  end.

(** [s.substring(0, n)] *)
Definition substring0 (n : nat) (s : string) : string := String.substring 0 n s.

(** [s.slice(n)] for [n >= 0] *)
Fixpoint slice (n : nat) (s : string) : string :=
  match n, s with
  | O, _ => s
  | S n', String _ r => slice n' r
  | S _, EmptyString => EmptyString
  end.

Definition startsWith (p s : string) : bool := String.prefix p s.

Fixpoint includes (p s : string) : bool :=
  String.prefix p s ||
  match s with
  | EmptyString => false
  | String _ r => includes p r
  end.

Definition endsWith (p s : string) : bool :=
  let lp := String.length p in
  let ls := String.length s in
  Nat.leb lp ls && String.eqb (slice (ls - lp) s) p.

(** [s.replace(p, "")] with a string pattern: only the first occurrence
    is removed. *)
Fixpoint remove_first (p s : string) : string :=
  if String.prefix p s then slice (String.length p) s
  else match s with
       | EmptyString => EmptyString
       | String c r => String c (remove_first p r)
       end.

(** JavaScript truthiness of a string: the empty string is falsy. *)
Definition truthy (s : string) : bool := negb (is_empty s).

(** A string without line feed. *)
Fixpoint single_line (s : string) : bool :=
  match s with
  | EmptyString => true
  | String c r => negb (Ascii.eqb c nl) && single_line r
  end.

End JS.

(** ** Commit titles *)

(** [extractTitleFromDescription] *)
Definition extractTitleFromDescription (description : string) : string :=
  if JS.is_empty description || JS.is_empty (JS.trim description) then
    "Untitled Feature"
  else
    let firstLine := JS.trim (JS.first_line description) in
    if Nat.leb (String.length firstLine) 60 then firstLine
    else JS.substring0 57 firstLine +:+ "...".


(** ** Data model *)

(** An entry of [feature.imagePaths]: a bare path or an object. *)
Inductive ImageRef : Type :=
| ImgString (p : string)
| ImgObject (path : string) (filename : option string) (mimeType : option string).

Definition img_path (img : ImageRef) : string :=
  match img with
  | ImgString p => p
  | ImgObject p _ _ => p
  end.

(** The fields of [feature.json] that the service reads or writes.
    Time stamps are milliseconds of the clock. *)
Record Feature : Type := mkFeature {
  f_id : string;
  f_description : string;
  f_spec : option string;
  f_status : string;
  f_branchName : option string;
  f_model : option string;
  f_imagePaths : option (list ImageRef);
  f_updatedAt : option Z;
  f_justFinishedAt : option Z
}.

(** [interface RunningFeature]; the abort controller is the identity of
    an [AbortController] object. *)
Record RunningFeature : Type := mkRunning {
  rf_featureId : string;
  rf_projectPath : string;
  rf_worktreePath : option string;
  rf_branchName : option string;
  rf_abortController : nat;
  rf_isAutoMode : bool;
  rf_startTime : Z
}.

(** A thrown JavaScript value: [Error] objects with their name and message. *)
Record JsError : Type := mkError {
  err_name : string;
  err_message : string
}.

Definition Error (msg : string) : JsError := mkError "Error" msg.

(** The payload of the [feature] field of a start event. *)
Inductive StartPayload : Type :=
| StartStub (id title description : string)
| StartFeature (f : Feature).

(** What [emitAutoModeEvent] sends on the channel ["auto-mode:event"]. *)
Inductive AutoModeEvent : Type :=
| auto_mode_feature_start (fid : string) (project : string) (feature : StartPayload)
| auto_mode_feature_complete (fid : string) (passes : bool) (message : string)
    (project : option string)
| auto_mode_progress (fid : string) (content : option string)
| auto_mode_tool (fid : string) (tool : string) (input : option string)
| auto_mode_error (fid : string) (error : string) (errorType : option string)
    (project : option string).

(** The agent events are those produced while the stream is consumed. *)
Definition is_agent_event (e : AutoModeEvent) : bool :=
  match e with
  | auto_mode_progress _ _ | auto_mode_tool _ _ _ => true
  | _ => false
  end.

(** Commands handed to [execAsync]. The work-tree commands are kept
    structured because the model of git reacts to them; every other
    command is its command line. *)
Inductive Command : Type :=
| Shell (line : string)
| GitWorktreeList
| GitBranch (branch : string)
| GitWorktreeAdd (path branch : string).

Definition dq : string := String (ascii_of_nat 34) EmptyString.
Definition lf : string := String JS.nl EmptyString.

Definition command_line (c : Command) : string :=
  match c with
  | Shell l => l
  | GitWorktreeList => "git worktree list --porcelain"
  | GitBranch b => "git branch " +:+ b
  | GitWorktreeAdd p b => "git worktree add " +:+ dq +:+ p +:+ dq +:+ " " +:+ b
  end.

(** Result of a child process: the captured streams, or the rejection. *)
Inductive ExecResult : Type :=
| ExecOk (stdout stderr : string)
| ExecErr (e : JsError).

(** Messages of the provider stream. [input] of a tool use is the text
    [JSON.stringify(block.input, null, 2)] produces, absent when the input
    is falsy. *)
Inductive ContentBlock : Type :=
| BText (text : option string)
| BToolUse (name : string) (input : option string)
| BOther.

Inductive ProviderMessage : Type :=
| MAssistant (content : option (list ContentBlock))
| MError (error : option string)
| MResult (subtype : string) (result : option string)
| MOther.

(** One pull on the stream iterator: a message, or a rejection of the
    iterator (a transport failure, an abort raised by the provider). *)
Inductive StreamItem : Type :=
| SMsg (m : ProviderMessage)
| SThrow (e : JsError).

Record ExecuteOptions : Type := mkOptions {
  o_prompt : string;
  o_model : string;
  o_maxTurns : option nat;
  o_cwd : string;
  o_allowedTools : option (list string);
  o_abortController : nat
}.

(** Observable effects, in the order they happen. *)
Inductive Effect : Type :=
| Emitted (e : AutoModeEvent)
| FeatureWritten (project fid : string) (f : Feature)
| TranscriptWritten (project fid : string) (content : string)
| FileWritten (path content : string)
| Ran (c : Command) (cwd : string)
| WorktreeCreated (path branch : string).

(** The debounce timer of one [runAgent] activation. *)
Inductive TimerState : Type := NoTimer | Pending | Fired.

(** The variables of a [runAgent] activation that its timer call-back
    shares with it: [responseText], [writeTimeout] and the place the
    transcript is written to. *)
Record AgentRun : Type := mkAgentRun {
  responseText : string;
  writeTimeout : TimerState;
  outputProject : string;
  outputFeature : string
}.

(** A JavaScript [Map] with string keys: its entries, oldest first.
    [set] replaces the value of a key that is present, where it stands,
    and appends a key that is not; [delete] removes the key; [keys()] and
    [values()] iterate in this order. *)
Record JsMap (V : Type) : Type := mkJsMap {
  entries : list (string * V)
}.

Arguments mkJsMap {V} entries.
Arguments entries {V} j.

Definition Map_get {V : Type} (k : string) (m : JsMap V) : option V :=
  snd <$> List.find (fun e => String.eqb (fst e) k) (entries m).

Fixpoint assoc_set {V : Type} (k : string) (v : V) (l : list (string * V))
  : list (string * V) :=
  match l with
  | [] => [(k, v)]
  | e :: rest => if String.eqb (fst e) k then (fst e, v) :: rest else e :: assoc_set k v rest
  end.

Definition Map_set {V : Type} (k : string) (v : V) (m : JsMap V) : JsMap V :=
  mkJsMap (assoc_set k v (entries m)).

Definition Map_delete {V : Type} (k : string) (m : JsMap V) : JsMap V :=
  mkJsMap (List.filter (fun e => negb (String.eqb (fst e) k)) (entries m)).

Definition Map_keys {V : Type} (m : JsMap V) : list string := (entries m).*1.


Definition Map_size {V : Type} (m : JsMap V) : nat := List.length (entries m).

#[global] Instance JsMap_lookup {V : Type} : Lookup string V (JsMap V) := Map_get.
#[global] Instance JsMap_insert {V : Type} : Insert string V (JsMap V) := Map_set.
#[global] Instance JsMap_delete {V : Type} : Delete string (JsMap V) := Map_delete.
#[global] Instance JsMap_empty {V : Type} : Empty (JsMap V) := mkJsMap [].
#[global] Instance JsMap_singleton {V : Type} : SingletonM string V (JsMap V) :=
  fun k v => mkJsMap [(k, v)].

(** The collaborators outside the process, as the service sees them. *)
Record Env : Type := mkEnv {
  (** outcome of an opaque command line run in a directory *)
  shell : string -> string -> ExecResult;
  (** [git worktree list] succeeds *)
  wt_list_ok : bool;
  (** the HEAD line git prints for a work tree it has just added *)
  wt_head : string;
  (** [git worktree add path branch] succeeds *)
  wt_add_ok : string -> string -> bool;
  mkdir_ok : string -> bool;
  copy_ok : string -> string -> bool;
  transcript_write_ok : string -> string -> bool;
  (** [fs.writeFile] of a record to the [feature.json] of a project and
      feature succeeds *)
  feature_write_ok : string -> string -> Feature -> bool;
  file_write_ok : string -> bool;
  (** the stream the provider produces for a query *)
  provider : ExecuteOptions -> list StreamItem;
  (** [process.env.AUTOMAKER_MOCK_AGENT === "true"] *)
  mockAgent : bool
}.

(** The state the service runs against: its own fields
    ([runningFeatures]), the heap cells it shares with timers, the durable
    stores and the outside world. [featureFiles] holds the parsed content of
    every readable, well-formed [feature.json]; [contextFiles] the content
    of every [agent-output.md]; both are keyed by project path and
    feature id. *)
Record World : Type := mkWorld {
  runningFeatures : JsMap RunningFeature;
  controllers : nat;
  aborted : gset nat;
  agentRuns : gmap nat AgentRun;
  featureFiles : gmap (string * string) Feature;
  contextFiles : gmap (string * string) string;
  wt_listing : string;
  dirs : gset string;
  clock : Z;
  log : list Effect;
  env : Env
}.

Definition with_runningFeatures (f : JsMap RunningFeature -> JsMap RunningFeature)
    (w : World) : World :=
  mkWorld (f (runningFeatures w)) (controllers w) (aborted w) (agentRuns w)
    (featureFiles w) (contextFiles w) (wt_listing w) (dirs w) (clock w) (log w) (env w).

Definition with_controllers (f : nat -> nat) (w : World) : World :=
  mkWorld (runningFeatures w) (f (controllers w)) (aborted w) (agentRuns w)
    (featureFiles w) (contextFiles w) (wt_listing w) (dirs w) (clock w) (log w) (env w).

Definition with_aborted (f : gset nat -> gset nat) (w : World) : World :=
  mkWorld (runningFeatures w) (controllers w) (f (aborted w)) (agentRuns w)
    (featureFiles w) (contextFiles w) (wt_listing w) (dirs w) (clock w) (log w) (env w).

Definition with_agentRuns (f : gmap nat AgentRun -> gmap nat AgentRun) (w : World) : World :=
  mkWorld (runningFeatures w) (controllers w) (aborted w) (f (agentRuns w))
    (featureFiles w) (contextFiles w) (wt_listing w) (dirs w) (clock w) (log w) (env w).

Definition with_featureFiles
    (f : gmap (string * string) Feature -> gmap (string * string) Feature) (w : World) : World :=
  mkWorld (runningFeatures w) (controllers w) (aborted w) (agentRuns w)
    (f (featureFiles w)) (contextFiles w) (wt_listing w) (dirs w) (clock w) (log w) (env w).

Definition with_contextFiles
    (f : gmap (string * string) string -> gmap (string * string) string) (w : World) : World :=
  mkWorld (runningFeatures w) (controllers w) (aborted w) (agentRuns w)
    (featureFiles w) (f (contextFiles w)) (wt_listing w) (dirs w) (clock w) (log w) (env w).

Definition with_wt_listing (f : string -> string) (w : World) : World :=
  mkWorld (runningFeatures w) (controllers w) (aborted w) (agentRuns w)
    (featureFiles w) (contextFiles w) (f (wt_listing w)) (dirs w) (clock w) (log w) (env w).

Definition with_dirs (f : gset string -> gset string) (w : World) : World :=
  mkWorld (runningFeatures w) (controllers w) (aborted w) (agentRuns w)
    (featureFiles w) (contextFiles w) (wt_listing w) (f (dirs w)) (clock w) (log w) (env w).

Definition with_clock (f : Z -> Z) (w : World) : World :=
  mkWorld (runningFeatures w) (controllers w) (aborted w) (agentRuns w)
    (featureFiles w) (contextFiles w) (wt_listing w) (dirs w) (f (clock w)) (log w) (env w).

Definition record (e : Effect) (w : World) : World :=
  mkWorld (runningFeatures w) (controllers w) (aborted w) (agentRuns w)
    (featureFiles w) (contextFiles w) (wt_listing w) (dirs w) (clock w) (log w ++ [e]) (env w).

(** The same state of the service in another state of the outside
    world: a disk that has filled up, a network that has gone. *)
Definition with_env (e : Env) (w : World) : World :=
  mkWorld (runningFeatures w) (controllers w) (aborted w) (agentRuns w)
    (featureFiles w) (contextFiles w) (wt_listing w) (dirs w) (clock w) (log w) e.

(** ** Asynchronous computations

    An [async] function is a tree: [Act op k] performs the synchronous
    step [op] on the state and continues with [k] applied to what the step
    returns; [Yield k] is a suspension point, where the event loop may run
    other tasks before [k]; [Ret] and [Throw] settle the promise.
    [Diverge] marks a chain of mutual redirections that was cut by the
    bound of the model. *)
Inductive Async (A : Type) : Type :=
| Ret (a : A)
| Throw (e : JsError)
| Act {X : Type} (op : World -> World * X) (k : X -> Async A)
| Yield (k : Async A)
| Diverge.

Arguments Ret {A} a.
Arguments Throw {A} e.
Arguments Act {A X} op k.
Arguments Yield {A} k.
Arguments Diverge {A}.

Fixpoint bind {A B : Type} (m : Async A) (g : A -> Async B) : Async B :=
  match m with
  | Ret a => g a
  | Throw e => Throw e
  | Act op k => Act op (fun x => bind (k x) g)
  | Yield k => Yield (bind k g)
  | Diverge => Diverge
  end.

(** [try { m } catch (e) { h e }] *)
Fixpoint try_catch {A : Type} (m : Async A) (h : JsError -> Async A) : Async A :=
  match m with
  | Ret a => Ret a
  | Throw e => h e
  | Act op k => Act op (fun x => try_catch (k x) h)
  | Yield k => Yield (try_catch k h)
  | Diverge => Diverge
  end.

(** [try { m } finally { fin }] with a synchronous finaliser. *)
Fixpoint try_finally {A : Type} (m : Async A) (fin : World -> World) : Async A :=
  match m with
  | Ret a => Act (fun w => (fin w, tt)) (fun _ => Ret a)
  | Throw e => Act (fun w => (fin w, tt)) (fun _ => Throw e)
  | Act op k => Act op (fun x => try_finally (k x) fin)
  | Yield k => Yield (try_finally k fin)
  | Diverge => Diverge
  end.

(** [await m]: the awaiting function is resumed in a later turn of the
    event loop, whether [m] fulfils or rejects. *)
Fixpoint await {A : Type} (m : Async A) : Async A :=
  match m with
  | Ret a => Yield (Ret a)
  | Throw e => Yield (Throw e)
  | Act op k => Act op (fun x => await (k x))
  | Yield k => Yield (await k)
  | Diverge => Diverge
  end.

(** Reading the state, changing it. *)
Definition read {X : Type} (g : World -> X) : Async X :=
  Act (fun w => (w, g w)) Ret.

Definition modify (f : World -> World) : Async unit :=
  Act (fun w => (f w, tt)) Ret.

(** A promise of the platform (file system, child process): it completes
    in a later turn, and its effect and result are those of the state it
    finds then. *)
Definition promise {X : Type} (op : World -> World * (X + JsError)) : Async X :=
  Yield (Act op (fun r => match r with inl x => Ret x | inr e => Throw e end)).

Notation "'let*' x ':=' m 'in' k" := (bind m (fun x => k))
  (at level 10, x name, m at level 100, k at level 200).
Notation "m ';;' k" := (bind m (fun _ => k))
  (at level 100, k at level 200, right associativity).

(** How a promise settles. *)
Inductive Outcome (A : Type) : Type :=
| Fulfilled (a : A)
| Rejected (e : JsError)
| Unsettled.

Arguments Fulfilled {A} a.
Arguments Rejected {A} e.
Arguments Unsettled {A}.

(** A task run with nothing interleaved: no other task takes a turn at
    its suspension points and no debounce interval elapses. *)
Fixpoint run {A : Type} (m : Async A) (w : World) : World * Outcome A :=
  match m with
  | Ret a => (w, Fulfilled a)
  | Throw e => (w, Rejected e)
  | Act op k => let (w', x) := op w in run (k x) w'
  | Yield k => run k w
  | Diverge => (w, Unsettled)
  end.

(** One turn of the event loop for a task: from where it stands up to its
    next suspension point or its end. *)
Fixpoint turn {A : Type} (m : Async A) (w : World) : World * Async A :=
  match m with
  | Act op k => let (w', x) := op w in turn (k x) w'
  | Yield k => (w, k)
  | _ => (w, m)
  end.

(** ** Collaborators inside the repository that the service imports

    [lib/error-handler], [lib/model-resolver], [lib/sdk-options],
    [lib/prompt-builder], [lib/automaker-paths] and Node's [path] are used
    through their signatures only. *)

Record ErrorInfo : Type := mkErrorInfo {
  isAbort : bool;
  isAuth : bool;
  message : string
}.

Record SdkOptions : Type := mkSdk {
  sdk_model : string;
  sdk_maxTurns : option nat;
  sdk_allowedTools : option (list string)
}.

Record External : Type := mkExternal {
  classifyError : JsError -> ErrorInfo;
  isAbortError : JsError -> bool;
  resolveModelString : option string -> string -> string;
  DEFAULT_MODELS_claude : string;
  createAutoModeOptions : string -> option string -> nat -> SdkOptions;
  buildPromptWithImages : string -> option (list string) -> string -> string;
  getFeatureDir : string -> string -> string;
  path_join : string -> string -> string;
  path_resolve : string -> string;
  path_resolve_from : string -> string -> string;
  path_isAbsolute : string -> bool;
  path_basename : string -> string;
  (** The marks the service writes before the list of attached images
      and before the name of a tool: the emoji U+1F4CE and U+1F527. Their
      code units are above 255, outside the strings of the model, so the
      two literals are taken as they are given. *)
  paperclip : string;
  wrench : string
}.

(** Decimal text of an integer, as [String(n)] prints it. *)
Definition string_of_Z (z : Z) : string := pretty z.

(** [Math.round(ms / 1000)] *)
Definition round_seconds (ms : Z) : Z := ((ms + 500) / 1000)%Z.

(** [o || null] on an optional string: the empty string is falsy too. *)
Definition or_null (o : option string) : option string :=
  match o with
  | Some s => if JS.truthy s then Some s else None
  | None => None
  end.

Definition is_truthy (o : option string) : bool :=
  match or_null o with Some _ => true | None => false end.

Definition or_empty (o : option string) : string :=
  match o with Some s => s | None => EmptyString end.

(** ** The service *)

Section Service.

Context (ext : External).

(** *** Primitive operations *)

(** [emitAutoModeEvent] *)
Definition emitAutoModeEvent (e : AutoModeEvent) : Async unit :=
  modify (record (Emitted e)).

(** [new AbortController()]: a fresh controller, not aborted. *)
Definition newAbortController : Async nat :=
  Act (fun w =>
         (with_controllers S (with_aborted (fun a => a ∖ {[controllers w]}) w),
          controllers w))
      Ret.

Definition ENOENT (what : string) : JsError :=
  mkError "Error" ("ENOENT: no such file or directory, " +:+ what).

Definition EIO (what : string) : JsError :=
  mkError "Error" ("EIO: i/o error, " +:+ what).

(** [fs.access] and [fs.readFile] on the transcript of a feature *)
Definition fs_access_context (project fid : string) : Async unit :=
  promise (fun w =>
    (w, match contextFiles w !! (project, fid) with
        | Some _ => inl tt
        | None => inr (ENOENT "access")
        end)).

Definition fs_readFile_context (project fid : string) : Async string :=
  promise (fun w =>
    (w, match contextFiles w !! (project, fid) with
        | Some c => inl c
        | None => inr (ENOENT "open")
        end)).

(** [fs.writeFile(outputPath, content)] *)
Definition fs_writeFile_context (project fid content : string) : Async unit :=
  promise (fun w =>
    if transcript_write_ok (env w) project fid then
      (record (TranscriptWritten project fid content)
         (with_contextFiles (insert (project, fid) content) w), inl tt)
    else (w, inr (EIO "write"))).

(** [JSON.parse(await fs.readFile(featurePath, "utf-8"))] *)
Definition fs_readFeature (project fid : string) : Async Feature :=
  promise (fun w =>
    (w, match featureFiles w !! (project, fid) with
        | Some f => inl f
        | None => inr (ENOENT "open")
        end)).

(** [fs.writeFile(featurePath, JSON.stringify(feature, null, 2))] *)
Definition fs_writeFeature (project fid : string) (f : Feature) : Async unit :=
  promise (fun w =>
    if feature_write_ok (env w) project fid f then
      (record (FeatureWritten project fid f)
         (with_featureFiles (insert (project, fid) f) w), inl tt)
    else (w, inr (EIO "write"))).

(** [fs.access(path)] on a directory *)
Definition fs_access (path : string) : Async unit :=
  promise (fun w =>
    (w, if decide (path ∈ dirs w) then inl tt else inr (ENOENT "access"))).

(** [fs.mkdir(path, { recursive: true })] *)
Definition fs_mkdir (path : string) : Async unit :=
  promise (fun w =>
    if mkdir_ok (env w) path then (with_dirs (fun d => {[path]} ∪ d) w, inl tt)
    else (w, inr (EIO "mkdir"))).

(** [fs.copyFile(src, dest)] *)
Definition fs_copyFile (src dest : string) : Async unit :=
  promise (fun w =>
    (w, if copy_ok (env w) src dest then inl tt else inr (ENOENT "copyfile"))).

(** [fs.writeFile(path, content)] on any other file *)
Definition fs_writeFile (path content : string) : Async unit :=
  promise (fun w =>
    if file_write_ok (env w) path then (record (FileWritten path content) w, inl tt)
    else (w, inr (EIO "write"))).

(** The record git prints for a work tree bound to a branch:
    three lines and an empty one. *)
Definition worktree_entry (path head branch : string) : string :=
  "worktree " +:+ path +:+ lf +:+
  "HEAD " +:+ head +:+ lf +:+
  "branch refs/heads/" +:+ branch +:+ lf +:+ lf.

(** [execAsync(cmd, { cwd })]. git lists a work tree it has added under
    the absolute form of the path it was given; the other commands
    answer as the environment says. *)
Definition exec_step (c : Command) (cwd : string) (w0 : World)
  : World * ((string * string) + JsError) :=
  let w := record (Ran c cwd) w0 in
  match c with
  | GitWorktreeList =>
      if wt_list_ok (env w) then (w, inl (wt_listing w, EmptyString))
      else (w, inr (Error ("Command failed: " +:+ command_line c)))
  | GitWorktreeAdd p b =>
      if wt_add_ok (env w) p b then
        (record (WorktreeCreated p b)
           (with_dirs (fun d => {[p]} ∪ d)
              (with_wt_listing
                 (fun l => l +:+ worktree_entry (path_resolve ext p) (wt_head (env w)) b)
                 w)),
         inl (EmptyString, EmptyString))
      else (w, inr (Error ("Command failed: " +:+ command_line c)))
  | _ =>
      match shell (env w) (command_line c) cwd with
      | ExecOk out err => (w, inl (out, err))
      | ExecErr e => (w, inr e)
      end
  end.

Definition execAsync (c : Command) (cwd : string) : Async (string * string) :=
  promise (exec_step c cwd).

(** *** Feature store *)

(** [loadFeature] *)
Definition loadFeature (projectPath featureId : string) : Async (option Feature) :=
  try_catch
    (let* data := await (fs_readFeature projectPath featureId) in
     Ret (Some data))
    (fun _ => Ret None).

Definition set_status (status : string) (now : Z) (f : Feature) : Feature :=
  mkFeature (f_id f) (f_description f) (f_spec f) status (f_branchName f) (f_model f)
    (f_imagePaths f) (Some now)
    (if String.eqb status "waiting_approval" then Some now else None).

(** [updateFeatureStatus] *)
Definition updateFeatureStatus (projectPath featureId status : string) : Async unit :=
  try_catch
    (let* feature := await (fs_readFeature projectPath featureId) in
     let* now := read clock in
     await (fs_writeFeature projectPath featureId (set_status status now feature)))
    (fun _ => Ret tt).

(** [contextExists] *)
Definition contextExists (projectPath featureId : string) : Async bool :=
  try_catch
    (await (fs_access_context projectPath featureId) ;; Ret true)
    (fun _ => Ret false).

(** *** Work trees *)

(** The path a listed work tree is returned under. *)
Definition resolve_listed (projectPath currentPath : string) : string :=
  if path_isAbsolute ext currentPath then path_resolve ext currentPath
  else path_resolve_from ext projectPath currentPath.

(** The loop of [findExistingWorktreeForBranch] over the lines of the
    listing, with its two variables, and the check of the last entry
    after the loop. *)
Fixpoint scan_worktrees (projectPath branchName : string) (lines : list string)
    (currentPath currentBranch : option string) : option string :=
  match lines with
  | [] =>
      match or_null currentPath, or_null currentBranch with
      | Some p, Some b =>
          if String.eqb b branchName then Some (resolve_listed projectPath p) else None
      | _, _ => None
      end
  | line :: rest =>
      if JS.startsWith "worktree " line then
        scan_worktrees projectPath branchName rest (Some (JS.slice 9 line)) currentBranch
      else if JS.startsWith "branch " line then
        scan_worktrees projectPath branchName rest currentPath
          (Some (JS.remove_first "refs/heads/" (JS.slice 7 line)))
      else
        match JS.is_empty line, or_null currentPath, or_null currentBranch with
        | true, Some p, Some b =>
            if String.eqb b branchName then Some (resolve_listed projectPath p)
            else scan_worktrees projectPath branchName rest None None
        | _, _, _ => scan_worktrees projectPath branchName rest currentPath currentBranch
        end
  end.

(** [findExistingWorktreeForBranch] *)
Definition findExistingWorktreeForBranch (projectPath branchName : string)
  : Async (option string) :=
  try_catch
    (let* out := await (execAsync GitWorktreeList projectPath) in
     Ret (scan_worktrees projectPath branchName (JS.split_nl (fst out)) None None))
    (fun _ => Ret None).

(** [setupWorktree] *)
Definition setupWorktree (projectPath featureId branchName : string) : Async string :=
  let* existingWorktree := await (findExistingWorktreeForBranch projectPath branchName) in
  match or_null existingWorktree with
  | Some existing => Ret existing
  | None =>
      let worktreesDir := path_join ext projectPath ".worktrees" in
      let worktreePath := path_join ext worktreesDir featureId in
      await (fs_mkdir worktreesDir) ;;
      let* present :=
        try_catch (await (fs_access worktreePath) ;; Ret true) (fun _ => Ret false) in
      if (present : bool) then Ret (path_resolve ext worktreePath)
      else
        try_catch (await (execAsync (GitBranch branchName) projectPath) ;; Ret tt)
                  (fun _ => Ret tt) ;;
        try_catch
          (await (execAsync (GitWorktreeAdd worktreePath branchName) projectPath) ;;
           Ret (path_resolve ext worktreePath))
          (fun _ => Ret (path_resolve ext projectPath))
  end.

(** *** Prompts *)

(** [path.split("/").pop()] *)
Fixpoint after_last_slash (s : string) : string :=
  match s with
  | EmptyString => EmptyString
  | String c r =>
      if JS.includes "/" r then after_last_slash r
      else if Ascii.eqb c "/"%char then r else s
  end.

(** One line pair of the list of attached images. *)
Definition image_entry (idx : nat) (img : ImageRef) : string :=
  let path := img_path img in
  let filename :=
    match img with
    | ImgString _ => after_last_slash path
    | ImgObject _ fn _ =>
        match or_null fn with Some n => n | None => after_last_slash path end
    end in
  let mimeType :=
    match img with
    | ImgString _ => "image/*"
    | ImgObject _ _ mt => match or_null mt with Some m => m | None => "image/*" end
    end in
  "   " +:+ pretty (S idx) +:+ ". " +:+ filename +:+ " (" +:+ mimeType +:+ ")" +:+ lf +:+
  "      Path: " +:+ path.

(** [lines.join("\n")] *)
Fixpoint join_lines (l : list string) : string :=
  match l with
  | [] => EmptyString
  | [x] => x
  | x :: rest => x +:+ lf +:+ join_lines rest
  end.

(** [buildFeaturePrompt] *)
Definition buildFeaturePrompt (feature : Feature) : string :=
  let title := extractTitleFromDescription (f_description feature) in
  let prompt0 :=
    "## Feature Implementation Task

**Feature ID:** " +:+ f_id feature +:+ "
**Title:** " +:+ title +:+ "
**Description:** " +:+ f_description feature +:+ "
" in
  let prompt1 :=
    match or_null (f_spec feature) with
    | Some spec => prompt0 +:+ "
**Specification:**
" +:+ spec +:+ "
"
    | None => prompt0
    end in
  let prompt2 :=
    match f_imagePaths feature with
    | Some (img :: imgs) =>
        let images := img :: imgs in
        prompt1 +:+ "
**" +:+ paperclip ext +:+ " Context Images Attached:**
The user has attached " +:+ pretty (List.length images) +:+ " image(s) for context. These images are provided both visually (in the initial message) and as files you can read:

" +:+ join_lines (imap image_entry images) +:+ "

You can use the Read tool to view these images at any time during implementation. Review them carefully before implementing.
"
    | _ => prompt1
    end in
  prompt2 +:+ "
## Instructions

Implement this feature by:
1. First, explore the codebase to understand the existing structure
2. Plan your implementation approach
3. Write the necessary code changes
4. Add or update tests as needed
5. Ensure the code follows existing patterns and conventions

When done, wrap your final summary in <summary> tags like this:

<summary>
## Summary: [Feature Title]

### Changes Implemented
- [List of changes made]

### Files Modified
- [List of files]

### Notes for Developer
- [Any important notes]
</summary>

This helps parse your summary correctly in the output logs.".

(** *** Running the agent *)

(** The text a continued transcript starts with. *)
Definition follow_up_separator : string :=
  lf +:+ lf +:+ "---" +:+ lf +:+ lf +:+ "## Follow-up Session" +:+ lf +:+ lf.

Definition initial_responseText (previousContent : option string) : string :=
  match or_null previousContent with
  | Some previous => previous +:+ follow_up_separator
  | None => EmptyString
  end.

(** The update of [responseText] for a text block. *)
Definition append_text (text : option string) (responseText : string) : string :=
  let separated :=
    if negb (JS.is_empty responseText) && negb (JS.endsWith (lf +:+ lf) responseText) then
      if JS.endsWith lf responseText then responseText +:+ lf
      else responseText +:+ lf +:+ lf
    else responseText in
  separated +:+ or_empty text.

(** The update of [responseText] for a tool use. *)
Definition append_tool (name : string) (input : option string) (responseText : string)
  : string :=
  let separated :=
    if negb (JS.is_empty responseText) && negb (JS.endsWith lf responseText) then
      responseText +:+ lf
    else responseText in
  let labelled := separated +:+ lf +:+ wrench ext +:+ " Tool: " +:+ name +:+ lf in
  match input with
  | Some json => labelled +:+ "Input: " +:+ json +:+ lf
  | None => labelled
  end.

(** The check for authentication errors in a text block. *)
Definition auth_signal (text : option string) : bool :=
  match or_null text with
  | Some t =>
      JS.includes "Invalid API key" t || JS.includes "authentication_failed" t
      || JS.includes "Fix external API key" t
  | None => false
  end.

Definition auth_error : JsError :=
  Error ("Authentication failed: Invalid or expired API key. " +:+
         "Please check your ANTHROPIC_API_KEY or GOOGLE_API_KEY, or run 'claude login' to re-authenticate.").

Definition AbortError : JsError := mkError "AbortError" "The operation was aborted".

(** The shared variables of an activation are held under the identity
    of its abort controller: a controller serves one activation. *)
Definition update_run (rid : nat) (f : AgentRun -> AgentRun) : Async unit :=
  modify (with_agentRuns (alter f rid)).

Definition set_responseText (f : string -> string) (r : AgentRun) : AgentRun :=
  mkAgentRun (f (responseText r)) (writeTimeout r) (outputProject r) (outputFeature r).

Definition set_writeTimeout (t : TimerState) (r : AgentRun) : AgentRun :=
  mkAgentRun (responseText r) t (outputProject r) (outputFeature r).

Definition current_responseText (rid : nat) (w : World) : string :=
  match agentRuns w !! rid with
  | Some r => responseText r
  | None => EmptyString
  end.

(** [writeToFile] *)
Definition writeToFile (rid : nat) (projectPath featureId : string) : Async unit :=
  try_catch
    (await (fs_mkdir (getFeatureDir ext projectPath featureId)) ;;
     let* text := read (current_responseText rid) in
     await (fs_writeFile_context projectPath featureId text))
    (fun _ => Ret tt).

(** [scheduleWrite]: any pending timer is cleared and a new one is set. *)
Definition scheduleWrite (rid : nat) : Async unit :=
  update_run rid (set_writeTimeout Pending).

(** [if (writeTimeout) clearTimeout(writeTimeout)] *)
Definition clearWriteTimeout (rid : nat) : Async unit :=
  update_run rid (fun r =>
    match writeTimeout r with
    | Pending => set_writeTimeout NoTimer r
    | _ => r
    end).

(** The inner loop of [runAgent], over the blocks of one message. *)
Fixpoint consume_blocks (rid : nat) (featureId : string) (blocks : list ContentBlock)
  : Async unit :=
  match blocks with
  | [] => Ret tt
  | BText text :: rest =>
      update_run rid (set_responseText (append_text text)) ;;
      if auth_signal text then Throw auth_error
      else
        scheduleWrite rid ;;
        emitAutoModeEvent (auto_mode_progress featureId text) ;;
        consume_blocks rid featureId rest
  | BToolUse name input :: rest =>
      emitAutoModeEvent (auto_mode_tool featureId name input) ;;
      update_run rid (set_responseText (append_tool name input)) ;;
      scheduleWrite rid ;;
      consume_blocks rid featureId rest
  | BOther :: rest => consume_blocks rid featureId rest
  end.

(** The outer loop of [runAgent], [for await (const msg of stream)].
    Every pull is a suspension point; the provider ends a stream whose
    controller was aborted by rejecting the pull. *)
Fixpoint consume_stream (rid : nat) (featureId : string) (items : list StreamItem)
  : Async unit :=
  Yield
    (let* cancelled := read (fun w => bool_decide (rid ∈ aborted w)) in
     if (cancelled : bool) then Throw AbortError
     else
       match items with
       | [] => Ret tt
       | SThrow e :: _ => Throw e
       | SMsg msg :: rest =>
           match msg with
           | MAssistant (Some content) => consume_blocks rid featureId content
           | MError error =>
               Throw (Error (match or_null error with
                             | Some m => m
                             | None => "Unknown error"
                             end))
           | MResult subtype _ =>
               if String.eqb subtype "success" then scheduleWrite rid else Ret tt
           | _ => Ret tt
           end ;;
           consume_stream rid featureId rest
       end).

Definition mockOutput : string :=
  "# Mock Agent Output

## Summary
This is a mock agent response for CI/CD testing.

## Changes Made
- Created `yellow.txt` with content " +:+ dq +:+ "yellow" +:+ dq +:+ "

## Notes
This mock response was generated because AUTOMAKER_MOCK_AGENT=true was set.
".

(** [sleep(ms)] without a signal: the timer resolves the promise. *)
Definition sleep (ms : nat) : Async unit := Yield (Ret tt).

(** [runAgent] *)
Definition runAgent (workDir featureId prompt : string) (abortController : nat)
    (projectPath : string) (imagePaths : option (list string)) (model : option string)
    (previousContent : option string) : Async unit :=
  let* mock := read (fun w => mockAgent (env w)) in
  if (mock : bool) then
    await (sleep 500) ;;
    emitAutoModeEvent
      (auto_mode_progress featureId (Some "Mock agent: Analyzing the codebase...")) ;;
    await (sleep 300) ;;
    emitAutoModeEvent
      (auto_mode_progress featureId (Some "Mock agent: Implementing the feature...")) ;;
    await (sleep 300) ;;
    await (fs_writeFile (path_join ext workDir "yellow.txt") "yellow") ;;
    emitAutoModeEvent
      (auto_mode_progress featureId
         (Some "Mock agent: Created yellow.txt file with content 'yellow'")) ;;
    await (sleep 200) ;;
    await (fs_mkdir (getFeatureDir ext projectPath featureId)) ;;
    await (fs_writeFile_context projectPath featureId mockOutput)
  else
    let sdkOptions := createAutoModeOptions ext workDir model abortController in
    let finalModel := sdk_model sdkOptions in
    let* promptContent :=
      await (Ret (buildPromptWithImages ext prompt imagePaths workDir)) in
    let options :=
      mkOptions promptContent finalModel (sdk_maxTurns sdkOptions) workDir
        (sdk_allowedTools sdkOptions) abortController in
    let* stream := read (fun w => provider (env w) options) in
    modify (with_agentRuns
              (insert abortController
                 (mkAgentRun (initial_responseText previousContent) NoTimer
                    projectPath featureId))) ;;
    consume_stream abortController featureId stream ;;
    clearWriteTimeout abortController ;;
    await (writeToFile abortController projectPath featureId).

(** *** Executing features *)

Definition already_running (featureId : string) : JsError :=
  Error ("Feature " +:+ featureId +:+ " is already running").

Definition not_found (featureId : string) : JsError :=
  Error ("Feature " +:+ featureId +:+ " not found").

(** Reading [startTime] of a record that is no longer in the map. *)
Definition startTime_of_undefined : JsError :=
  mkError "TypeError" "Cannot read properties of undefined (reading 'startTime')".

Definition is_running (featureId : string) (w : World) : bool :=
  bool_decide (is_Some (runningFeatures w !! featureId)).

(** The part of [executeFeature] and [executeFeatureWithContext] that
    resolves the work tree of a feature. *)
Definition deriveWorktree (projectPath featureId : string) (useWorktrees : bool)
    (branchName : option string) : Async (option string) :=
  match useWorktrees, branchName with
  | true, Some branch =>
      let* found := await (findExistingWorktreeForBranch projectPath branch) in
      if is_truthy found then Ret found
      else
        let* created := await (setupWorktree projectPath featureId branch) in
        Ret (Some created)
  | _, _ => Ret None
  end.

Definition workDir_of (projectPath : string) (worktreePath : option string) : string :=
  match or_null worktreePath with
  | Some p => path_resolve ext p
  | None => path_resolve ext projectPath
  end.

(** The [catch] block shared by [executeFeature] and
    [executeFeatureWithContext]. *)
Definition on_run_error (projectPath featureId : string) (error : JsError) : Async unit :=
  let errorInfo := classifyError ext error in
  if isAbort errorInfo then
    emitAutoModeEvent
      (auto_mode_feature_complete featureId false "Feature stopped by user"
         (Some projectPath))
  else
    await (updateFeatureStatus projectPath featureId "backlog") ;;
    emitAutoModeEvent
      (auto_mode_error featureId (message errorInfo)
         (Some (if isAuth errorInfo then "authentication" else "execution"))
         (Some projectPath)).

(** The completion event, whose message reads the start time back from
    the registry. *)
Definition emit_completed (projectPath featureId label : string) : Async unit :=
  let* now := read clock in
  let* running := read (fun w => runningFeatures w !! featureId) in
  match running with
  | Some r =>
      emitAutoModeEvent
        (auto_mode_feature_complete featureId true
           (label +:+ string_of_Z (round_seconds (now - rf_startTime r)) +:+ "s")
           (Some projectPath))
  | None => Throw startTime_of_undefined
  end.

(** [executeFeature] from the creation of the abort controller on: the
    run of a feature that has no transcript yet. *)
Definition executeFeature_fresh (projectPath featureId : string)
    (useWorktrees isAutoMode : bool) : Async unit :=
  let* abortController := newAbortController in
  emitAutoModeEvent
    (auto_mode_feature_start featureId projectPath
       (StartStub featureId "Loading..." "Feature is starting")) ;;
  try_finally
    (try_catch
       (let* loaded := await (loadFeature projectPath featureId) in
        match loaded with
        | None => Throw (not_found featureId)
        | Some feature =>
            let branchName := or_null (f_branchName feature) in
            let* worktreePath :=
              deriveWorktree projectPath featureId useWorktrees branchName in
            let workDir := workDir_of projectPath worktreePath in
            let* now := read clock in
            modify (with_runningFeatures
                      (insert featureId
                         (mkRunning featureId projectPath worktreePath branchName
                            abortController isAutoMode now))) ;;
            await (updateFeatureStatus projectPath featureId "in_progress") ;;
            let prompt := buildFeaturePrompt feature in
            let imagePaths := option_map (List.map img_path) (f_imagePaths feature) in
            let model := resolveModelString ext (f_model feature) (DEFAULT_MODELS_claude ext) in
            await (runAgent workDir featureId prompt abortController projectPath
                     imagePaths (Some model) None) ;;
            await (updateFeatureStatus projectPath featureId "waiting_approval") ;;
            emit_completed projectPath featureId "Feature completed in "
        end)
       (on_run_error projectPath featureId))
    (with_runningFeatures (delete featureId)).

Definition continue_prompt (feature : Feature) (context : string) : string :=
  "## Continuing Feature Implementation

" +:+ buildFeaturePrompt feature +:+ "

## Previous Context
The following is the output from a previous implementation attempt. Continue from where you left off:

" +:+ context +:+ "

## Instructions
Review the previous work and continue the implementation. If the feature appears complete, verify it works correctly.".

(** [executeFeatureWithContext] *)
Definition executeFeatureWithContext (projectPath featureId context : string)
    (useWorktrees : bool) : Async unit :=
  let* running := read (is_running featureId) in
  if (running : bool) then Throw (already_running featureId)
  else
    let* abortController := newAbortController in
    emitAutoModeEvent
      (auto_mode_feature_start featureId projectPath
         (StartStub featureId "Resuming..." "Feature is resuming from previous context")) ;;
    try_finally
      (try_catch
         (let* loaded := await (loadFeature projectPath featureId) in
          match loaded with
          | None => Throw (not_found featureId)
          | Some feature =>
              let branchName := or_null (f_branchName feature) in
              let* worktreePath :=
                deriveWorktree projectPath featureId useWorktrees branchName in
              let workDir := workDir_of projectPath worktreePath in
              let* now := read clock in
              modify (with_runningFeatures
                        (insert featureId
                           (mkRunning featureId projectPath worktreePath branchName
                              abortController false now))) ;;
              await (updateFeatureStatus projectPath featureId "in_progress") ;;
              let prompt := continue_prompt feature context in
              let imagePaths := option_map (List.map img_path) (f_imagePaths feature) in
              let model :=
                resolveModelString ext (f_model feature) (DEFAULT_MODELS_claude ext) in
              await (runAgent workDir featureId prompt abortController projectPath
                       imagePaths (Some model) (Some context)) ;;
              await (updateFeatureStatus projectPath featureId "waiting_approval") ;;
              emit_completed projectPath featureId "Feature resumed and completed in "
          end)
         (on_run_error projectPath featureId))
      (with_runningFeatures (delete featureId)).

(** [executeFeature], over the [resumeFeature] it hands a feature with a
    transcript to. *)
Definition executeFeature_body (resume : string -> string -> bool -> Async unit)
    (projectPath featureId : string) (useWorktrees isAutoMode : bool) : Async unit :=
  let* running := read (is_running featureId) in
  if (running : bool) then Throw (already_running featureId)
  else
    let* hasExistingContext := await (contextExists projectPath featureId) in
    if (hasExistingContext : bool) then resume projectPath featureId useWorktrees
    else executeFeature_fresh projectPath featureId useWorktrees isAutoMode.

(** [resumeFeature], over the [executeFeature] it starts a feature
    without transcript with. *)
Definition resumeFeature_body (execute : string -> string -> bool -> bool -> Async unit)
    (projectPath featureId : string) (useWorktrees : bool) : Async unit :=
  let* hasContext :=
    try_catch (await (fs_access_context projectPath featureId) ;; Ret true)
              (fun _ => Ret false) in
  if (hasContext : bool) then
    let* context := await (fs_readFile_context projectPath featureId) in
    executeFeatureWithContext projectPath featureId context useWorktrees
  else execute projectPath featureId useWorktrees false.

(** The two methods call each other; [depth] bounds the number of times
    a call is handed from one to the other and back. *)
Fixpoint executeFeature (depth : nat) (projectPath featureId : string)
    (useWorktrees isAutoMode : bool) : Async unit :=
  executeFeature_body
    (resumeFeature_body
       (match depth with
        | O => fun _ _ _ _ => Diverge
        | S d => executeFeature d
        end))
    projectPath featureId useWorktrees isAutoMode.

Definition resumeFeature (depth : nat) (projectPath featureId : string)
    (useWorktrees : bool) : Async unit :=
  resumeFeature_body (executeFeature depth) projectPath featureId useWorktrees.

(** [stopFeature] *)
Definition stopFeature (featureId : string) : Async bool :=
  let* running := read (fun w => runningFeatures w !! featureId) in
  match running with
  | None => Ret false
  | Some r =>
      modify (with_aborted (fun a => {[rf_abortController r]} ∪ a)) ;;
      Ret true
  end.

(** [getStatus] *)
Record Status : Type := mkStatus {
  st_isRunning : bool;
  st_runningFeatures : list string;
  st_runningCount : nat
}.

Definition getStatus (w : World) : Status :=
  mkStatus (Nat.ltb 0 (Map_size (runningFeatures w)))
           (Map_keys (runningFeatures w))
           (Map_size (runningFeatures w)).

(** *** Follow-up *)

(** The loop that copies the follow-up images into the feature folder;
    a copy that fails is skipped. *)
Fixpoint copy_images (featureImagesDir : string) (imagePaths : list string)
    (copiedImagePaths : list string) : Async (list string) :=
  match imagePaths with
  | [] => Ret copiedImagePaths
  | imagePath :: rest =>
      let filename := path_basename ext imagePath in
      let destPath := path_join ext featureImagesDir filename in
      let* copied :=
        try_catch (await (fs_copyFile imagePath destPath) ;; Ret [destPath])
                  (fun _ => Ret []) in
      copy_images featureImagesDir rest (copiedImagePaths ++ copied)
  end.

Definition set_imagePaths (imgs : list ImageRef) (f : Feature) : Feature :=
  mkFeature (f_id f) (f_description f) (f_spec f) (f_status f) (f_branchName f)
    (f_model f) (Some imgs) (f_updatedAt f) (f_justFinishedAt f).

Definition follow_up_prompt (feature : option Feature) (featureId previousContext prompt : string)
  : string :=
  let head :=
    "## Follow-up on Feature Implementation

" +:+ match feature with
    | Some f => buildFeaturePrompt f
    | None => "**Feature ID:** " +:+ featureId
    end +:+ "
" in
  let with_previous :=
    if JS.truthy previousContext then
      head +:+ "
## Previous Agent Work
The following is the output from the previous implementation attempt:

" +:+ previousContext +:+ "
"
    else head in
  with_previous +:+ "
## Follow-up Instructions
" +:+ prompt +:+ "

## Task
Address the follow-up instructions above. Review the previous work and make the requested changes or fixes.".

(** [followUpFeature] *)
Definition followUpFeature (projectPath featureId prompt : string)
    (imagePaths : option (list string)) (useWorktrees : bool) : Async unit :=
  let* running := read (is_running featureId) in
  if (running : bool) then Throw (already_running featureId)
  else
    let* abortController := newAbortController in
    let* feature := await (loadFeature projectPath featureId) in
    let branchName :=
      match feature with Some f => or_null (f_branchName f) | None => None end in
    let* worktreePath :=
      match useWorktrees, branchName with
      | true, Some branch => await (findExistingWorktreeForBranch projectPath branch)
      | _, _ => Ret None
      end in
    let workDir :=
      match or_null worktreePath with
      | Some p => p
      | None => path_resolve ext projectPath
      end in
    let* previousContext :=
      try_catch (await (fs_readFile_context projectPath featureId))
                (fun _ => Ret EmptyString) in
    let fullPrompt := follow_up_prompt feature featureId previousContext prompt in
    let* now := read clock in
    modify (with_runningFeatures
              (insert featureId
                 (mkRunning featureId projectPath worktreePath branchName
                    abortController false now))) ;;
    emitAutoModeEvent
      (auto_mode_feature_start featureId projectPath
         (match feature with
          | Some f => StartFeature f
          | None => StartStub featureId "Follow-up" (JS.substring0 100 prompt)
          end)) ;;
    try_finally
      (try_catch
         (let model :=
            resolveModelString ext
              (match feature with Some f => f_model f | None => None end)
              (DEFAULT_MODELS_claude ext) in
          await (updateFeatureStatus projectPath featureId "in_progress") ;;
          let* copiedImagePaths :=
            match imagePaths with
            | Some (img :: imgs) =>
                let featureImagesDir :=
                  path_join ext (getFeatureDir ext projectPath featureId) "images" in
                await (fs_mkdir featureImagesDir) ;;
                copy_images featureImagesDir (img :: imgs) []
            | _ => Ret []
            end in
          let feature' :=
            match copiedImagePaths, feature with
            | _ :: _, Some f =>
                let currentImagePaths :=
                  match f_imagePaths f with Some l => l | None => [] end in
                let newImagePaths :=
                  List.map (fun p => ImgObject p (Some (path_basename ext p)) (Some "image/png"))
                           copiedImagePaths in
                Some (set_imagePaths (currentImagePaths ++ newImagePaths) f)
            | _, _ => feature
            end in
          let allImagePaths :=
            match feature' with
            | Some f =>
                match f_imagePaths f with
                | Some l => List.map img_path l
                | None => []
                end
            | None => []
            end in
          match copiedImagePaths, feature' with
          | _ :: _, Some f =>
              try_catch (await (fs_writeFeature projectPath featureId f)) (fun _ => Ret tt)
          | _, _ => Ret tt
          end ;;
          await (runAgent workDir featureId fullPrompt abortController projectPath
                   (match allImagePaths with _ :: _ => Some allImagePaths | [] => imagePaths end)
                   (Some model) (or_null (Some previousContext))) ;;
          await (updateFeatureStatus projectPath featureId "waiting_approval") ;;
          emitAutoModeEvent
            (auto_mode_feature_complete featureId true "Follow-up completed successfully"
               (Some projectPath)))
         (fun error =>
            if isAbortError ext error then Ret tt
            else
              emitAutoModeEvent
                (auto_mode_error featureId (err_message error) None (Some projectPath))))
      (with_runningFeatures (delete featureId)).

(** *** Verification *)

Record CheckResult : Type := mkCheck {
  check : string;
  passed : bool;
  output : string
}.

(** [verificationChecks]: command and name, in the order they run. *)
Definition verificationChecks : list (string * string) :=
  [ ("npm run lint", "Lint");
    ("npm run typecheck", "Type check");
    ("npm test", "Tests");
    ("npm run build", "Build") ].

(** The loop of [verifyFeature] with its variables [allPassed] (true
    until the loop breaks) and [results]. *)
Fixpoint run_checks (workDir : string) (checks : list (string * string))
    (results : list CheckResult) : Async (bool * list CheckResult) :=
  match checks with
  | [] => Ret (true, results)
  | (cmd, name) :: rest =>
      let* outcome :=
        try_catch
          (let* std := await (execAsync (Shell cmd) workDir) in Ret (inl std))
          (fun error => Ret (inr error)) in
      match outcome with
      | inl (stdout, stderr) =>
          run_checks workDir rest
            (results ++ [mkCheck name true (if JS.truthy stdout then stdout else stderr)])
      | inr error =>
          Ret (false, (results ++ [mkCheck name false (err_message error)])%list)
      end
  end.

Definition verification_message (allPassed : bool) (results : list CheckResult) : string :=
  if allPassed then "All verification checks passed"
  else
    "Verification failed: " +:+
    match List.find (fun r => negb (passed r)) results with
    | Some r => if JS.truthy (check r) then check r else "Unknown"
    | None => "Unknown"
    end.

(** [verifyFeature] *)
Definition verifyFeature (projectPath featureId : string) : Async bool :=
  let worktreePath := path_join ext (path_join ext projectPath ".worktrees") featureId in
  let* workDir :=
    try_catch (await (fs_access worktreePath) ;; Ret worktreePath)
              (fun _ => Ret projectPath) in
  let* verdict := run_checks workDir verificationChecks [] in
  let allPassed := fst verdict in
  emitAutoModeEvent
    (auto_mode_feature_complete featureId allPassed
       (verification_message allPassed (snd verdict)) None) ;;
  Ret allPassed.

(** *** Commit *)

(** [s.replace(/"/g, '\\"')] *)
Fixpoint escape_quotes (s : string) : string :=
  match s with
  | EmptyString => EmptyString
  | String c r =>
      if Ascii.eqb c (ascii_of_nat 34) then
        String (ascii_of_nat 92) (String c (escape_quotes r))
      else String c (escape_quotes r)
  end.

Definition commit_message (feature : option Feature) (featureId : string) : string :=
  match feature with
  | Some f =>
      "feat: " +:+ extractTitleFromDescription (f_description f) +:+ lf +:+ lf +:+
      "Implemented by Automaker auto-mode"
  | None => "feat: Feature " +:+ featureId
  end.

Definition git_commit_command (commitMessage : string) : Command :=
  Shell ("git commit -m " +:+ dq +:+ escape_quotes commitMessage +:+ dq).

(** [commitFeature] *)
Definition commitFeature (projectPath featureId : string)
    (providedWorktreePath : option string) : Async (option string) :=
  let* workDir :=
    match or_null providedWorktreePath with
    | Some provided =>
        try_catch (await (fs_access provided) ;; Ret provided) (fun _ => Ret projectPath)
    | None =>
        let legacyWorktreePath :=
          path_join ext (path_join ext projectPath ".worktrees") featureId in
        try_catch (await (fs_access legacyWorktreePath) ;; Ret legacyWorktreePath)
                  (fun _ => Ret projectPath)
    end in
  try_catch
    (let* status := await (execAsync (Shell "git status --porcelain") workDir) in
     if JS.is_empty (JS.trim (fst status)) then Ret None
     else
       let* feature := await (loadFeature projectPath featureId) in
       let commitMessage := commit_message feature featureId in
       await (execAsync (Shell "git add -A") workDir) ;;
       await (execAsync (git_commit_command commitMessage) workDir) ;;
       let* hash := await (execAsync (Shell "git rev-parse HEAD") workDir) in
       emitAutoModeEvent
         (auto_mode_feature_complete featureId true
            ("Changes committed: " +:+ JS.substring0 8 (JS.trim (fst hash))) None) ;;
       Ret (Some (JS.trim (fst hash))))
    (fun _ => Ret None).

(** The directory [verifyFeature] runs its checks in. *)
Definition verify_dir (w : World) (projectPath featureId : string) : string :=
  let worktreePath := path_join ext (path_join ext projectPath ".worktrees") featureId in
  if decide (worktreePath ∈ dirs w) then worktreePath else projectPath.

(** The directory [commitFeature] commits in. *)
Definition commit_dir (w : World) (projectPath featureId : string)
    (providedWorktreePath : option string) : string :=
  match or_null providedWorktreePath with
  | Some provided => if decide (provided ∈ dirs w) then provided else projectPath
  | None => verify_dir w projectPath featureId
  end.

End Service.

(** ** More of the service: running agents and project analysis *)


(** The events of an analysis, in the order [analyzeProject] sends them
    on the channel ["auto-mode:event"]; its progress events carry the
    project path. *)
Inductive AnalysisEvent : Type :=
| analysis_start (fid project title description : string)
| analysis_progress (fid : string) (content : option string) (project : string)
| analysis_complete (fid : string) (passes : bool) (message project : string)
| analysis_error (fid error project : string).

Section Analysis.

Context (ext : External).

(** [getAutomakerDir] of [lib/automaker-paths], used through its
    signature. *)
Context (getAutomakerDir : string -> string).


Definition analysis_prompt : string :=
  "Analyze this project and provide a summary of:
1. Project structure and architecture
2. Main technologies and frameworks used
3. Key components and their responsibilities
4. Build and test commands
5. Any existing conventions or patterns

Format your response as a structured markdown document.".

(** The inner loop of [analyzeProject] over the blocks of a message,
    with the events sent so far and the variable [analysisResult]. *)
Fixpoint analysis_blocks (fid project : string) (blocks : list ContentBlock)
    (sent : list AnalysisEvent) (analysisResult : string) : list AnalysisEvent * string :=
  match blocks with
  | [] => (sent, analysisResult)
  | BText text :: rest =>
      analysis_blocks fid project rest
        (sent ++ [analysis_progress fid text project])%list (or_empty text)
  | _ :: rest => analysis_blocks fid project rest sent analysisResult
  end.

(** The outer loop, [for await (const msg of stream)]: every pull is a
    suspension point; it ends with the result, or with the error the
    iterator rejects with. The abort controller of an analysis is handed
    to the provider only and is stored nowhere: nothing aborts it. *)
Fixpoint analysis_stream (fid project : string) (items : list StreamItem)
    (sent : list AnalysisEvent) (analysisResult : string)
  : Async (list AnalysisEvent * (string + JsError)) :=
  Yield
    match items with
    | [] => Ret (sent, inl analysisResult)
    | SThrow e :: _ => Ret (sent, inr e)
    | SMsg msg :: rest =>
        match msg with
        | MAssistant (Some content) =>
            let (sent', result') := analysis_blocks fid project content sent analysisResult in
            analysis_stream fid project rest sent' result'
        | MResult subtype result =>
            if String.eqb subtype "success" then
              analysis_stream fid project rest sent
                (match or_null result with Some r => r | None => analysisResult end)
            else analysis_stream fid project rest sent analysisResult
        | _ => analysis_stream fid project rest sent analysisResult
        end
    end.

(** [analyzeProject]. The value of the computation is the list of the
    events it has sent. *)
Definition analyzeProject (projectPath : string) : Async (list AnalysisEvent) :=
  let* abortController := newAbortController in
  let* now := read clock in
  let analysisFeatureId := "analysis-" +:+ string_of_Z now in
  let started :=
    [ analysis_start analysisFeatureId projectPath
        "Project Analysis" "Analyzing project structure" ] in
  let analysisModel := resolveModelString ext None (DEFAULT_MODELS_claude ext) in
  let options :=
    mkOptions analysis_prompt analysisModel (Some 5) projectPath
      (Some ["Read"; "Glob"; "Grep"]) abortController in
  let* stream := read (fun w => provider (env w) options) in
  let* consumed := analysis_stream analysisFeatureId projectPath stream started EmptyString in
  match consumed with
  | (sent, inr error) =>
      Ret (sent ++ [analysis_error analysisFeatureId (err_message error) projectPath])%list
  | (sent, inl analysisResult) =>
      let automakerDir := getAutomakerDir projectPath in
      let analysisPath := path_join ext automakerDir "project-analysis.md" in
      try_catch
        (await (fs_mkdir automakerDir) ;;
         await (fs_writeFile analysisPath analysisResult) ;;
         Ret (sent ++ [analysis_complete analysisFeatureId true
                         "Project analysis completed" projectPath])%list)
        (fun error =>
           Ret (sent ++ [analysis_error analysisFeatureId (err_message error) projectPath])%list)
  end.

End Analysis.

(** ** The route that pushes the branch of a work tree *)

(** The body of a [POST /push] request, as the JSON middleware hands it
    over. *)
Record PushRequest : Type := mkPushRequest {
  pr_worktreePath : option string;
  pr_force : option bool;
  pr_remote : option string
}.

(** The JSON object of a response. *)
Inductive PushBody : Type :=
| PushFailure (error : string)
| PushSuccess (branch : string) (pushed : bool) (message : string).

(** A response: [res.status(code).json(body)]; [res.json(body)] sends
    it with the code 200. *)
Record Response : Type := mkResponse {
  res_status : nat;
  res_body : PushBody
}.

Section PushRoute.

Context (ext : External).

(** [getErrorMessage] of [../common], used through its signature. *)
Context (getErrorMessage : JsError -> string).

Definition push_command (how targetRemote branchName forceFlag : string) : Command :=
  Shell ("git push " +:+ how +:+ " " +:+ targetRemote +:+ " " +:+ branchName +:+ " "
         +:+ forceFlag).

(** The handler [createPushHandler] returns. Every path through it
    sends one response; the response is the value of the computation. *)
Definition createPushHandler (body : PushRequest) : Async Response :=
  try_catch
    (match or_null (pr_worktreePath body) with
     | None => Ret (mkResponse 400 (PushFailure "worktreePath required"))
     | Some worktreePath =>
         let* out :=
           await (execAsync ext (Shell "git rev-parse --abbrev-ref HEAD") worktreePath) in
         let branchName := JS.trim (fst out) in
         let targetRemote :=
           match or_null (pr_remote body) with Some r => r | None => "origin" end in
         let forceFlag :=
           match pr_force body with Some true => "--force" | _ => EmptyString end in
         try_catch
           (await (execAsync ext (push_command "-u" targetRemote branchName forceFlag)
                     worktreePath) ;;
            Ret tt)
           (fun _ =>
              await (execAsync ext
                       (push_command "--set-upstream" targetRemote branchName forceFlag)
                       worktreePath) ;;
              Ret tt) ;;
         Ret (mkResponse 200
                (PushSuccess branchName true
                   ("Successfully pushed " +:+ branchName +:+ " to " +:+ targetRemote)))
     end)
    (fun error => Ret (mkResponse 500 (PushFailure (getErrorMessage error)))).

End PushRoute.

(** ** The event loop

    Tasks take turns: a turn runs one task from its last suspension point
    to the next. Between turns a pending debounce timer may fire, a
    client may ask for a feature to be stopped, and time may pass. *)
Module Loop.

Record State : Type := mkState {
  world : World;
  tasks : list (Async unit)
}.

Inductive Step : Type :=
| Resume (i : nat)
| Spawn (t : Async unit)
| FireTimer (rid : nat)
| Elapse (ms : Z).

(** The call-back of the debounce timer of an activation. *)
Definition timer_callback (ext : External) (rid : nat) (w : World) : Async unit :=
  match agentRuns w !! rid with
  | Some r => writeToFile ext rid (outputProject r) (outputFeature r)
  | None => Ret tt
  end.

Definition timer_pending (rid : nat) (w : World) : bool :=
  match agentRuns w !! rid with
  | Some r => match writeTimeout r with Pending => true | _ => false end
  | None => false
  end.

Definition step (ext : External) (s : State) (a : Step) : State :=
  match a with
  | Resume i =>
      match tasks s !! i with
      | Some t =>
          let (w', t') := turn t (world s) in
          mkState w' (<[i := t']> (tasks s))
      | None => s
      end
  | Spawn t =>
      let (w', t') := turn t (world s) in
      mkState w' (tasks s ++ [t'])
  | FireTimer rid =>
      if timer_pending rid (world s) then
        let w1 := with_agentRuns (alter (set_writeTimeout Fired) rid) (world s) in
        let (w', t') := turn (timer_callback ext rid w1) w1 in
        mkState w' (tasks s ++ [t'])
      else s
  | Elapse ms => mkState (with_clock (fun c => (c + Z.max 0 ms)%Z) (world s)) (tasks s)
  end.

Definition steps (ext : External) (s : State) (l : list Step) : State :=
  fold_left (step ext) l s.

(** The state of the promise of a task. *)
Definition settled (t : Async unit) : option (Outcome unit) :=
  match t with
  | Ret a => Some (Fulfilled a)
  | Throw e => Some (Rejected e)
  | _ => None
  end.

End Loop.

(** ** A concrete environment

    A project at [/proj] with one feature in its backlog, used to run the
    service on concrete inputs. *)
Module Demo.

Definition ext : External :=
  mkExternal
    (fun e => mkErrorInfo (String.eqb (err_name e) "AbortError")
                          (JS.startsWith "Authentication failed" (err_message e))
                          (err_message e))
    (fun e => String.eqb (err_name e) "AbortError")
    (fun m d => match or_null m with Some x => x | None => d end)
    "claude-default"
    (fun _ m _ => mkSdk (match or_null m with Some x => x | None => "claude-default" end)
                        (Some 1000) None)
    (fun p _ _ => p)
    (fun project fid => project +:+ "/.automaker/features/" +:+ fid)
    (fun a b => a +:+ "/" +:+ b)
    (fun p => if JS.startsWith "/" p then p else "/cwd/" +:+ p)
    (fun a b => a +:+ "/" +:+ b)
    (fun p => JS.startsWith "/" p)
    after_last_slash
    (String (ascii_of_nat 240) (String (ascii_of_nat 159)
       (String (ascii_of_nat 147) (String (ascii_of_nat 142) EmptyString))))
    (String (ascii_of_nat 240) (String (ascii_of_nat 159)
       (String (ascii_of_nat 148) (String (ascii_of_nat 167) EmptyString)))).

Definition feature (status : string) (branch : option string) : Feature :=
  mkFeature "f1" "Add login page" None status branch None None None None.

(** An environment in which every command succeeds with the given
    output and the provider plays the given script. *)
Definition environment (sh : string -> string -> ExecResult) (script : list StreamItem)
  : Env :=
  mkEnv sh true "0000000000000000000000000000000000000000"
    (fun _ _ => true) (fun _ => true) (fun _ _ => true) (fun _ _ => true)
    (fun _ _ _ => true) (fun _ => true) (fun _ => script) false.

Definition quiet_shell : string -> string -> ExecResult :=
  fun _ _ => ExecOk EmptyString EmptyString.

Definition world (e : Env) (f : Feature) : World :=
  mkWorld ∅ 0 ∅ ∅ {[ ("/proj", "f1") := f ]} ∅ EmptyString ∅ 0 [] e.

Definition say (text : string) : StreamItem :=
  SMsg (MAssistant (Some [BText (Some text)])).

(** A shell in which the work tree has changes and [git commit] fails. *)
Definition commit_fails : string -> string -> ExecResult :=
  fun line _ =>
    if JS.startsWith "git commit" line then
      ExecErr (Error "Command failed: git commit")
    else if String.eqb line "git status --porcelain" then
      ExecOk (" M src/login.ts" +:+ lf) EmptyString
    else ExecOk EmptyString EmptyString.

(** A shell in which lint passes and the type check fails. *)
Definition typecheck_fails : string -> string -> ExecResult :=
  fun line _ =>
    if String.eqb line "npm run typecheck" then
      ExecErr (Error "Command failed: npm run typecheck")
    else ExecOk "ok" EmptyString.

(** The registry entry of a run of the feature, and a state in which
    that run is in flight. *)
Definition in_flight : RunningFeature :=
  mkRunning "f1" "/proj" None None 0 false 0.

Definition busy_world : World :=
  mkWorld {[ "f1" := in_flight ]} 1 ∅ ∅
    {[ ("/proj", "f1") := feature "in_progress" None ]} ∅ EmptyString ∅ 0 []
    (environment quiet_shell []).

(** A world with the feature in the backlog and a provider that plays
    [script]. *)
Definition backlog_world (script : list StreamItem) : World :=
  world (environment quiet_shell script) (feature "backlog" None).

(** The same world on a disk on which [feature.json] cannot be
    written. *)
Definition readonly_world (script : list StreamItem) : World :=
  world
    (mkEnv quiet_shell true "0000000000000000000000000000000000000000"
       (fun _ _ => true) (fun _ => true) (fun _ _ => true) (fun _ _ => true)
       (fun _ _ _ => false) (fun _ => true) (fun _ => script) false)
    (feature "backlog" None).

(** A feature that waits for approval, on a disk on which a record
    that lists images cannot be written. *)
Definition no_images_world (script : list StreamItem) : World :=
  world
    (mkEnv quiet_shell true "0000000000000000000000000000000000000000"
       (fun _ _ => true) (fun _ => true) (fun _ _ => true) (fun _ _ => true)
       (fun _ _ F => match f_imagePaths F with Some _ => false | None => true end)
       (fun _ => true) (fun _ => script) false)
    (feature "waiting_approval" None).

(** A world in which the feature has a transcript [T] from an earlier
    run. *)
Definition resumable_world (T : string) (script : list StreamItem) : World :=
  mkWorld ∅ 0 ∅ ∅ {[ ("/proj", "f1") := feature "in_progress" None ]}
    {[ ("/proj", "f1") := T ]} EmptyString ∅ 0 [] (environment quiet_shell script).

(** A repository whose main work tree is on [main], and a feature that
    is to be worked on in a branch. *)
Definition main_listing : string :=
  worktree_entry "/proj" "1111111111111111111111111111111111111111" "main".

Definition repo_world : World :=
  mkWorld ∅ 0 ∅ ∅ {[ ("/proj", "f1") := feature "backlog" (Some "feature/login") ]} ∅
    main_listing ∅ 0 [] (environment quiet_shell []).


(** Two calls for the same feature started in the same turn, and then
    resumed in alternation until both have settled. *)
Definition both_calls : list Loop.Step :=
  [ Loop.Spawn (executeFeature ext 0 "/proj" "f1" false false);
    Loop.Spawn (executeFeature ext 0 "/proj" "f1" false false) ].

Definition alternate (n : nat) : list Loop.Step :=
  concat (replicate n [Loop.Resume 0; Loop.Resume 1]).

(** The agent events of a log. *)
Definition agent_events (l : list Effect) : list AutoModeEvent :=
  omap (fun x => match x with
                 | Emitted e => if is_agent_event e then Some e else None
                 | _ => None
                 end) l.

(** Descriptions of 80 characters on one line. *)
Definition eighty : string :=
  "Rework the settings screen so that every model is chosen in exactly one place ok".

Definition padded_eighty : string :=
  "                              " +:+ "Rework the settings screen so that every model is.".

(** A shell in which the work tree has changes and every git command
    succeeds. *)
Definition commit_ok : string -> string -> ExecResult :=
  fun line _ =>
    if String.eqb line "git status --porcelain" then
      ExecOk (" M src/login.ts" +:+ lf) EmptyString
    else if String.eqb line "git rev-parse HEAD" then
      ExecOk ("0123456789abcdef0123456789abcdef01234567" +:+ lf) EmptyString
    else ExecOk EmptyString EmptyString.

(** The environment of the CI runs: [AUTOMAKER_MOCK_AGENT] is set. *)
Definition mock_environment (script : list StreamItem) : Env :=
  mkEnv quiet_shell true "0000000000000000000000000000000000000000"
    (fun _ _ => true) (fun _ => true) (fun _ _ => true) (fun _ _ => true)
    (fun _ _ _ => true) (fun _ => true) (fun _ => script) true.

(** [getErrorMessage] of the routes: the message of an [Error]. *)
Definition getErrorMessage (e : JsError) : string := err_message e.

(** A shell in which the first push is refused and the push that sets
    the upstream goes through. *)
Definition upstream_missing : string -> string -> ExecResult :=
  fun line _ =>
    if String.eqb line "git rev-parse --abbrev-ref HEAD" then
      ExecOk ("feature/login" +:+ lf) EmptyString
    else if JS.startsWith "git push -u" line then
      ExecErr (Error "fatal: no upstream")
    else ExecOk EmptyString EmptyString.

(** A shell in which git answers the branch and refuses every push. *)
Definition offline : string -> string -> ExecResult :=
  fun line _ =>
    if String.eqb line "git rev-parse --abbrev-ref HEAD" then
      ExecOk ("feature/login" +:+ lf) EmptyString
    else if JS.startsWith "git push -u" line then
      ExecErr (Error "fatal: unable to access the remote")
    else ExecErr (Error "fatal: could not read from remote repository").

(** A repository in which git refuses to add a work tree. *)
Definition locked_repo_world : World :=
  mkWorld ∅ 0 ∅ ∅ {[ ("/proj", "f1") := feature "backlog" (Some "feature/login") ]} ∅
    main_listing ∅ 0 []
    (mkEnv quiet_shell true "0000000000000000000000000000000000000000"
       (fun _ _ => false) (fun _ => true) (fun _ _ => true) (fun _ _ => true)
       (fun _ _ _ => true) (fun _ => true) (fun _ => []) false).

(** [getAutomakerDir] *)
Definition getAutomakerDir (project : string) : string := project +:+ "/.automaker".



End Demo.

(** ** Notions used to state the properties *)

(** A computation settles when no run of it is cut by the bound on
    redirections. *)
Definition settles {A : Type} (m : Async A) : Prop :=
  forall w, snd (run m w) <> Unsettled.

(** [m] keeps the relation [R] between the state it starts in and the
    state it ends in. *)
Definition preserves {A : Type} (R : World -> World -> Prop) (m : Async A) : Prop :=
  forall w, R w (fst (run m w)).

(** The part of the state that only the entry points of the service
    change: the registry, the abort controllers, the feature store, the
    clock and the environment. *)
Definition stable (w w' : World) : Prop :=
  runningFeatures w' = runningFeatures w
  /\ controllers w' = controllers w
  /\ aborted w' = aborted w
  /\ featureFiles w' = featureFiles w
  /\ clock w' = clock w
  /\ env w' = env w.

(** The log only grows. *)
Definition grows (w w' : World) : Prop :=
  exists l, log w' = (log w ++ l)%list.

(** Effects of child processes, as opposed to events and writes to the
    stores. *)
Definition is_process_effect (e : Effect) : Prop :=
  match e with
  | Ran _ _ | WorktreeCreated _ _ => True
  | _ => False
  end.

(** The log grows by effects of child processes only. *)
Definition silent (w w' : World) : Prop :=
  exists l, log w' = (log w ++ l)%list /\ Forall is_process_effect l.

(** [stable] and [grows]: what holds across [runAgent]. *)
Definition framed (w w' : World) : Prop := stable w w' /\ grows w w'.

(** [stable] and [silent]: what holds across the resolution of a work
    tree; the transcripts and the activations are untouched as well. *)
Definition quiet (w w' : World) : Prop :=
  stable w w' /\ silent w w'
  /\ contextFiles w' = contextFiles w /\ agentRuns w' = agentRuns w.

(** How the loop over the blocks of a message ends: the error it throws,
    if any. *)
Fixpoint blocks_result (blocks : list ContentBlock) : option JsError :=
  match blocks with
  | [] => None
  | BText text :: rest => if auth_signal text then Some auth_error else blocks_result rest
  | _ :: rest => blocks_result rest
  end.

Definition message_result (msg : ProviderMessage) : option JsError :=
  match msg with
  | MAssistant (Some content) => blocks_result content
  | MError error =>
      Some (Error (match or_null error with Some m => m | None => "Unknown error" end))
  | _ => None
  end.

(** How the consumption of a stream that is not cancelled ends. *)
Fixpoint stream_result (items : list StreamItem) : option JsError :=
  match items with
  | [] => None
  | SThrow e :: _ => Some e
  | SMsg msg :: rest =>
      match message_result msg with
      | Some e => Some e
      | None => stream_result rest
      end
  end.

(** The value of [responseText] when the loops end. *)
Fixpoint blocks_text (ext : External) (blocks : list ContentBlock) (r : string) : string :=
  match blocks with
  | [] => r
  | BText text :: rest =>
      if auth_signal text then append_text text r
      else blocks_text ext rest (append_text text r)
  | BToolUse name input :: rest => blocks_text ext rest (append_tool ext name input r)
  | BOther :: rest => blocks_text ext rest r
  end.

Fixpoint stream_text (ext : External) (items : list StreamItem) (r : string) : string :=
  match items with
  | [] => r
  | SThrow _ :: _ => r
  | SMsg msg :: rest =>
      match msg with
      | MAssistant (Some content) =>
          match blocks_result content with
          | Some _ => blocks_text ext content r
          | None => stream_text ext rest (blocks_text ext content r)
          end
      | MError _ => r
      | _ => stream_text ext rest r
      end
  end.

(** What the agent says in a stream: the text of every text block and
    the name and input of every tool use, in the order of the stream. *)
Definition block_pieces (b : ContentBlock) : list string :=
  match b with
  | BText text => [or_empty text]
  | BToolUse name input => name :: match input with Some json => [json] | None => [] end
  | BOther => []
  end.

Fixpoint said (items : list StreamItem) : list string :=
  match items with
  | [] => []
  | SMsg (MAssistant (Some content)) :: rest =>
      (concat (List.map block_pieces content) ++ said rest)%list
  | _ :: rest => said rest
  end.

(** The strings [pieces] occur in [s] one after the other, in this
    order and without overlap. *)
Fixpoint in_order (pieces : list string) (s : string) : Prop :=
  match pieces with
  | [] => True
  | t :: rest => exists pre post, s = pre +:+ t +:+ post /\ in_order rest post
  end.

Definition outcome_of (r : option JsError) : Outcome unit :=
  match r with
  | None => Fulfilled tt
  | Some e => Rejected e
  end.

(** The state of an activation of [runAgent] while its stream is
    consumed: its controller is not aborted, [responseText] holds [r], and
    the transcript has the content [ctx]. *)
Definition consuming (rid : nat) (p f r : string) (ctx : option string) (w : World) : Prop :=
  (rid ∉ aborted w)
  /\ contextFiles w !! (p, f) = ctx
  /\ exists t, agentRuns w !! rid = Some (mkAgentRun r t p f).

(** The options [runAgent] hands to the provider. *)
Definition agent_options (ext : External) (workDir prompt : string) (abortController : nat)
    (imagePaths : option (list string)) (model : option string) : ExecuteOptions :=
  let sdkOptions := createAutoModeOptions ext workDir model abortController in
  mkOptions (buildPromptWithImages ext prompt imagePaths workDir) (sdk_model sdkOptions)
    (sdk_maxTurns sdkOptions) workDir (sdk_allowedTools sdkOptions) abortController.

(** The [try]/[catch]/[finally] statement that [executeFeature] and
    [executeFeatureWithContext] have in common, over what differs between
    them: the auto-mode flag, the prompt, the previous content and the
    completion message. *)
Definition guarded_run (ext : External) (p f : string) (u auto : bool) (ac : nat)
    (prompt_of : Feature -> string) (prev : option string) (label : string) : Async unit :=
  try_finally
    (try_catch
       (let* loaded := await (loadFeature p f) in
        match loaded with
        | None => Throw (not_found f)
        | Some feature =>
            let branchName := or_null (f_branchName feature) in
            let* worktreePath := deriveWorktree ext p f u branchName in
            let workDir := workDir_of ext p worktreePath in
            let* now := read clock in
            modify (with_runningFeatures
                      (insert f (mkRunning f p worktreePath branchName ac auto now))) ;;
            await (updateFeatureStatus p f "in_progress") ;;
            let prompt := prompt_of feature in
            let imagePaths := option_map (List.map img_path) (f_imagePaths feature) in
            let model := resolveModelString ext (f_model feature) (DEFAULT_MODELS_claude ext) in
            await (runAgent ext workDir f prompt ac p imagePaths (Some model) prev) ;;
            await (updateFeatureStatus p f "waiting_approval") ;;
            emit_completed p f label
        end)
       (on_run_error ext p f))
    (with_runningFeatures (delete f)).

(** The states a guarded run passes through. *)
Definition status_written (p f status : string) (w : World) : World :=
  match featureFiles w !! (p, f) with
  | Some feature =>
      if feature_write_ok (env w) p f (set_status status (clock w) feature) then
        record (FeatureWritten p f (set_status status (clock w) feature))
          (with_featureFiles (insert (p, f) (set_status status (clock w) feature)) w)
      else w
  | None => w
  end.



(** The record of a feature after [updateFeatureStatus] has found the
    record [F]: the update, or [F] itself when the write fails. *)
Definition status_attempt (w : World) (p f status : string) (F : Feature) : Feature :=
  if feature_write_ok (env w) p f (set_status status (clock w) F)
  then set_status status (clock w) F else F.

Definition registered (p f : string) (wt branch : option string) (ac : nat) (auto : bool)
    (w : World) : World :=
  with_runningFeatures (insert f (mkRunning f p wt branch ac auto (clock w))) w.

Definition completed (p f label : string) (start : Z) (w : World) : World :=
  record
    (Emitted
       (auto_mode_feature_complete f true
          (label +:+ string_of_Z (round_seconds (clock w - start)) +:+ "s") (Some p)))
    w.

Definition failed (ext : External) (p f : string) (e : JsError) (w : World) : World :=
  let errorInfo := classifyError ext e in
  if isAbort errorInfo then
    record (Emitted (auto_mode_feature_complete f false "Feature stopped by user" (Some p))) w
  else
    record
      (Emitted
         (auto_mode_error f (message errorInfo)
            (Some (if isAuth errorInfo then "authentication" else "execution")) (Some p)))
      (status_written p f "backlog" w).

Definition cleanup (f : string) (w : World) : World :=
  with_runningFeatures (delete f) w.

(** The result of a guarded run of a feature [F], from the results of
    the two steps in it that depend on the outside: the resolution of the
    work tree and the agent. *)
Definition guarded_result (ext : External) (p f : string) (u auto : bool) (ac : nat)
    (prompt_of : Feature -> string) (prev : option string) (label : string)
    (F : Feature) (w : World) : World * Outcome unit :=
  let branch := or_null (f_branchName F) in
  match run (deriveWorktree ext p f u branch) w with
  | (w1, Fulfilled wt) =>
      let w3 := status_written p f "in_progress" (registered p f wt branch ac auto w1) in
      match
        run (runAgent ext (workDir_of ext p wt) f (prompt_of F) ac p
               (option_map (List.map img_path) (f_imagePaths F))
               (Some (resolveModelString ext (f_model F) (DEFAULT_MODELS_claude ext))) prev)
            w3
      with
      | (w4, Fulfilled _) =>
          (cleanup f (completed p f label (clock w1) (status_written p f "waiting_approval" w4)),
           Fulfilled tt)
      | (w4, Rejected e) => (cleanup f (failed ext p f e w4), Fulfilled tt)
      | (w4, Unsettled) => (w4, Unsettled)
      end
  | (w1, Rejected e) => (cleanup f (failed ext p f e w1), Fulfilled tt)
  | (w1, Unsettled) => (w1, Unsettled)
  end.

(** The state in which a call starts its guarded run: a fresh abort
    controller, and the start event sent. *)
Definition started (p f title description : string) (w : World) : World :=
  record (Emitted (auto_mode_feature_start f p (StartStub f title description)))
    (with_controllers S (with_aborted (fun a => a ∖ {[controllers w]}) w)).

(** A computation that is fulfilled whatever the state. *)
Definition fulfils {A : Type} (m : Async A) : Prop :=
  forall w, exists a, snd (run m w) = Fulfilled a.

(** A call that, whatever the state it runs in, is fulfilled and leaves
    no entry for [f] in the registry. *)
Definition ends_clean (f : string) (m : Async unit) : Prop :=
  forall w,
    snd (run m w) = Fulfilled tt /\ runningFeatures (fst (run m w)) !! f = None.



(** Directories can be created. *)
Definition can_mkdir (w : World) : Prop :=
  forall dir, mkdir_ok (env w) dir = true.

(** What [findExistingWorktreeForBranch] finds in a state. *)
Definition find_result (ext : External) (p b : string) (w : World) : option string :=
  if wt_list_ok (env w) then
    scan_worktrees ext p b (JS.split_nl (wt_listing w)) None None
  else None.

(** The loop of [scan_worktrees] alone: the value it returns from inside
    the loop, or the variables it leaves the loop with. *)
Fixpoint scan_loop (ext : External) (p b : string) (lines : list string)
    (cp cb : option string) : option string + (option string * option string) :=
  match lines with
  | [] => inr (cp, cb)
  | line :: rest =>
      if JS.startsWith "worktree " line then
        scan_loop ext p b rest (Some (JS.slice 9 line)) cb
      else if JS.startsWith "branch " line then
        scan_loop ext p b rest cp (Some (JS.remove_first "refs/heads/" (JS.slice 7 line)))
      else
        match JS.is_empty line, or_null cp, or_null cb with
        | true, Some x, Some y =>
            if String.eqb y b then inl (Some (resolve_listed ext p x))
            else scan_loop ext p b rest None None
        | _, _, _ => scan_loop ext p b rest cp cb
        end
  end.

(** The state and result of [setupWorktree], by cases on what it finds. *)
Definition setup_result (ext : External) (p f b : string) (w : World)
  : World * Outcome string :=
  let worktreesDir := path_join ext p ".worktrees" in
  let worktreePath := path_join ext worktreesDir f in
  let w1 := record (Ran GitWorktreeList p) w in
  match or_null (find_result ext p b w) with
  | Some existing => (w1, Fulfilled existing)
  | None =>
      if mkdir_ok (env w) worktreesDir then
        let w2 := with_dirs (fun d => {[worktreesDir]} ∪ d) w1 in
        if decide (worktreePath ∈ dirs w2) then (w2, Fulfilled (path_resolve ext worktreePath))
        else
          let w3 := record (Ran (GitWorktreeAdd worktreePath b) p)
                      (record (Ran (GitBranch b) p) w2) in
          if wt_add_ok (env w) worktreePath b then
            (record (WorktreeCreated worktreePath b)
               (with_dirs (fun d => {[worktreePath]} ∪ d)
                  (with_wt_listing
                     (fun l => l +:+ worktree_entry (path_resolve ext worktreePath)
                                       (wt_head (env w)) b)
                     w3)),
             Fulfilled (path_resolve ext worktreePath))
          else (w3, Fulfilled (path_resolve ext p))
      else (w1, Rejected (EIO "mkdir"))
  end.

(** The number of work trees created in a log. *)
Definition created (l : list Effect) : nat :=
  List.length (List.filter (fun e => match e with WorktreeCreated _ _ => true | _ => false end) l).

(** Rewriting a run step by step; the operations themselves stay folded. *)
Create Rewrite HintDb run.

Ltac run_simpl :=
  repeat (progress (autorewrite with run; cbn beta iota zeta)).

Create HintDb settles discriminated.
Create HintDb frame discriminated.

(** The commands of a list that are run by a loop that stops at the
    first one that fails. *)
Fixpoint until_failure (ok : string -> bool) (cmds : list string) : list string :=
  match cmds with
  | [] => []
  | c :: rest => if ok c then c :: until_failure ok rest else [c]
  end.

(** Whether a command line succeeds in a directory. *)
Definition command_ok (w : World) (dir cmd : string) : bool :=
  match shell (env w) cmd dir with
  | ExecOk _ _ => true
  | ExecErr _ => false
  end.

(** The state after the commands [cmds] were run in [dir]. *)
Definition ran_all (dir : string) (cmds : list string) (w : World) : World :=
  fold_left (fun w0 c => record (Ran (Shell c) dir) w0) cmds w.

(** The log grows by effects that satisfy [P] only. *)
Definition grows_by (P : Effect -> Prop) (w w' : World) : Prop :=
  exists l, log w' = (log w ++ l)%list /\ Forall P l.

(** What the agent adds to the log while it runs: progress and tool
    events, and writes of the transcript and of files. *)
Definition is_agent_output (e : Effect) : Prop :=
  match e with
  | Emitted ev => is_agent_event ev = true
  | TranscriptWritten _ _ _ | FileWritten _ _ => True
  | _ => False
  end.

(** What a run adds to the log between its first and its last event,
    apart from the child processes of the work-tree set-up: the output of
    the agent and the writes of the feature record. *)
Definition is_run_output (e : Effect) : Prop :=
  match e with
  | Emitted ev => is_agent_event ev = true
  | TranscriptWritten _ _ _ | FileWritten _ _ | FeatureWritten _ _ _ => True
  | _ => False
  end.

(** The events that end a run of feature [f]: a completion or an
    error. *)
Definition closes (f : string) (e : AutoModeEvent) : Prop :=
  match e with
  | auto_mode_feature_complete fid _ _ _ => fid = f
  | auto_mode_error fid _ _ _ => fid = f
  | _ => False
  end.


(** The listing git prints for work trees given as path, head and
    branch: one record each. *)
Definition listing_of (entries : list (string * string * string)) : string :=
  foldr (fun e rest => worktree_entry e.1.1 e.1.2 e.2 +:+ rest) EmptyString entries.

(** A record whose fields fit on a line each, with a path and a branch
    that are not empty. *)
Definition well_listed (e : string * string * string) : Prop :=
  JS.single_line e.1.1 = true /\ JS.truthy e.1.1 = true
  /\ JS.single_line e.1.2 = true
  /\ JS.single_line e.2 = true /\ JS.truthy e.2 = true.

(** The registry is the same in two states. *)
Definition same_registry (w w' : World) : Prop :=
  runningFeatures w' = runningFeatures w.

(** The paths of the images of a follow-up that [copy_images] manages to
    copy into the folder of the feature. *)
Definition copies (ext : External) (e : Env) (featureImagesDir : string)
    (imagePaths : list string) : list string :=
  omap (fun imagePath =>
          let destPath := path_join ext featureImagesDir (path_basename ext imagePath) in
          if copy_ok e imagePath destPath then Some destPath else None)
       imagePaths.

(** A call that is fulfilled and leaves the registry [R0]. *)
Definition restores (R0 : JsMap RunningFeature) (m : Async unit) (w : World) : Prop :=
  snd (run m w) = Fulfilled tt /\ runningFeatures (fst (run m w)) = R0.

(** An effect that is not an event that ends a run of [f]. *)
Definition not_closing (f : string) (x : Effect) : Prop :=
  match x with
  | Emitted ev => ~ closes f ev
  | _ => True
  end.

(** The values [analyzeProject] assigns to [analysisResult] while it
    consumes a stream, in order: the text of every text block, and the
    result of every successful result message that has one. *)
Fixpoint block_answers (blocks : list ContentBlock) : list string :=
  match blocks with
  | [] => []
  | BText text :: rest => or_empty text :: block_answers rest
  | _ :: rest => block_answers rest
  end.

Fixpoint answers (items : list StreamItem) : list string :=
  match items with
  | [] => []
  | SThrow _ :: _ => []
  | SMsg (MAssistant (Some content)) :: rest => block_answers content ++ answers rest
  | SMsg (MResult subtype result) :: rest =>
      (if String.eqb subtype "success" then
         match or_null result with Some r => [r] | None => [] end
       else []) ++ answers rest
  | SMsg _ :: rest => answers rest
  end.

(** The error the iterator of a stream rejects with, if it does. *)
Fixpoint stream_throws (items : list StreamItem) : option JsError :=
  match items with
  | [] => None
  | SThrow e :: _ => Some e
  | SMsg _ :: rest => stream_throws rest
  end.

(** A progress event of the analysis [fid] of [project]. *)
Definition is_analysis_progress (fid project : string) (e : AnalysisEvent) : Prop :=
  match e with
  | analysis_progress fid' _ project' => fid' = fid /\ project' = project
  | _ => False
  end.

(** The options [analyzeProject] hands to the provider. *)
Definition analysis_options (ext : External) (projectPath : string) (abortController : nat)
  : ExecuteOptions :=
  mkOptions analysis_prompt (resolveModelString ext None (DEFAULT_MODELS_claude ext))
    (Some 5) projectPath (Some ["Read"; "Glob"; "Grep"]) abortController.

(** Every record of the registry is stored under the feature id it
    carries, and no key is held twice. *)
Definition keyed (w : World) : Prop :=
  Forall (fun e => rf_featureId (snd e) = fst e) (entries (runningFeatures w))
  /\ NoDup (Map_keys (runningFeatures w)).

(** Every operation of [m] keeps the invariant [Inv], whatever happens
    between its turns. *)
Fixpoint keeps {A : Type} (Inv : World -> Prop) (m : Async A) : Prop :=
  match m with
  | Act op k => (forall w, Inv w -> Inv (fst (op w))) /\ (forall x, keeps Inv (k x))
  | Yield k => keeps Inv k
  | _ => True
  end.



(** * Properties *)

(** ** Strings *)

Module JSFacts.

Import JS.


Lemma append_cons (c : ascii) (a b : string) : String c a +:+ b = String c (a +:+ b).
Proof. reflexivity. Qed.

Lemma length_append (a b : string) :
  String.length (a +:+ b) = (String.length a + String.length b)%nat.
Proof.
  induction a as [|c a IH]; [reflexivity |].
  rewrite append_cons. simpl. now rewrite IH.
Qed.

Lemma append_empty_r (a : string) : a +:+ EmptyString = a.
Proof.
  induction a as [|c a IH]; [reflexivity |].
  rewrite append_cons. now rewrite IH.
Qed.

Lemma append_assoc (a b c : string) : (a +:+ b) +:+ c = a +:+ (b +:+ c).
Proof.
  induction a as [|x a IH]; [reflexivity |].
  rewrite !append_cons. now rewrite IH.
Qed.

Lemma split_nl_nonempty (s : string) : split_nl s <> [].
Proof.
  induction s as [|c r IH]; simpl; [discriminate |].
  destruct (Ascii.eqb c nl); [discriminate |].
  destruct (split_nl r); discriminate.
Qed.

Lemma split_nl_single_line (s : string) : single_line s = true -> split_nl s = [s].
Proof.
  induction s as [|c r IH]; simpl; [reflexivity |].
  destruct (Ascii.eqb c nl); simpl; [discriminate |].
  intros H. now rewrite (IH H).
Qed.

Lemma first_line_single_line (s : string) : single_line s = true -> first_line s = s.
Proof. intros H. unfold first_line. now rewrite split_nl_single_line. Qed.

Lemma length_first_line (s : string) :
  (String.length (first_line s) <= String.length s)%nat.
Proof.
  unfold first_line.
  induction s as [|c r IH]; simpl; [lia |].
  destruct (Ascii.eqb c nl); simpl; [lia |].
  destruct (split_nl r) as [|l ls]; simpl in *; lia.
Qed.

Lemma length_substring0 (n : nat) (s : string) :
  (n <= String.length s)%nat -> String.length (substring0 n s) = n.
Proof.
  unfold substring0. revert s.
  induction n as [|n IH]; intros [|c r] H; simpl in *; try reflexivity; try lia.
  rewrite IH; [reflexivity | lia].
Qed.

Lemma slice_append (a b : string) : slice (String.length a) (a +:+ b) = b.
Proof.
  induction a as [|c a IH]; [now destruct b |].
  rewrite append_cons. simpl. exact IH.
Qed.

Lemma endsWith_append (a p : string) : endsWith p (a +:+ p) = true.
Proof.
  unfold endsWith. rewrite length_append.
  replace (String.length a + String.length p - String.length p)%nat
    with (String.length a) by lia.
  rewrite slice_append, String.eqb_refl.
  rewrite andb_true_r. apply Nat.leb_le. lia.
Qed.

Lemma prefix_append (p s : string) : String.prefix p (p +:+ s) = true.
Proof.
  induction p as [|c p IH]; [now destruct s |].
  rewrite append_cons. simpl.
  destruct (ascii_dec c c) as [_|n]; [exact IH | now elim n].
Qed.

Lemma is_empty_true (s : string) : is_empty s = true <-> s = EmptyString.
Proof. destruct s; simpl; split; congruence. Qed.

Lemma split_nl_app_nl (a b : string) :
  split_nl (a +:+ String nl b) = (split_nl a ++ split_nl b)%list.
Proof.
  induction a as [|c a IH].
  - reflexivity.
  - rewrite append_cons. cbn [split_nl]. rewrite IH.
    destruct (Ascii.eqb c nl); [reflexivity |].
    pose proof (split_nl_nonempty a) as Hne.
    destruct (split_nl a) as [|l ls]; [now elim Hne | reflexivity].
Qed.

Lemma single_line_append (a b : string) :
  single_line (a +:+ b) = single_line a && single_line b.
Proof.
  induction a as [|c a IH]; [reflexivity |].
  rewrite append_cons. cbn [single_line]. rewrite IH. now rewrite andb_assoc.
Qed.

Lemma substring0_slice (n : nat) (s : string) : s = substring0 n s +:+ slice n s.
Proof.
  unfold substring0. revert s. induction n as [|n IH]; intros [|c s]; try reflexivity.
  cbn [String.substring slice]. rewrite append_cons. now rewrite <- IH.
Qed.

Lemma endsWith_inv (p s : string) : endsWith p s = true -> exists s0, s = s0 +:+ p.
Proof.
  unfold endsWith. intros H. apply andb_true_iff in H as [_ H].
  apply String.eqb_eq in H.
  set (n := (String.length s - String.length p)%nat) in *.
  exists (substring0 n s). rewrite <- H. apply substring0_slice.
Qed.

End JSFacts.

(** ** Commit titles *)

Example title_short : extractTitleFromDescription "Add login page" = "Add login page".
Proof. reflexivity. Qed.

Example title_blank : extractTitleFromDescription "   " = "Untitled Feature".
Proof. reflexivity. Qed.

Example title_second_line_dropped :
  extractTitleFromDescription ("Add login page" +:+ lf +:+ "with a form") = "Add login page".
Proof. reflexivity. Qed.

(** What the function computes once the description is known not to be
    blank. *)
Lemma title_of_nonblank (d : string) :
  JS.is_empty (JS.trim d) = false ->
  extractTitleFromDescription d =
    let firstLine := JS.trim (JS.first_line d) in
    if Nat.leb (String.length firstLine) 60 then firstLine
    else JS.substring0 57 firstLine +:+ "...".
Proof.
  intros H. unfold extractTitleFromDescription. rewrite H.
  destruct d; [discriminate H | reflexivity].
Qed.

(** C8, as the code has it: the title is taken from the first line after
    [trim]. A description that is not blank, whose first line has no
    white space around it, and that is shorter than 60 characters gives
    its first line verbatim; a description of 80 characters on one line
    with no white space around it gives its first 57 characters followed
    by ["..."], 60 characters in all. *)
Theorem title_truncation (d : string) :
  (JS.is_empty (JS.trim d) = false ->
   JS.trim (JS.first_line d) = JS.first_line d ->
   (String.length d < 60)%nat ->
   extractTitleFromDescription d = JS.first_line d)
  /\
  (String.length d = 80%nat ->
   JS.single_line d = true ->
   JS.trim d = d ->
   extractTitleFromDescription d = JS.substring0 57 d +:+ "..."
   /\ String.length (extractTitleFromDescription d) = 60%nat
   /\ JS.endsWith "..." (extractTitleFromDescription d) = true).
Proof.
  split.
  - intros Hblank Htrim Hlen.
    rewrite (title_of_nonblank d Hblank). cbv zeta. rewrite Htrim.
    pose proof (JSFacts.length_first_line d) as Hle.
    destruct (Nat.leb_spec (String.length (JS.first_line d)) 60) as [_|Hgt];
      [reflexivity | lia].
  - intros Hlen Hline Htrim.
    assert (Hblank : JS.is_empty (JS.trim d) = false).
    { rewrite Htrim. destruct d; [discriminate Hlen | reflexivity]. }
    rewrite (title_of_nonblank d Hblank). cbv zeta.
    rewrite (JSFacts.first_line_single_line d Hline), Htrim, Hlen.
    change (Nat.leb 80 60) with false. cbv iota.
    split; [reflexivity |]. split.
    + rewrite JSFacts.length_append, JSFacts.length_substring0; [reflexivity | lia].
    + apply JSFacts.endsWith_append.
Qed.

Lemma title_truncation_witness :
  extractTitleFromDescription "Add login page" = "Add login page"
  /\ extractTitleFromDescription Demo.eighty =
       "Rework the settings screen so that every model is chosen ..."
  /\ String.length (extractTitleFromDescription Demo.eighty) = 60%nat.
Proof.
  split.
  - apply (proj1 (title_truncation "Add login page")); [reflexivity | reflexivity |].
    simpl. lia.
  - destruct (proj2 (title_truncation Demo.eighty)) as (H1 & H2 & _);
      [reflexivity | reflexivity | reflexivity |].
    split; [exact (eq_trans H1 eq_refl) | exact H2].
Defined.

(** C8 as stated fails where [trim] changes the text: a short description
    that starts with a space is not used verbatim, and a description of 80
    characters that starts with white space is not cut to 60. *)
Lemma title_not_verbatim :
  (String.length " fix typo" < 60)%nat
  /\ extractTitleFromDescription " fix typo" <> JS.first_line " fix typo"
  /\ String.length Demo.padded_eighty = 80%nat
  /\ JS.single_line Demo.padded_eighty = true
  /\ String.length (extractTitleFromDescription Demo.padded_eighty) = 50%nat.
Proof.
  split; [simpl; lia |].
  split; [discriminate |].
  split; [reflexivity |]. split; reflexivity.
Qed.

(** ** The registry as a map *)

Module MapFacts.

Section Laws.

Context {V : Type}.

Implicit Types (m : JsMap V) (l : list (string * V)) (k : string) (v : V).

Lemma lookup_empty k : (∅ : JsMap V) !! k = None.
Proof. reflexivity. Qed.

Lemma find_assoc_set_eq k v l :
  List.find (fun e => String.eqb (fst e) k) (assoc_set k v l) <> None.
Proof.
  induction l as [|[k' v'] l IH]; cbn.
  - now rewrite String.eqb_refl.
  - destruct (String.eqb k' k) eqn:E; cbn; rewrite E; [discriminate | exact IH].
Qed.

Lemma lookup_set_eq k v m : <[k := v]> m !! k = Some v.
Proof.
  destruct m as [l]. unfold lookup, JsMap_lookup, Map_get, insert, JsMap_insert, Map_set.
  cbn [entries]. induction l as [|[k' v'] l IH]; cbn.
  - now rewrite String.eqb_refl.
  - destruct (String.eqb k' k) eqn:E; cbn; rewrite E; [reflexivity | exact IH].
Qed.

Lemma lookup_set_ne k k' v m : k <> k' -> <[k := v]> m !! k' = m !! k'.
Proof.
  intros Hne. destruct m as [l].
  unfold lookup, JsMap_lookup, Map_get, insert, JsMap_insert, Map_set.
  cbn [entries]. induction l as [|[k0 v0] l IH]; cbn.
  - destruct (String.eqb k k') eqn:E; [| reflexivity].
    apply String.eqb_eq in E. contradiction.
  - destruct (String.eqb k0 k) eqn:E; cbn.
    + apply String.eqb_eq in E. subst k0.
      destruct (String.eqb k k') eqn:E'; [| reflexivity].
      apply String.eqb_eq in E'. contradiction.
    + destruct (String.eqb k0 k'); [reflexivity | exact IH].
Qed.

Lemma lookup_set_Some k k' v v' m :
  <[k := v]> m !! k' = Some v' -> (k = k' /\ v = v') \/ (k <> k' /\ m !! k' = Some v').
Proof.
  destruct (String.eqb_spec k k') as [<- | Hne].
  - rewrite lookup_set_eq. intros [= <-]. now left.
  - rewrite lookup_set_ne by exact Hne. intros H. now right.
Qed.

Lemma lookup_delete_eq k m : delete k m !! k = None.
Proof.
  destruct m as [l]. unfold lookup, JsMap_lookup, Map_get, delete, JsMap_delete, Map_delete.
  cbn [entries]. induction l as [|[k' v'] l IH]; cbn; [reflexivity |].
  destruct (String.eqb k' k) eqn:E; cbn; [exact IH | now rewrite E].
Qed.

Lemma lookup_delete_ne k k' m : k <> k' -> delete k m !! k' = m !! k'.
Proof.
  intros Hne. destruct m as [l].
  unfold lookup, JsMap_lookup, Map_get, delete, JsMap_delete, Map_delete.
  cbn [entries]. induction l as [|[k0 v0] l IH]; cbn; [reflexivity |].
  destruct (String.eqb k0 k) eqn:E; cbn.
  - apply String.eqb_eq in E. subst k0.
    destruct (String.eqb k k') eqn:E'; [| exact IH].
    apply String.eqb_eq in E'. contradiction.
  - destruct (String.eqb k0 k'); [reflexivity | exact IH].
Qed.

Lemma lookup_delete_Some k k' v m :
  delete k m !! k' = Some v -> k <> k' /\ m !! k' = Some v.
Proof.
  destruct (String.eqb_spec k k') as [<- | Hne].
  - now rewrite lookup_delete_eq.
  - rewrite lookup_delete_ne by exact Hne. now split.
Qed.

(** A key that is looked up in vain is the key of no entry. *)
Lemma lookup_None k m :
  m !! k = None <-> Forall (fun e => String.eqb (fst e) k = false) (entries m).
Proof.
  destruct m as [l]. unfold lookup, JsMap_lookup, Map_get. cbn [entries].
  induction l as [|[k' v'] l IH]; cbn.
  - split; [constructor | reflexivity].
  - destruct (String.eqb k' k) eqn:E; cbn.
    + split; [discriminate |]. intros H. inversion H as [|? ? H1 _]; subst.
      cbn in H1. congruence.
    + rewrite IH. split; [now constructor |]. intros H. now inversion H.
Qed.

Lemma delete_absent k m : m !! k = None -> delete k m = m.
Proof.
  rewrite lookup_None. destruct m as [l].
  unfold delete, JsMap_delete, Map_delete. cbn [entries]. intros H. f_equal.
  induction H as [|e l He _ IH]; cbn; [reflexivity |]. now rewrite He, IH.
Qed.

(** [delete] undoes a [set] of a key that was absent: the entry had been
    appended. *)
Lemma delete_set k v m : m !! k = None -> delete k (<[k := v]> m) = m.
Proof.
  rewrite lookup_None. destruct m as [l].
  unfold delete, JsMap_delete, Map_delete, insert, JsMap_insert, Map_set.
  cbn [entries]. intros H. f_equal.
  induction H as [|e l He _ IH]; cbn.
  - now rewrite String.eqb_refl.
  - rewrite He. cbn. now rewrite He, IH.
Qed.

Lemma lookup_key k v m : m !! k = Some v -> k ∈ Map_keys m.
Proof.
  destruct m as [l]. unfold lookup, JsMap_lookup, Map_get, Map_keys. cbn [entries].
  induction l as [|[k' v'] l IH]; cbn; [discriminate |].
  destruct (String.eqb k' k) eqn:E; cbn.
  - intros _. apply String.eqb_eq in E. subst k'. apply elem_of_cons. now left.
  - intros H. apply elem_of_cons. right. now apply IH.
Qed.





End Laws.

End MapFacts.

(** ** Laws of asynchronous computations *)

Section AsyncLaws.

Context {A B : Type}.

Lemma run_bind (m : Async A) (g : A -> Async B) (w : World) :
  run (bind m g) w =
    match run m w with
    | (w', Fulfilled a) => run (g a) w'
    | (w', Rejected e) => (w', Rejected e)
    | (w', Unsettled) => (w', Unsettled)
    end.
Proof.
  revert w. induction m as [a|e|X op k IH|k IH|]; intros w; simpl; try reflexivity.
  - destruct (op w) as [w' x]. apply IH.
  - apply IH.
Qed.

Lemma run_try_catch (m : Async A) (h : JsError -> Async A) (w : World) :
  run (try_catch m h) w =
    match run m w with
    | (w', Rejected e) => run (h e) w'
    | r => r
    end.
Proof.
  revert w. induction m as [a|e|X op k IH|k IH|]; intros w; simpl; try reflexivity.
  - destruct (op w) as [w' x]. apply IH.
  - apply IH.
Qed.

Lemma run_try_finally (m : Async A) (fin : World -> World) (w : World) :
  run (try_finally m fin) w =
    match run m w with
    | (w', Unsettled) => (w', Unsettled)
    | (w', o) => (fin w', o)
    end.
Proof.
  revert w. induction m as [a|e|X op k IH|k IH|]; intros w; simpl; try reflexivity.
  - destruct (op w) as [w' x]. apply IH.
  - apply IH.
Qed.

Lemma run_await (m : Async A) (w : World) : run (await m) w = run m w.
Proof.
  revert w. induction m as [a|e|X op k IH|k IH|]; intros w; simpl; try reflexivity.
  - destruct (op w) as [w' x]. apply IH.
  - apply IH.
Qed.

End AsyncLaws.

Lemma run_read {X : Type} (g : World -> X) (w : World) :
  run (read g) w = (w, Fulfilled (g w)).
Proof. reflexivity. Qed.

Lemma run_modify (f : World -> World) (w : World) :
  run (modify f) w = (f w, Fulfilled tt).
Proof. reflexivity. Qed.

Lemma run_promise {X : Type} (op : World -> World * (X + JsError)) (w : World) :
  run (promise op) w =
    match op w with
    | (w', inl x) => (w', Fulfilled x)
    | (w', inr e) => (w', Rejected e)
    end.
Proof. unfold promise. simpl. destruct (op w) as [w' [x|e]]; reflexivity. Qed.

Lemma run_ret {A : Type} (a : A) (w : World) : run (Ret a) w = (w, Fulfilled a).
Proof. reflexivity. Qed.

Lemma run_throw {A : Type} (e : JsError) (w : World) : run (@Throw A e) w = (w, Rejected e).
Proof. reflexivity. Qed.

Lemma run_yield {A : Type} (k : Async A) (w : World) : run (Yield k) w = run k w.
Proof. reflexivity. Qed.

#[local] Hint Rewrite @run_bind @run_try_catch @run_try_finally @run_await @run_read
  @run_modify @run_ret @run_throw @run_yield : run.

Section Settles.

Context {A B : Type}.

Lemma settles_ret (a : A) : settles (Ret a).
Proof. intros w. discriminate. Qed.

Lemma settles_throw (e : JsError) : settles (@Throw A e).
Proof. intros w. discriminate. Qed.

Lemma settles_bind (m : Async A) (g : A -> Async B) :
  settles m -> (forall a, settles (g a)) -> settles (bind m g).
Proof.
  intros Hm Hg w. rewrite run_bind. specialize (Hm w).
  destruct (run m w) as [w' [a|e|]]; simpl in *; [apply Hg | discriminate | congruence].
Qed.

Lemma settles_try_catch (m : Async A) (h : JsError -> Async A) :
  settles m -> (forall e, settles (h e)) -> settles (try_catch m h).
Proof.
  intros Hm Hh w. rewrite run_try_catch. specialize (Hm w).
  destruct (run m w) as [w' [a|e|]]; simpl in *; [discriminate | apply Hh | congruence].
Qed.

Lemma settles_try_finally (m : Async A) (fin : World -> World) :
  settles m -> settles (try_finally m fin).
Proof.
  intros Hm w. rewrite run_try_finally. specialize (Hm w).
  destruct (run m w) as [w' [a|e|]]; simpl in *; [discriminate | discriminate | congruence].
Qed.

Lemma settles_await (m : Async A) : settles m -> settles (await m).
Proof. intros Hm w. rewrite run_await. apply Hm. Qed.

Lemma settles_yield (m : Async A) : settles m -> settles (Yield m).
Proof. intros Hm w. apply Hm. Qed.

Lemma settles_promise (op : World -> World * (A + JsError)) : settles (promise op).
Proof. intros w. rewrite run_promise. destruct (op w) as [w' [x|e]]; discriminate. Qed.

Lemma settles_read (g : World -> A) : settles (read g).
Proof. intros w. discriminate. Qed.

Lemma settles_if (b : bool) (m1 m2 : Async A) :
  settles m1 -> settles m2 -> settles (if b then m1 else m2).
Proof. now destruct b. Qed.

End Settles.

Lemma settles_modify (f : World -> World) : settles (modify f).
Proof. intros w. discriminate. Qed.

#[local] Hint Resolve settles_ret settles_throw settles_bind settles_try_catch
  settles_try_finally settles_await settles_yield settles_promise settles_read settles_if
  settles_modify : settles.

Ltac settles_tac :=
  repeat match goal with
    | |- settles (Ret _) => apply settles_ret
    | |- settles (Throw _) => apply settles_throw
    | |- settles (read _) => apply settles_read
    | |- settles (modify _) => apply settles_modify
    | |- settles (promise _) => apply settles_promise
    | |- settles (bind _ _) => apply settles_bind; [| intro]
    | |- settles (try_catch _ _) => apply settles_try_catch; [| intro]
    | |- settles (try_finally _ _) => apply settles_try_finally
    | |- settles (await _) => apply settles_await
    | |- settles (Yield _) => apply settles_yield
    | |- settles (match ?x with _ => _ end) => destruct x
    | |- settles _ => solve [eauto with settles]
    end.

(** A failure caught by a handler that returns a value never reaches the
    caller. *)
Lemma run_caught {A : Type} (m : Async A) (a : A) (w : World) :
  settles m -> exists r, snd (run (try_catch m (fun _ => Ret a)) w) = Fulfilled r.
Proof.
  intros Hm. rewrite run_try_catch. specialize (Hm w).
  destruct (run m w) as [w' [x|e|]]; simpl in *; eauto. congruence.
Qed.

(** ** Runs of the primitive operations *)

Section Primitives.

Context (ext : External).

Lemma run_execAsync (c : Command) (cwd : string) (w : World) :
  run (execAsync ext c cwd) w =
    match exec_step ext c cwd w with
    | (w', inl x) => (w', Fulfilled x)
    | (w', inr e) => (w', Rejected e)
    end.
Proof. apply run_promise. Qed.

Lemma exec_shell (line cwd : string) (w : World) :
  exec_step ext (Shell line) cwd w =
    (record (Ran (Shell line) cwd) w,
     match shell (env w) line cwd with
     | ExecOk out err => inl (out, err)
     | ExecErr e => inr e
     end).
Proof. unfold exec_step. cbn. now destruct (shell _ _ _). Qed.

Lemma run_shell_ok (line cwd out err : string) (w : World) :
  shell (env w) line cwd = ExecOk out err ->
  run (execAsync ext (Shell line) cwd) w =
    (record (Ran (Shell line) cwd) w, Fulfilled (out, err)).
Proof. intros H. now rewrite run_execAsync, exec_shell, H. Qed.

Lemma run_shell_err (line cwd : string) (e : JsError) (w : World) :
  shell (env w) line cwd = ExecErr e ->
  run (execAsync ext (Shell line) cwd) w =
    (record (Ran (Shell line) cwd) w, Rejected e).
Proof. intros H. now rewrite run_execAsync, exec_shell, H. Qed.

Lemma run_fs_access (path : string) (w : World) :
  run (fs_access path) w =
    (w, if decide (path ∈ dirs w) then Fulfilled tt else Rejected (ENOENT "access")).
Proof. unfold fs_access. rewrite run_promise. now destruct (decide _). Qed.

Lemma run_loadFeature (p f : string) (w : World) :
  run (loadFeature p f) w = (w, Fulfilled (featureFiles w !! (p, f))).
Proof.
  unfold loadFeature, fs_readFeature. run_simpl. rewrite run_promise.
  destruct (featureFiles w !! (p, f)); reflexivity.
Qed.

Lemma run_contextExists (p f : string) (w : World) :
  run (contextExists p f) w =
    (w, Fulfilled (bool_decide (is_Some (contextFiles w !! (p, f))))).
Proof.
  unfold contextExists, fs_access_context. run_simpl. rewrite run_promise.
  destruct (contextFiles w !! (p, f)) eqn:E; run_simpl.
  - rewrite bool_decide_eq_true_2; eauto.
  - rewrite bool_decide_eq_false_2; [reflexivity |]. now intros [x Hx].
Qed.

Lemma run_updateFeatureStatus (p f status : string) (w : World) :
  run (updateFeatureStatus p f status) w = (status_written p f status w, Fulfilled tt).
Proof.
  unfold updateFeatureStatus, status_written, fs_readFeature, fs_writeFeature. run_simpl.
  rewrite run_promise.
  destruct (featureFiles w !! (p, f)); run_simpl; [| reflexivity].
  rewrite run_promise. destruct (feature_write_ok _ _ _ _); reflexivity.
Qed.

Lemma settles_execAsync (c : Command) (cwd : string) : settles (execAsync ext c cwd).
Proof. apply settles_promise. Qed.

Lemma settles_loadFeature (p f : string) : settles (loadFeature p f).
Proof. intros w. rewrite run_loadFeature. discriminate. Qed.

Lemma settles_updateFeatureStatus (p f s : string) : settles (updateFeatureStatus p f s).
Proof. intros w. rewrite run_updateFeatureStatus. discriminate. Qed.

Lemma settles_emit (e : AutoModeEvent) : settles (emitAutoModeEvent e).
Proof. apply settles_modify. Qed.

Lemma settles_fs_access (path : string) : settles (fs_access path).
Proof. apply settles_promise. Qed.

Lemma settles_fs_mkdir (path : string) : settles (fs_mkdir path).
Proof. apply settles_promise. Qed.

Lemma settles_fs_writeFile (path c : string) : settles (fs_writeFile path c).
Proof. apply settles_promise. Qed.

Lemma settles_fs_writeFile_context (p f c : string) : settles (fs_writeFile_context p f c).
Proof. apply settles_promise. Qed.

Lemma settles_fs_readFile_context (p f : string) : settles (fs_readFile_context p f).
Proof. apply settles_promise. Qed.

Lemma settles_fs_access_context (p f : string) : settles (fs_access_context p f).
Proof. apply settles_promise. Qed.

Lemma settles_fs_writeFeature (p f : string) (x : Feature) : settles (fs_writeFeature p f x).
Proof. apply settles_promise. Qed.

Lemma settles_fs_copyFile (a b : string) : settles (fs_copyFile a b).
Proof. apply settles_promise. Qed.

Lemma settles_update_run (rid : nat) (f : AgentRun -> AgentRun) : settles (update_run rid f).
Proof. apply settles_modify. Qed.

End Primitives.

#[local] Hint Resolve settles_execAsync settles_loadFeature settles_updateFeatureStatus
  settles_emit settles_fs_access settles_fs_mkdir settles_fs_writeFile
  settles_fs_writeFile_context settles_fs_readFile_context settles_fs_access_context
  settles_fs_writeFeature settles_fs_copyFile settles_update_run : settles.
#[local] Hint Rewrite run_fs_access run_loadFeature run_contextExists
  run_updateFeatureStatus : run.

(** ** Verification *)

Section Verification.

Context (ext : External).

Lemma run_verify_dir (p f : string) (w : World) :
  let worktreePath := path_join ext (path_join ext p ".worktrees") f in
  run (try_catch (await (fs_access worktreePath) ;; Ret worktreePath) (fun _ => Ret p)) w
  = (w, Fulfilled (verify_dir ext w p f)).
Proof.
  cbv zeta. unfold verify_dir. run_simpl.
  destruct (decide _); run_simpl; reflexivity.
Qed.

(** A check that passes is recorded and the loop goes on. *)
Lemma run_checks_pass (dir cmd name out err : string) (rest : list (string * string))
    (results : list CheckResult) (w : World) :
  shell (env w) cmd dir = ExecOk out err ->
  run (run_checks ext dir ((cmd, name) :: rest) results) w =
    run (run_checks ext dir rest
           (results ++ [mkCheck name true (if JS.truthy out then out else err)]))
        (record (Ran (Shell cmd) dir) w).
Proof.
  intros H. cbn [run_checks]. run_simpl.
  rewrite (run_shell_ok ext _ _ _ _ _ H). run_simpl. reflexivity.
Qed.

(** A check that fails ends the loop: no later command is run. *)
Lemma run_checks_stop (dir cmd name : string) (e : JsError) (rest : list (string * string))
    (results : list CheckResult) (w : World) :
  shell (env w) cmd dir = ExecErr e ->
  run (run_checks ext dir ((cmd, name) :: rest) results) w =
    (record (Ran (Shell cmd) dir) w,
     Fulfilled (false, (results ++ [mkCheck name false (err_message e)])%list)).
Proof.
  intros H. cbn [run_checks]. run_simpl.
  rewrite (run_shell_err ext _ _ _ _ H). run_simpl. reflexivity.
Qed.

(** C6. When lint passes and the type check fails, [verifyFeature]
    returns [false], the completion event carries
    ["Verification failed: Type check"], and the commands that were run are
    lint and the type check only: the log is extended by these two runs and
    the event, and nothing else of the state changes. *)
Theorem verify_fail_fast (w : World) (p f out err : string) (e : JsError) :
  shell (env w) "npm run lint" (verify_dir ext w p f) = ExecOk out err ->
  shell (env w) "npm run typecheck" (verify_dir ext w p f) = ExecErr e ->
  run (verifyFeature ext p f) w =
    (record
       (Emitted (auto_mode_feature_complete f false "Verification failed: Type check" None))
       (record (Ran (Shell "npm run typecheck") (verify_dir ext w p f))
          (record (Ran (Shell "npm run lint") (verify_dir ext w p f)) w)),
     Fulfilled false).
Proof.
  intros Hlint Htype. unfold verifyFeature.
  rewrite run_bind, run_verify_dir. cbn beta iota zeta.
  unfold verificationChecks.
  rewrite run_bind, (run_checks_pass _ _ _ _ _ _ _ _ Hlint).
  rewrite (run_checks_stop _ _ _ e); [| exact Htype].
  run_simpl. reflexivity.
Qed.

End Verification.

Lemma verify_fail_fast_witness :
  let w := Demo.world (Demo.environment Demo.typecheck_fails []) (Demo.feature "in_progress" None) in
  snd (run (verifyFeature Demo.ext "/proj" "f1") w) = Fulfilled false
  /\ log (fst (run (verifyFeature Demo.ext "/proj" "f1") w)) =
       [ Ran (Shell "npm run lint") "/proj";
         Ran (Shell "npm run typecheck") "/proj";
         Emitted (auto_mode_feature_complete "f1" false "Verification failed: Type check" None) ].
Proof.
  cbv zeta.
  rewrite (verify_fail_fast Demo.ext _ "/proj" "f1" "ok" EmptyString
             (Error "Command failed: npm run typecheck"));
    [split; reflexivity | reflexivity | reflexivity].
Defined.

(** ** Commit *)

Section Commit.

Context (ext : External).

Lemma run_commit_dir (p f : string) (provided : option string) (w : World) :
  run (match or_null provided with
       | Some d => try_catch (await (fs_access d) ;; Ret d) (fun _ => Ret p)
       | None =>
           let legacy := path_join ext (path_join ext p ".worktrees") f in
           try_catch (await (fs_access legacy) ;; Ret legacy) (fun _ => Ret p)
       end) w
  = (w, Fulfilled (commit_dir ext w p f provided)).
Proof.
  unfold commit_dir. destruct (or_null provided) as [d|].
  - run_simpl. destruct (decide _); run_simpl; reflexivity.
  - apply run_verify_dir.
Qed.

(** C5, as the code has it. The promise of [commitFeature] is always
    fulfilled, never rejected; and when the work tree has changes, staging
    succeeds and [git commit] fails, it is fulfilled with [null], the value
    it also has when there is nothing to commit. *)
Theorem commit_failure_returns_null (w : World) (p f : string) (provided : option string) :
  (exists r, snd (run (commitFeature ext p f provided) w) = Fulfilled r)
  /\
  (forall (out err out' err' : string) (e : JsError),
     let dir := commit_dir ext w p f provided in
     shell (env w) "git status --porcelain" dir = ExecOk out err ->
     JS.is_empty (JS.trim out) = false ->
     shell (env w) "git add -A" dir = ExecOk out' err' ->
     shell (env w)
       (command_line (git_commit_command (commit_message (featureFiles w !! (p, f)) f)))
       dir = ExecErr e ->
     snd (run (commitFeature ext p f provided) w) = Fulfilled None).
Proof.
  split.
  - unfold commitFeature. rewrite run_bind, run_commit_dir. cbn beta iota zeta.
    apply run_caught. settles_tac.
  - intros out err out' err' e dir Hstatus Hchanged Hadd Hcommit.
    unfold commitFeature. rewrite run_bind, run_commit_dir. cbn beta iota zeta.
    fold dir. run_simpl.
    rewrite (run_shell_ok ext _ _ _ _ _ Hstatus). run_simpl.
    cbn [fst]. rewrite Hchanged. run_simpl. cbn [featureFiles record].
    rewrite (run_shell_ok ext _ _ out' err'); [| exact Hadd]. run_simpl.
    unfold git_commit_command in *. cbn [command_line] in Hcommit.
    rewrite (run_shell_err ext _ _ e); [| exact Hcommit]. run_simpl.
    reflexivity.
Qed.

End Commit.

Lemma commit_failure_returns_null_witness :
  let w := Demo.world (Demo.environment Demo.commit_fails []) (Demo.feature "waiting_approval" None) in
  snd (run (commitFeature Demo.ext "/proj" "f1" None) w) = Fulfilled None.
Proof.
  cbv zeta.
  apply (proj2 (commit_failure_returns_null Demo.ext _ "/proj" "f1" None)
           (" M src/login.ts" +:+ lf) EmptyString EmptyString EmptyString
           (Error "Command failed: git commit"));
    reflexivity.
Defined.

(** C5 as stated fails: here the work tree has changes, [git commit] is run
    and fails, and the caller gets an ordinary return value. *)
Lemma commit_failure_swallowed :
  let w := Demo.world (Demo.environment Demo.commit_fails []) (Demo.feature "waiting_approval" None) in
  let commit :=
    "git commit -m " +:+ dq +:+ "feat: Add login page" +:+ lf +:+ lf +:+
    "Implemented by Automaker auto-mode" +:+ dq in
  shell (env w) commit "/proj" = ExecErr (Error "Command failed: git commit")
  /\ Ran (Shell commit) "/proj" ∈ log (fst (run (commitFeature Demo.ext "/proj" "f1" None) w))
  /\ snd (run (commitFeature Demo.ext "/proj" "f1" None) w) = Fulfilled None
  /\ ~ exists e, snd (run (commitFeature Demo.ext "/proj" "f1" None) w) = Rejected e.
Proof.
  cbv zeta. split; [reflexivity |]. split.
  - vm_compute. apply list_elem_of_In. right. right. left. reflexivity.
  - split; [reflexivity |]. intros [e He]. vm_compute in He. discriminate He.
Qed.

(** ** Stopping a feature *)

Example stop_unknown (w : World) (f : string) :
  runningFeatures w !! f = None -> run (stopFeature f) w = (w, Fulfilled false).
Proof. intros H. unfold stopFeature. run_simpl. rewrite H. reflexivity. Qed.

(** C10. [stopFeature] on a running feature returns [true] within one
    turn of the event loop, marks the stored abort controller as aborted and
    leaves the registry as it was: the entry is still there, and
    [getStatus] still lists the feature. *)
Theorem stop_keeps_entry (w : World) (f : string) (r : RunningFeature) :
  runningFeatures w !! f = Some r ->
  let w' := with_aborted (fun a => {[rf_abortController r]} ∪ a) w in
  run (stopFeature f) w = (w', Fulfilled true)
  /\ turn (stopFeature f) w = (w', Ret true)
  /\ runningFeatures w' = runningFeatures w
  /\ rf_abortController r ∈ aborted w'
  /\ f ∈ st_runningFeatures (getStatus w')
  /\ st_isRunning (getStatus w') = true.
Proof.
  intros H w'. split; [| split; [| split; [| split; [| split]]]].
  - unfold stopFeature. run_simpl. rewrite H. reflexivity.
  - unfold stopFeature. cbn. rewrite H. reflexivity.
  - reflexivity.
  - cbn. set_solver.
  - cbn. exact (MapFacts.lookup_key f r _ H).
  - cbn. pose proof (MapFacts.lookup_key f r _ H) as Hin.
    unfold Map_size, Map_keys in *.
    destruct (entries (runningFeatures w)); [now apply elem_of_nil in Hin | reflexivity].
Qed.

(** ** Frames *)

Lemma stable_refl (w : World) : stable w w.
Proof. repeat split. Qed.

Lemma stable_trans (w1 w2 w3 : World) : stable w1 w2 -> stable w2 w3 -> stable w1 w3.
Proof.
  intros (a1 & b1 & c1 & d1 & e1 & f1) (a2 & b2 & c2 & d2 & e2 & f2).
  repeat split; congruence.
Qed.

Lemma grows_refl (w : World) : grows w w.
Proof. exists []. now rewrite app_nil_r. Qed.

Lemma grows_trans (w1 w2 w3 : World) : grows w1 w2 -> grows w2 w3 -> grows w1 w3.
Proof.
  intros [l1 H1] [l2 H2]. exists (l1 ++ l2)%list. now rewrite H2, H1, app_assoc.
Qed.

Lemma silent_refl (w : World) : silent w w.
Proof. exists []. split; [now rewrite app_nil_r | constructor]. Qed.

Lemma silent_trans (w1 w2 w3 : World) : silent w1 w2 -> silent w2 w3 -> silent w1 w3.
Proof.
  intros (l1 & H1 & F1) (l2 & H2 & F2). exists (l1 ++ l2)%list. split.
  - now rewrite H2, H1, app_assoc.
  - apply Forall_app. now split.
Qed.

Lemma silent_same_log (w w' : World) : log w' = log w -> silent w w'.
Proof. intros H. exists []. split; [now rewrite app_nil_r | constructor]. Qed.

Lemma grows_same_log (w w' : World) : log w' = log w -> grows w w'.
Proof. intros H. exists []. now rewrite app_nil_r. Qed.

Lemma silent_grows (w w' : World) : silent w w' -> grows w w'.
Proof. intros (l & H & _). now exists l. Qed.

#[local] Instance framed_preorder : PreOrder framed.
Proof.
  split.
  - intros w. split; [apply stable_refl | apply grows_refl].
  - intros w1 w2 w3 [s1 g1] [s2 g2].
    split; [eapply stable_trans | eapply grows_trans]; eassumption.
Qed.

#[local] Instance quiet_preorder : PreOrder quiet.
Proof.
  split.
  - intros w. split; [apply stable_refl | split; [apply silent_refl | now split]].
  - intros w1 w2 w3 (s1 & g1 & c1 & a1) (s2 & g2 & c2 & a2).
    split; [eapply stable_trans; eassumption |].
    split; [eapply silent_trans; eassumption |].
    split; congruence.
Qed.

Lemma quiet_framed (w w' : World) : quiet w w' -> framed w w'.
Proof. intros (s & g & _). split; [exact s | now apply silent_grows]. Qed.

Section Preserves.

Context {A B : Type} (R : World -> World -> Prop) `{!PreOrder R}.

Lemma preserves_ret (a : A) : preserves R (Ret a).
Proof. intros w. reflexivity. Qed.

Lemma preserves_throw (e : JsError) : preserves R (@Throw A e).
Proof. intros w. reflexivity. Qed.

Lemma preserves_diverge : preserves R (@Diverge A).
Proof. intros w. reflexivity. Qed.

Lemma preserves_read (g : World -> A) : preserves R (read g).
Proof. intros w. reflexivity. Qed.

Lemma preserves_bind (m : Async A) (g : A -> Async B) :
  preserves R m -> (forall a, preserves R (g a)) -> preserves R (bind m g).
Proof.
  intros Hm Hg w. rewrite run_bind. specialize (Hm w).
  destruct (run m w) as [w' [a|e|]]; cbn [fst] in *; [| exact Hm | exact Hm].
  etransitivity; [exact Hm | apply Hg].
Qed.

Lemma preserves_try_catch (m : Async A) (h : JsError -> Async A) :
  preserves R m -> (forall e, preserves R (h e)) -> preserves R (try_catch m h).
Proof.
  intros Hm Hh w. rewrite run_try_catch. specialize (Hm w).
  destruct (run m w) as [w' [a|e|]]; cbn [fst] in *; [exact Hm | | exact Hm].
  etransitivity; [exact Hm | apply Hh].
Qed.

Lemma preserves_try_finally (m : Async A) (fin : World -> World) :
  preserves R m -> (forall w, R w (fin w)) -> preserves R (try_finally m fin).
Proof.
  intros Hm Hf w. rewrite run_try_finally. specialize (Hm w).
  destruct (run m w) as [w' [a|e|]]; cbn [fst] in *; [| | exact Hm];
    (etransitivity; [exact Hm | apply Hf]).
Qed.

Lemma preserves_await (m : Async A) : preserves R m -> preserves R (await m).
Proof. intros Hm w. rewrite run_await. apply Hm. Qed.

Lemma preserves_yield (m : Async A) : preserves R m -> preserves R (Yield m).
Proof. intros Hm w. apply Hm. Qed.

Lemma preserves_promise (op : World -> World * (A + JsError)) :
  (forall w, R w (fst (op w))) -> preserves R (promise op).
Proof.
  intros H w. rewrite run_promise. specialize (H w).
  destruct (op w) as [w' [x|e]]; exact H.
Qed.

End Preserves.

Lemma preserves_modify (R : World -> World -> Prop) (f : World -> World) :
  (forall w, R w (f w)) -> preserves R (modify f).
Proof. intros H w. apply H. Qed.

Lemma preserves_weaken {A : Type} (R S : World -> World -> Prop) (m : Async A) :
  (forall w w', R w w' -> S w w') -> preserves R m -> preserves S m.
Proof. intros H Hm w. apply H, Hm. Qed.

(** Taking a computation apart down to its primitive operations. *)
Ltac frame_tac :=
  repeat match goal with
    | |- PreOrder _ => typeclasses eauto
    | |- preserves _ (Ret _) => apply preserves_ret
    | |- preserves _ (Throw _) => apply preserves_throw
    | |- preserves _ Diverge => apply preserves_diverge
    | |- preserves _ (read _) => apply preserves_read
    | |- preserves _ (bind _ _) =>
        (apply preserves_bind; try typeclasses eauto); [| intro]
    | |- preserves _ (try_catch _ _) =>
        (apply preserves_try_catch; try typeclasses eauto); [| intro]
    | |- preserves _ (await _) => apply preserves_await
    | |- preserves _ (Yield _) => apply preserves_yield
    | |- preserves _ (match ?x with _ => _ end) => destruct x
    | |- preserves _ _ => solve [eauto with frame typeclass_instances]
    end.

Lemma stable_record (e : Effect) (w : World) : stable w (record e w).
Proof. repeat split. Qed.

Lemma grows_record (e : Effect) (w : World) : grows w (record e w).
Proof. now exists [e]. Qed.

Lemma framed_record (e : Effect) (w : World) : framed w (record e w).
Proof. split; [apply stable_record | apply grows_record]. Qed.

Lemma quiet_record (e : Effect) (w : World) : is_process_effect e -> quiet w (record e w).
Proof.
  intros H. split; [apply stable_record |]. split; [| now split].
  exists [e]. split; [reflexivity | now constructor].
Qed.

Section PrimitiveFrames.

Context (ext : External).

Lemma quiet_execAsync (c : Command) (cwd : string) : preserves quiet (execAsync ext c cwd).
Proof.
  apply preserves_promise. intros w.
  assert (Hran : quiet w (record (Ran c cwd) w)) by now apply quiet_record.
  unfold exec_step. destruct c; cbn [env record fst].
  - destruct (shell _ _ _); exact Hran.
  - destruct (wt_list_ok _); exact Hran.
  - destruct (shell _ _ _); exact Hran.
  - destruct (wt_add_ok _ _ _); [| exact Hran].
    split; [repeat split |]. split; [| now split].
    exists [Ran (GitWorktreeAdd path branch) cwd; WorktreeCreated path branch].
    split; [cbn; now rewrite <- app_assoc | repeat constructor].
Qed.

Lemma quiet_fs_access (path : string) : preserves quiet (fs_access path).
Proof. apply preserves_promise. intros w. reflexivity. Qed.

Lemma quiet_fs_mkdir (path : string) : preserves quiet (fs_mkdir path).
Proof.
  apply preserves_promise. intros w. cbn beta.
  destruct (mkdir_ok (env w) path); cbn [fst]; [| reflexivity].
  split; [repeat split |]. split; [now apply silent_same_log | now split].
Qed.

Lemma framed_emit (e : AutoModeEvent) : preserves framed (emitAutoModeEvent e).
Proof. apply preserves_modify. intros w. apply framed_record. Qed.

Lemma framed_update_run (rid : nat) (f : AgentRun -> AgentRun) :
  preserves framed (update_run rid f).
Proof. apply preserves_modify. intros w. split; [repeat split | now apply grows_same_log]. Qed.

Lemma framed_fs_writeFile_context (p f c : string) :
  preserves framed (fs_writeFile_context p f c).
Proof.
  apply preserves_promise. intros w. cbn beta.
  destruct (transcript_write_ok (env w) p f); cbn [fst]; [| reflexivity].
  split; [repeat split | now exists [TranscriptWritten p f c]].
Qed.

Lemma framed_fs_writeFile (path c : string) : preserves framed (fs_writeFile path c).
Proof.
  apply preserves_promise. intros w. cbn beta.
  destruct (file_write_ok (env w) path); cbn [fst]; [| reflexivity]. apply framed_record.
Qed.

End PrimitiveFrames.

#[local] Hint Resolve quiet_execAsync quiet_fs_access quiet_fs_mkdir framed_emit
  framed_update_run framed_fs_writeFile_context framed_fs_writeFile : frame.
#[local] Hint Extern 5 (preserves framed _) =>
  (eapply preserves_weaken; [exact quiet_framed |]) : frame.

(** ** Work trees: frames and outcomes *)

Section WorktreeFrames.

Context (ext : External).

Lemma quiet_findExisting (p b : string) :
  preserves quiet (findExistingWorktreeForBranch ext p b).
Proof. unfold findExistingWorktreeForBranch. frame_tac. Qed.

Lemma settles_findExisting (p b : string) : settles (findExistingWorktreeForBranch ext p b).
Proof. unfold findExistingWorktreeForBranch. settles_tac. Qed.

Lemma quiet_setupWorktree (p f b : string) : preserves quiet (setupWorktree ext p f b).
Proof. pose proof quiet_findExisting. unfold setupWorktree. frame_tac. Qed.

Lemma settles_setupWorktree (p f b : string) : settles (setupWorktree ext p f b).
Proof. pose proof settles_findExisting. unfold setupWorktree. settles_tac. Qed.

Lemma quiet_deriveWorktree (p f : string) (u : bool) (b : option string) :
  preserves quiet (deriveWorktree ext p f u b).
Proof.
  pose proof quiet_findExisting. pose proof quiet_setupWorktree.
  unfold deriveWorktree. frame_tac.
Qed.

Lemma settles_deriveWorktree (p f : string) (u : bool) (b : option string) :
  settles (deriveWorktree ext p f u b).
Proof.
  pose proof settles_findExisting. pose proof settles_setupWorktree.
  unfold deriveWorktree. settles_tac.
Qed.

(** The search for a work tree never fails: an error is turned into
    "none". *)
Lemma findExisting_fulfils (p b : string) (w : World) :
  exists r, snd (run (findExistingWorktreeForBranch ext p b) w) = Fulfilled r.
Proof.
  unfold findExistingWorktreeForBranch. apply run_caught. settles_tac.
Qed.

End WorktreeFrames.

#[local] Hint Resolve quiet_findExisting quiet_setupWorktree quiet_deriveWorktree : frame.
#[local] Hint Resolve settles_findExisting settles_setupWorktree settles_deriveWorktree
  : settles.

(** ** The agent loops *)

Section AgentLoops.

Context (ext : External).

Lemma framed_consume_blocks (rid : nat) (f : string) (blocks : list ContentBlock) :
  preserves framed (consume_blocks ext rid f blocks).
Proof.
  induction blocks as [|b rest IH]; cbn [consume_blocks]; [frame_tac |].
  destruct b; unfold scheduleWrite; frame_tac.
Qed.

Lemma settles_consume_blocks (rid : nat) (f : string) (blocks : list ContentBlock) :
  settles (consume_blocks ext rid f blocks).
Proof.
  induction blocks as [|b rest IH]; cbn [consume_blocks]; [settles_tac |].
  destruct b; unfold scheduleWrite; settles_tac.
Qed.

Lemma framed_consume_stream (rid : nat) (f : string) (items : list StreamItem) :
  preserves framed (consume_stream ext rid f items).
Proof.
  pose proof framed_consume_blocks.
  induction items as [|i rest IH]; cbn [consume_stream]; unfold scheduleWrite; frame_tac.
Qed.

Lemma settles_consume_stream (rid : nat) (f : string) (items : list StreamItem) :
  settles (consume_stream ext rid f items).
Proof.
  pose proof settles_consume_blocks.
  induction items as [|i rest IH]; cbn [consume_stream]; unfold scheduleWrite; settles_tac.
Qed.

(** What an update of the shared variables does to the state. *)
Lemma run_update_run (rid : nat) (g : AgentRun -> AgentRun) (w : World) :
  run (update_run rid g) w = (with_agentRuns (alter g rid) w, Fulfilled tt).
Proof. reflexivity. Qed.

Lemma consuming_update (rid : nat) (p f r : string) (ctx : option string)
    (g : string -> string) (w : World) :
  consuming rid p f r ctx w ->
  consuming rid p f (g r) ctx (with_agentRuns (alter (set_responseText g) rid) w).
Proof.
  intros (Ha & Hc & t & Hr). split; [exact Ha |]. split; [exact Hc |].
  exists t. cbn. now rewrite lookup_alter_eq, Hr.
Qed.

Lemma consuming_schedule (rid : nat) (p f r : string) (ctx : option string) (w : World) :
  consuming rid p f r ctx w ->
  consuming rid p f r ctx (with_agentRuns (alter (set_writeTimeout Pending) rid) w).
Proof.
  intros (Ha & Hc & t & Hr). split; [exact Ha |]. split; [exact Hc |].
  exists Pending. cbn. now rewrite lookup_alter_eq, Hr.
Qed.

Lemma consuming_record (rid : nat) (p f r : string) (ctx : option string) (e : Effect)
    (w : World) :
  consuming rid p f r ctx w -> consuming rid p f r ctx (record e w).
Proof. intros H. exact H. Qed.

(** The inner loop ends as [blocks_result] says, with [responseText] as
    [blocks_text] says, and writes nothing to the transcript. *)
Lemma consume_blocks_spec (rid : nat) (p f : string) (ctx : option string)
    (blocks : list ContentBlock) :
  forall (r : string) (w : World),
    consuming rid p f r ctx w ->
    exists w',
      run (consume_blocks ext rid f blocks) w = (w', outcome_of (blocks_result blocks))
      /\ consuming rid p f (blocks_text ext blocks r) ctx w'.
Proof.
  induction blocks as [|b rest IH]; intros r w Hw.
  - exists w. split; [reflexivity | exact Hw].
  - destruct b as [text|name input|]; cbn [consume_blocks blocks_result blocks_text].
    + rewrite run_bind, run_update_run. cbn beta iota.
      apply (consuming_update _ _ _ _ _ (append_text text)) in Hw.
      destruct (auth_signal text).
      * eexists. split; [reflexivity | exact Hw].
      * unfold scheduleWrite. rewrite run_bind, run_update_run. cbn beta iota.
        apply consuming_schedule in Hw.
        unfold emitAutoModeEvent. rewrite run_bind, run_modify. cbn beta iota.
        apply IH. now apply consuming_record.
    + unfold emitAutoModeEvent, scheduleWrite.
      rewrite run_bind, run_modify. cbn beta iota.
      rewrite run_bind, run_update_run. cbn beta iota.
      rewrite run_bind, run_update_run. cbn beta iota.
      apply IH. apply consuming_schedule.
      apply (consuming_update _ _ _ _ _ (append_tool ext name input)).
      now apply consuming_record.
    + now apply IH.
Qed.

(** The outer loop likewise, as long as no stop is requested. *)
Lemma consume_stream_spec (rid : nat) (p f : string) (ctx : option string)
    (items : list StreamItem) :
  forall (r : string) (w : World),
    consuming rid p f r ctx w ->
    exists w',
      run (consume_stream ext rid f items) w = (w', outcome_of (stream_result items))
      /\ consuming rid p f (stream_text ext items r) ctx w'.
Proof.
  induction items as [|i rest IH]; intros r w Hw;
    cbn [consume_stream stream_result stream_text];
    rewrite run_yield, run_bind, run_read; cbn beta iota;
    (rewrite bool_decide_eq_false_2; [| apply Hw]).
  - exists w. split; [reflexivity | exact Hw].
  - destruct i as [msg|e]; [| exists w; split; [reflexivity | exact Hw]].
    rewrite run_bind.
    destruct msg as [[content|]|error|subtype result|]; cbn [message_result].
    + destruct (consume_blocks_spec rid p f ctx content r w Hw) as (w1 & Hrun & Hw1).
      rewrite Hrun. destruct (blocks_result content) as [e|]; cbn [outcome_of].
      * exists w1. split; [reflexivity | exact Hw1].
      * now apply IH.
    + rewrite run_ret. now apply IH.
    + rewrite run_throw. exists w. split; [reflexivity | exact Hw].
    + destruct (String.eqb subtype "success").
      * unfold scheduleWrite. rewrite run_update_run. apply IH.
        now apply consuming_schedule.
      * rewrite run_ret. now apply IH.
    + rewrite run_ret. now apply IH.
Qed.

End AgentLoops.

#[local] Hint Resolve framed_consume_stream framed_consume_blocks : frame.
#[local] Hint Resolve settles_consume_stream settles_consume_blocks : settles.

(** ** Running the agent *)

Section AgentRuns.

Context (ext : External).

Lemma framed_writeToFile (rid : nat) (p f : string) :
  preserves framed (writeToFile ext rid p f).
Proof. unfold writeToFile. frame_tac. Qed.

Lemma settles_writeToFile (rid : nat) (p f : string) : settles (writeToFile ext rid p f).
Proof. unfold writeToFile. settles_tac. Qed.

Lemma framed_runAgent (workDir f prompt : string) (rid : nat) (p : string)
    (imgs : option (list string)) (model prev : option string) :
  preserves framed (runAgent ext workDir f prompt rid p imgs model prev).
Proof.
  pose proof framed_writeToFile.
  unfold runAgent, sleep, clearWriteTimeout. frame_tac.
  apply preserves_modify. intros w. split; [repeat split | now apply grows_same_log].
Qed.

Lemma settles_runAgent (workDir f prompt : string) (rid : nat) (p : string)
    (imgs : option (list string)) (model prev : option string) :
  settles (runAgent ext workDir f prompt rid p imgs model prev).
Proof.
  pose proof settles_writeToFile.
  unfold runAgent, sleep, clearWriteTimeout. settles_tac.
Qed.

(** The final write: the transcript receives [responseText] when the
    directory can be made and the file can be written; a failure is
    swallowed. *)
Lemma run_writeToFile (rid : nat) (p f r : string) (ctx : option string) (w : World) :
  consuming rid p f r ctx w ->
  exists w',
    run (writeToFile ext rid p f) w = (w', Fulfilled tt)
    /\ contextFiles w' !! (p, f) =
         (if mkdir_ok (env w) (getFeatureDir ext p f) && transcript_write_ok (env w) p f
          then Some r else ctx)
    /\ current_responseText rid w' = r.
Proof.
  intros (Ha & Hc & t & Hr).
  assert (Hcur : current_responseText rid w = r).
  { unfold current_responseText. now rewrite Hr. }
  unfold writeToFile, fs_mkdir, fs_writeFile_context.
  rewrite run_try_catch, run_bind, run_await, run_promise.
  destruct (mkdir_ok (env w) (getFeatureDir ext p f)); cbn [andb];
    [| exists w; split; [reflexivity | split; [exact Hc | exact Hcur]]].
  rewrite run_bind, run_read. cbn beta iota.
  rewrite run_await, run_promise. cbn [env with_dirs].
  change (current_responseText rid (with_dirs _ w)) with (current_responseText rid w).
  rewrite Hcur.
  destruct (transcript_write_ok (env w) p f).
  - eexists. split; [reflexivity |]. split; [| exact Hcur].
    cbn. apply lookup_insert_eq.
  - eexists. split; [reflexivity |]. split; [exact Hc | exact Hcur].
Qed.

(** [runAgent] against a real provider, with no stop requested while it
    runs: it ends as the stream ends; when the stream completes the
    transcript receives the accumulated text, and when the stream fails
    the transcript is left as it was. *)
Lemma runAgent_spec (workDir f prompt : string) (rid : nat) (p : string)
    (imgs : option (list string)) (model prev : option string) (w : World) :
  mockAgent (env w) = false ->
  rid ∉ aborted w ->
  let script := provider (env w) (agent_options ext workDir prompt rid imgs model) in
  let text := stream_text ext script (initial_responseText prev) in
  exists w',
    run (runAgent ext workDir f prompt rid p imgs model prev) w
      = (w', outcome_of (stream_result script))
    /\ current_responseText rid w' = text
    /\ contextFiles w' !! (p, f) =
         match stream_result script with
         | None =>
             if mkdir_ok (env w) (getFeatureDir ext p f) && transcript_write_ok (env w) p f
             then Some text else contextFiles w !! (p, f)
         | Some _ => contextFiles w !! (p, f)
         end.
Proof.
  intros Hmock Hab script text. unfold runAgent.
  rewrite run_bind, run_read. cbn beta iota. rewrite Hmock.
  rewrite run_bind, run_await, run_ret. cbn beta iota.
  rewrite run_bind, run_read. cbn beta iota.
  fold (agent_options ext workDir prompt rid imgs model). fold script.
  rewrite run_bind, run_modify. cbn beta iota.
  set (w1 := with_agentRuns _ w).
  assert (Hw1 : consuming rid p f (initial_responseText prev) (contextFiles w !! (p, f)) w1).
  { split; [exact Hab |]. split; [reflexivity |].
    exists NoTimer. subst w1. cbn. apply lookup_insert_eq. }
  destruct (consume_stream_spec ext rid p f _ script _ w1 Hw1) as (w2 & Hrun & Hw2).
  fold text in Hw2. rewrite run_bind, Hrun.
  pose proof (framed_consume_stream ext rid f script w1) as [Hst _].
  rewrite Hrun in Hst. cbn [fst] in Hst.
  destruct (stream_result script) as [e|]; cbn [outcome_of].
  - exists w2. split; [reflexivity |].
    destruct Hw2 as (_ & Hc & t & Hr).
    split; [| exact Hc]. unfold current_responseText. now rewrite Hr.
  - unfold clearWriteTimeout. rewrite run_bind, run_update_run. cbn beta iota.
    set (w3 := with_agentRuns _ w2).
    assert (Hw3 : consuming rid p f text (contextFiles w !! (p, f)) w3).
    { destruct Hw2 as (Ha & Hc & t & Hr). split; [exact Ha |]. split; [exact Hc |].
      subst w3. cbn. rewrite lookup_alter_eq, Hr. cbn.
      destruct t; eexists; reflexivity. }
    rewrite run_await.
    destruct (run_writeToFile rid p f text _ w3 Hw3) as (w4 & Hrun4 & Hc4 & Hr4).
    exists w4. split; [exact Hrun4 |]. split; [exact Hr4 |].
    rewrite Hc4.
    assert (Henv : env w3 = env w).
    { subst w3. cbn. destruct Hst as (_ & _ & _ & _ & _ & He). exact He. }
    now rewrite Henv.
Qed.

End AgentRuns.

#[local] Hint Resolve framed_runAgent framed_writeToFile : frame.
#[local] Hint Resolve settles_runAgent settles_writeToFile : settles.

(** ** Guarded runs *)

Section GuardedRuns.

Context (ext : External).

Lemma executeFeature_fresh_guarded (p f : string) (u a : bool) :
  executeFeature_fresh ext p f u a =
    (let* ac := newAbortController in
     emitAutoModeEvent
       (auto_mode_feature_start f p (StartStub f "Loading..." "Feature is starting")) ;;
     guarded_run ext p f u a ac (buildFeaturePrompt ext) None "Feature completed in ").
Proof. reflexivity. Qed.

Lemma run_executeFeature_fresh (p f : string) (u a : bool) (w : World) :
  run (executeFeature_fresh ext p f u a) w =
    run (guarded_run ext p f u a (controllers w) (buildFeaturePrompt ext) None
           "Feature completed in ")
        (started p f "Loading..." "Feature is starting" w).
Proof. reflexivity. Qed.

Lemma run_executeFeatureWithContext (p f context : string) (u : bool) (w : World) :
  runningFeatures w !! f = None ->
  run (executeFeatureWithContext ext p f context u) w =
    run (guarded_run ext p f u false (controllers w)
           (fun feature => continue_prompt ext feature context) (Some context)
           "Feature resumed and completed in ")
        (started p f "Resuming..." "Feature is resuming from previous context" w).
Proof.
  intros H. unfold executeFeatureWithContext.
  rewrite run_bind, run_read. cbn beta iota.
  unfold is_running. rewrite H.
  rewrite bool_decide_eq_false_2; [reflexivity |]. now intros [x Hx].
Qed.

Lemma run_on_run_error (p f : string) (e : JsError) (w : World) :
  run (on_run_error ext p f e) w = (failed ext p f e w, Fulfilled tt).
Proof.
  unfold on_run_error, failed, emitAutoModeEvent. cbv zeta.
  destruct (isAbort (classifyError ext e)); run_simpl; reflexivity.
Qed.

Lemma run_emit_completed (p f label : string) (r : RunningFeature) (w : World) :
  runningFeatures w !! f = Some r ->
  run (emit_completed p f label) w = (completed p f label (rf_startTime r) w, Fulfilled tt).
Proof.
  intros H. unfold emit_completed, emitAutoModeEvent. run_simpl. rewrite H.
  run_simpl. reflexivity.
Qed.

Lemma stable_status_written_registry (p f status : string) (w : World) :
  runningFeatures (status_written p f status w) = runningFeatures w.
Proof.
  unfold status_written.
  destruct (featureFiles w !! (p, f)); [destruct (feature_write_ok _ _ _ _) |];
    reflexivity.
Qed.

Lemma guarded_absent (p f : string) (u auto : bool) (ac : nat)
    (prompt_of : Feature -> string) (prev : option string) (label : string) (w : World) :
  featureFiles w !! (p, f) = None ->
  run (guarded_run ext p f u auto ac prompt_of prev label) w =
    (cleanup f (failed ext p f (not_found f) w), Fulfilled tt).
Proof.
  intros H. unfold guarded_run. run_simpl. rewrite H. run_simpl.
  rewrite run_on_run_error. reflexivity.
Qed.

Lemma guarded_present (p f : string) (u auto : bool) (ac : nat)
    (prompt_of : Feature -> string) (prev : option string) (label : string)
    (F : Feature) (w : World) :
  featureFiles w !! (p, f) = Some F ->
  run (guarded_run ext p f u auto ac prompt_of prev label) w =
    guarded_result ext p f u auto ac prompt_of prev label F w.
Proof.
  intros H. unfold guarded_run, guarded_result. run_simpl. rewrite H. run_simpl.
  destruct (run (deriveWorktree ext p f u (or_null (f_branchName F))) w)
    as [w1 [wt|e|]] eqn:E1; run_simpl.
  - fold (registered p f wt (or_null (f_branchName F)) ac auto w1).
    set (w3 := status_written p f "in_progress" _).
    match goal with
    | |- context [run (runAgent ?x1 ?x2 ?x3 ?x4 ?x5 ?x6 ?x7 ?x8 ?x9) w3] =>
        pose proof (framed_runAgent x1 x2 x3 x4 x5 x6 x7 x8 x9 w3) as [Hst _];
        destruct (run (runAgent x1 x2 x3 x4 x5 x6 x7 x8 x9) w3) as [w4 [[]|e|]] eqn:E4
    end; run_simpl.
    + cbn [fst] in Hst. destruct Hst as (Hreg & _).
      rewrite (run_emit_completed _ _ _
                 (mkRunning f p wt (or_null (f_branchName F)) ac auto (clock w1))).
      * reflexivity.
      * rewrite stable_status_written_registry, Hreg. subst w3.
        rewrite stable_status_written_registry. apply MapFacts.lookup_set_eq.
    + rewrite run_on_run_error. reflexivity.
    + reflexivity.
  - rewrite run_on_run_error. reflexivity.
  - reflexivity.
Qed.

End GuardedRuns.

(** ** Cleanup *)

Section Fulfils.

Context {A B : Type}.

Lemma fulfils_ret (a : A) : fulfils (Ret a).
Proof. intros w. now exists a. Qed.

Lemma fulfils_read (g : World -> A) : fulfils (read g).
Proof. intros w. now exists (g w). Qed.

Lemma fulfils_bind (m : Async A) (g : A -> Async B) :
  fulfils m -> (forall a, fulfils (g a)) -> fulfils (bind m g).
Proof.
  intros Hm Hg w. rewrite run_bind. destruct (Hm w) as [a Ha].
  destruct (run m w) as [w' o]. cbn [snd] in Ha. subst o. apply Hg.
Qed.

Lemma fulfils_await (m : Async A) : fulfils m -> fulfils (await m).
Proof. intros Hm w. rewrite run_await. apply Hm. Qed.

Lemma fulfils_try_catch (m : Async A) (h : JsError -> Async A) :
  settles m -> (forall e, fulfils (h e)) -> fulfils (try_catch m h).
Proof.
  intros Hm Hh w. rewrite run_try_catch. specialize (Hm w).
  destruct (run m w) as [w' [a|e|]]; cbn [snd] in *; [now exists a | apply Hh | congruence].
Qed.

Lemma fulfils_settles (m : Async A) : fulfils m -> settles m.
Proof. intros Hm w. destruct (Hm w) as [a Ha]. rewrite Ha. discriminate. Qed.

End Fulfils.

Lemma fulfils_modify (g : World -> World) : fulfils (modify g).
Proof. intros w. now exists tt. Qed.

Section EndsClean.

Lemma ends_clean_bind {A : Type} (f : string) (m : Async A) (g : A -> Async unit) :
  fulfils m -> (forall a, ends_clean f (g a)) -> ends_clean f (bind m g).
Proof.
  intros Hm Hg w. rewrite run_bind. destruct (Hm w) as [a Ha].
  destruct (run m w) as [w' o]. cbn [snd] in Ha. subst o. apply Hg.
Qed.

(** The guaranteed cleanup: a body whose failures are all handled,
    under a [finally] that deletes the entry. *)
Lemma ends_clean_guard (f : string) (body : Async unit) (h : JsError -> Async unit) :
  settles body -> (forall e, fulfils (h e)) ->
  ends_clean f (try_finally (try_catch body h) (with_runningFeatures (delete f))).
Proof.
  intros Hb Hh w. rewrite run_try_finally.
  destruct (fulfils_try_catch body h Hb Hh w) as [[] Ha].
  destruct (run (try_catch body h) w) as [w' o]. cbn [snd] in Ha. subst o.
  split; [reflexivity |]. cbn. apply MapFacts.lookup_delete_eq.
Qed.

End EndsClean.

Section Cleanup.

Context (ext : External).

Lemma fulfils_on_run_error (p f : string) (e : JsError) : fulfils (on_run_error ext p f e).
Proof. intros w. rewrite run_on_run_error. now exists tt. Qed.

Lemma settles_emit_completed (p f label : string) : settles (emit_completed p f label).
Proof. unfold emit_completed. settles_tac. Qed.

Lemma ends_clean_guarded (p f : string) (u auto : bool) (ac : nat)
    (prompt_of : Feature -> string) (prev : option string) (label : string) :
  ends_clean f (guarded_run ext p f u auto ac prompt_of prev label).
Proof.
  pose proof settles_emit_completed. unfold guarded_run.
  apply ends_clean_guard; [settles_tac | apply fulfils_on_run_error].
Qed.

(** Where a call goes: with a transcript it continues it, without one
    it starts a fresh run. *)
Lemma run_executeFeature (d : nat) (p f : string) (u a : bool) (w : World) :
  runningFeatures w !! f = None ->
  run (executeFeature ext d p f u a) w =
    match contextFiles w !! (p, f) with
    | Some context => run (executeFeatureWithContext ext p f context u) w
    | None => run (executeFeature_fresh ext p f u a) w
    end.
Proof.
  intros H. destruct d; cbn [executeFeature];
    unfold executeFeature_body, resumeFeature_body, is_running;
    rewrite run_bind, run_read; cbn beta iota;
    (rewrite bool_decide_eq_false_2; [| rewrite H; now intros [x Hx]]);
    rewrite run_bind, run_await, run_contextExists; cbn beta iota;
    unfold fs_access_context, fs_readFile_context;
    (destruct (contextFiles w !! (p, f)) as [context|] eqn:E;
     [ rewrite bool_decide_eq_true_2 by eauto;
       rewrite run_bind, run_try_catch, run_bind, run_await, run_promise, E;
       cbn beta iota; rewrite run_ret; cbn beta iota;
       rewrite run_bind, run_await, run_promise, E; reflexivity
     | rewrite bool_decide_eq_false_2 by (now intros [x Hx]); reflexivity ]).
Qed.

Lemma run_resumeFeature (d : nat) (p f : string) (u : bool) (w : World) :
  run (resumeFeature ext d p f u) w =
    match contextFiles w !! (p, f) with
    | Some context => run (executeFeatureWithContext ext p f context u) w
    | None => run (executeFeature ext d p f u false) w
    end.
Proof.
  unfold resumeFeature, resumeFeature_body, fs_access_context, fs_readFile_context.
  rewrite run_bind, run_try_catch, run_bind, run_await, run_promise.
  destruct (contextFiles w !! (p, f)) as [context|] eqn:E; cbn beta iota.
  - rewrite run_ret. cbn beta iota. rewrite run_bind, run_await, run_promise, E.
    reflexivity.
  - rewrite run_ret. reflexivity.
Qed.

(** C2. Whatever the outcome of the run (the feature is missing, the
    work tree cannot be set up, the stream fails with any error, it is
    cancelled, or it completes), the promise of [executeFeature] settles, as
    fulfilled, and the registry then has no entry for the feature. *)
Theorem cleanup_guarantee (d : nat) (p f : string) (u a : bool) (w : World) :
  runningFeatures w !! f = None ->
  snd (run (executeFeature ext d p f u a) w) = Fulfilled tt
  /\ runningFeatures (fst (run (executeFeature ext d p f u a) w)) !! f = None.
Proof.
  intros H. rewrite (run_executeFeature d p f u a w H).
  destruct (contextFiles w !! (p, f)) as [context|].
  - rewrite (run_executeFeatureWithContext ext p f context u w H).
    apply ends_clean_guarded.
  - rewrite run_executeFeature_fresh. apply ends_clean_guarded.
Qed.

(** [followUpFeature] gives the same guarantee: nothing before its
    guarded part can fail, and the guarded part ends with the cleanup. *)
Lemma settles_copy_images (dir : string) (l acc : list string) :
  settles (copy_images ext dir l acc).
Proof.
  revert acc. induction l as [|x l IH]; intros acc; cbn [copy_images].
  - apply settles_ret.
  - apply settles_bind; [| intro; apply IH].
    apply settles_try_catch; [| intro; apply settles_ret].
    apply settles_bind; [| intro; apply settles_ret].
    apply settles_await, settles_promise.
Qed.

Lemma fulfils_newAbortController : fulfils newAbortController.
Proof. intros w. now eexists. Qed.

Lemma fulfils_emit (e : AutoModeEvent) : fulfils (emitAutoModeEvent e).
Proof. intros w. now exists tt. Qed.

Lemma fulfils_loadFeature (p f : string) : fulfils (loadFeature p f).
Proof. intros w. rewrite run_loadFeature. now eexists. Qed.

Lemma follow_up_cleanup (p f prompt : string) (imgs : option (list string)) (u : bool)
    (w : World) :
  runningFeatures w !! f = None ->
  snd (run (followUpFeature ext p f prompt imgs u) w) = Fulfilled tt
  /\ runningFeatures (fst (run (followUpFeature ext p f prompt imgs u) w)) !! f = None.
Proof.
  intros H. unfold followUpFeature, is_running.
  rewrite run_bind, run_read. cbn beta iota.
  rewrite bool_decide_eq_false_2 by (rewrite H; now intros [x Hx]).
  match goal with
  | |- snd (run ?M w) = _ /\ _ => enough (HH : ends_clean f M) by apply HH
  end.
  clear w H.
  apply ends_clean_bind; [apply fulfils_newAbortController | intros ac].
  apply ends_clean_bind; [apply fulfils_await, fulfils_loadFeature | intros feature].
  apply ends_clean_bind.
  { destruct u; [| apply fulfils_ret].
    destruct (match feature with Some f0 => or_null (f_branchName f0) | None => None end);
      [apply fulfils_await; intros w; apply findExisting_fulfils | apply fulfils_ret]. }
  intros worktreePath.
  apply ends_clean_bind.
  { apply fulfils_try_catch; [| intro; apply fulfils_ret].
    apply settles_await, settles_fs_readFile_context. }
  intros previousContext.
  apply ends_clean_bind; [apply fulfils_read | intros now].
  apply ends_clean_bind; [apply fulfils_modify | intros _].
  apply ends_clean_bind; [apply fulfils_emit | intros _].
  apply ends_clean_guard.
  - pose proof settles_copy_images. settles_tac.
  - intros e. destruct (isAbortError ext e); [apply fulfils_ret | apply fulfils_emit].
Qed.

End Cleanup.

Lemma cleanup_guarantee_witness :
  let w := Demo.world (Demo.environment Demo.quiet_shell [Demo.say "done"])
             (Demo.feature "backlog" None) in
  snd (run (executeFeature Demo.ext 0 "/proj" "f1" false false) w) = Fulfilled tt
  /\ runningFeatures (fst (run (executeFeature Demo.ext 0 "/proj" "f1" false false) w)) !! "f1"
     = None.
Proof.
  cbv zeta. apply (cleanup_guarantee Demo.ext 0 "/proj" "f1" false false). reflexivity.
Defined.

Lemma stop_keeps_entry_witness :
  run (stopFeature "f1") Demo.busy_world
    = (with_aborted (fun a => {[0]} ∪ a) Demo.busy_world, Fulfilled true)
  /\ "f1" ∈ st_runningFeatures
              (getStatus (with_aborted (fun a => {[0]} ∪ a) Demo.busy_world)).
Proof.
  destruct (stop_keeps_entry Demo.busy_world "f1" Demo.in_flight) as (H1 & _ & _ & _ & H5 & _);
    [reflexivity |].
  split; [exact H1 | exact H5].
Defined.

(** ** Status transitions *)

Section Traces.






End Traces.

Section Frames2.

Context (ext : External).




(** The resolution of the work tree succeeds when directories can be
    created: every other failure in it is handled. *)
Lemma deriveWorktree_fulfils (p f : string) (u : bool) (b : option string) (w : World) :
  can_mkdir w ->
  exists wt, snd (run (deriveWorktree ext p f u b) w) = Fulfilled wt.
Proof.
  intros Hmk. unfold deriveWorktree.
  destruct u; [| now eexists]. destruct b as [branch|]; [| now eexists].
  rewrite run_bind, run_await.
  destruct (findExisting_fulfils ext p branch w) as [found Hf].
  pose proof (quiet_findExisting ext p branch w) as Hq.
  destruct (run (findExistingWorktreeForBranch ext p branch) w) as [w1 o1].
  cbn [fst snd] in *. subst o1.
  destruct (is_truthy found); [now eexists |].
  rewrite run_bind, run_await. unfold setupWorktree.
  rewrite run_bind, run_await.
  destruct (findExisting_fulfils ext p branch w1) as [found' Hf'].
  pose proof (quiet_findExisting ext p branch w1) as Hq'.
  destruct (run (findExistingWorktreeForBranch ext p branch) w1) as [w2 o2].
  cbn [fst snd] in *. subst o2.
  destruct (or_null found'); [now eexists |].
  assert (Henv : env w2 = env w).
  { destruct Hq as ((_ & _ & _ & _ & _ & E1) & _), Hq' as ((_ & _ & _ & _ & _ & E2) & _).
    congruence. }
  rewrite run_bind, run_await. unfold fs_mkdir at 1. rewrite run_promise.
  rewrite Henv, Hmk. cbn beta iota.
  rewrite run_bind, run_try_catch, run_bind, run_await, run_fs_access.
  destruct (decide _); cbn beta iota; rewrite run_ret; cbn beta iota.
  - rewrite run_ret. now eexists.
  - rewrite run_bind.
    match goal with
    | |- context [run (try_catch (await (execAsync ?e ?c ?d) ;; Ret tt) ?h) ?w0] =>
        destruct (run_caught (await (execAsync e c d) ;; Ret tt) tt w0) as [[] Hb];
        [settles_tac |];
        destruct (run (try_catch (await (execAsync e c d) ;; Ret tt) h) w0) as [w3 o3]
    end.
    cbn [snd] in Hb. subst o3.
    rewrite run_try_catch, run_bind, run_await, run_execAsync.
    destruct (exec_step _ _ _ _) as [w4 [x|e]]; cbn beta iota; rewrite run_ret;
      cbn beta iota; now eexists.
Qed.

End Frames2.

Section StatusTransitions.

Context (ext : External).

Lemma grows_completed (p f label : string) (start : Z) (w : World) :
  grows w (completed p f label start w).
Proof. apply grows_record. Qed.









End StatusTransitions.



(** ** Resuming *)

Section Resuming.

Context (ext : External).

Lemma append_text_extends (t : option string) (r : string) :
  exists x, append_text t r = r +:+ x.
Proof.
  unfold append_text.
  destruct (negb (JS.is_empty r) && negb (JS.endsWith (lf +:+ lf) r)).
  - destruct (JS.endsWith lf r).
    + exists (lf +:+ or_empty t). now rewrite JSFacts.append_assoc.
    + exists (lf +:+ lf +:+ or_empty t). now rewrite !JSFacts.append_assoc.
  - now exists (or_empty t).
Qed.

Lemma append_tool_extends (name : string) (input : option string) (r : string) :
  exists x, append_tool ext name input r = r +:+ x.
Proof.
  unfold append_tool.
  destruct (negb (JS.is_empty r) && negb (JS.endsWith lf r)), input;
    eexists; rewrite ?JSFacts.append_assoc; reflexivity.
Qed.

Lemma extends_trans (r x y : string) (s : string) :
  s = (r +:+ x) +:+ y -> exists z, s = r +:+ z.
Proof. intros ->. exists (x +:+ y). apply JSFacts.append_assoc. Qed.

Lemma blocks_text_extends (blocks : list ContentBlock) :
  forall r, exists x, blocks_text ext blocks r = r +:+ x.
Proof.
  induction blocks as [|b rest IH]; intros r; cbn [blocks_text].
  - exists EmptyString. now rewrite JSFacts.append_empty_r.
  - destruct b as [t|name input|].
    + destruct (append_text_extends t r) as [x Hx].
      destruct (auth_signal t); [now exists x |].
      destruct (IH (append_text t r)) as [y Hy].
      eapply extends_trans. rewrite Hy, Hx. reflexivity.
    + destruct (append_tool_extends name input r) as [x Hx].
      destruct (IH (append_tool ext name input r)) as [y Hy].
      eapply extends_trans. rewrite Hy, Hx. reflexivity.
    + apply IH.
Qed.

(** The accumulated text only ever grows at its end. *)
Lemma stream_text_extends (items : list StreamItem) :
  forall r, exists x, stream_text ext items r = r +:+ x.
Proof.
  induction items as [|i rest IH]; intros r; cbn [stream_text].
  - exists EmptyString. now rewrite JSFacts.append_empty_r.
  - destruct i as [msg|e]; [| exists EmptyString; now rewrite JSFacts.append_empty_r].
    destruct msg as [[content|]|error|subtype result|]; try apply IH.
    + destruct (blocks_text_extends content r) as [x Hx].
      destruct (blocks_result content); [now exists x |].
      destruct (IH (blocks_text ext content r)) as [y Hy].
      eapply extends_trans. rewrite Hy, Hx. reflexivity.
    + exists EmptyString. now rewrite JSFacts.append_empty_r.
Qed.

Lemma in_order_after (pieces : list string) (x s : string) :
  in_order pieces s -> in_order pieces (x +:+ s).
Proof.
  destruct pieces as [|t rest]; [exact id |].
  intros (pre & post & -> & H). exists (x +:+ pre), post.
  split; [now rewrite JSFacts.append_assoc | exact H].
Qed.

Lemma in_order_app (l1 l2 : list string) :
  forall a b, in_order l1 a -> in_order l2 b -> in_order (l1 ++ l2) (a +:+ b).
Proof.
  induction l1 as [|t rest IH]; intros a b H1 H2; cbn [app].
  - now apply in_order_after.
  - destruct H1 as (pre & post & -> & H1). exists pre, (post +:+ b).
    split; [now rewrite !JSFacts.append_assoc | now apply IH].
Qed.

(** A text block adds its text, after the padding. *)
Lemma append_text_says (t : option string) (r : string) :
  exists x, append_text t r = r +:+ x /\ in_order [or_empty t] x.
Proof.
  unfold append_text.
  destruct (negb (JS.is_empty r) && negb (JS.endsWith (lf +:+ lf) r)).
  - destruct (JS.endsWith lf r).
    + exists (lf +:+ or_empty t). split; [now rewrite JSFacts.append_assoc |].
      exists lf, EmptyString. split; [now rewrite JSFacts.append_empty_r | exact I].
    + exists ((lf +:+ lf) +:+ or_empty t). split; [now rewrite !JSFacts.append_assoc |].
      exists (lf +:+ lf), EmptyString. split; [now rewrite JSFacts.append_empty_r | exact I].
  - exists (or_empty t). split; [reflexivity |].
    exists EmptyString, EmptyString. split; [now rewrite JSFacts.append_empty_r | exact I].
Qed.

(** A tool use adds the name of the tool and then its input. *)
Lemma append_tool_says (name : string) (input : option string) (r : string) :
  exists x, append_tool ext name input r = r +:+ x
            /\ in_order (block_pieces (BToolUse name input)) x.
Proof.
  unfold append_tool. cbn [block_pieces].
  set (pad := if negb (JS.is_empty r) && negb (JS.endsWith lf r) then lf else EmptyString).
  assert (Hpad : (if negb (JS.is_empty r) && negb (JS.endsWith lf r) then r +:+ lf else r)
                 = r +:+ pad).
  { subst pad. destruct (_ && _); [reflexivity | now rewrite JSFacts.append_empty_r]. }
  rewrite Hpad. destruct input as [json|].
  - exists (pad +:+ lf +:+ wrench ext +:+ " Tool: " +:+ name +:+ lf +:+
            "Input: " +:+ json +:+ lf).
    split; [now rewrite !JSFacts.append_assoc |].
    exists (pad +:+ lf +:+ wrench ext +:+ " Tool: "), (lf +:+ "Input: " +:+ json +:+ lf).
    split; [now rewrite !JSFacts.append_assoc |].
    exists (lf +:+ "Input: "), lf. split; [now rewrite !JSFacts.append_assoc | exact I].
  - exists (pad +:+ lf +:+ wrench ext +:+ " Tool: " +:+ name +:+ lf).
    split; [now rewrite !JSFacts.append_assoc |].
    exists (pad +:+ lf +:+ wrench ext +:+ " Tool: "), lf.
    split; [now rewrite !JSFacts.append_assoc | exact I].
Qed.

Lemma says_trans (l1 l2 : list string) (r x y s : string) :
  s = (r +:+ x) +:+ y -> in_order l1 x -> in_order l2 y ->
  exists z, s = r +:+ z /\ in_order (l1 ++ l2) z.
Proof.
  intros -> H1 H2. exists (x +:+ y).
  split; [apply JSFacts.append_assoc | now apply in_order_app].
Qed.

Lemma blocks_text_says (blocks : list ContentBlock) :
  blocks_result blocks = None ->
  forall r, exists x,
    blocks_text ext blocks r = r +:+ x
    /\ in_order (concat (List.map block_pieces blocks)) x.
Proof.
  induction blocks as [|b rest IH]; intros Hres r; cbn [blocks_text List.map concat].
  - exists EmptyString. split; [now rewrite JSFacts.append_empty_r | exact I].
  - destruct b as [t|name input|]; cbn [blocks_result] in Hres.
    + destruct (auth_signal t); [discriminate Hres |].
      destruct (append_text_says t r) as (x & Hx & Hsx).
      destruct (IH Hres (append_text t r)) as (y & Hy & Hsy).
      eapply says_trans; [rewrite Hy, Hx; reflexivity | exact Hsx | exact Hsy].
    + destruct (append_tool_says name input r) as (x & Hx & Hsx).
      destruct (IH Hres (append_tool ext name input r)) as (y & Hy & Hsy).
      eapply says_trans; [rewrite Hy, Hx; reflexivity | exact Hsx | exact Hsy].
    + apply IH, Hres.
Qed.

(** The text a stream that completes adds to [responseText] holds all
    that the agent said, in order. *)
Lemma stream_text_says (items : list StreamItem) :
  stream_result items = None ->
  forall r, exists x, stream_text ext items r = r +:+ x /\ in_order (said items) x.
Proof.
  induction items as [|i rest IH]; intros Hres r; cbn [stream_text said].
  - exists EmptyString. split; [now rewrite JSFacts.append_empty_r | exact I].
  - destruct i as [msg|e]; [| discriminate Hres].
    cbn [stream_result] in Hres.
    destruct msg as [[content|]|error|subtype result|]; cbn [message_result] in Hres;
      try (apply IH, Hres); try discriminate Hres.
    destruct (blocks_result content) eqn:Hb; [discriminate Hres |].
    destruct (blocks_text_says content Hb r) as (x & Hx & Hsx).
    destruct (IH Hres (blocks_text ext content r)) as (y & Hy & Hsy).
    eapply says_trans; [rewrite Hy, Hx; reflexivity | exact Hsx | exact Hsy].
Qed.

Lemma contextFiles_status_written (p f s : string) (w : World) :
  contextFiles (status_written p f s w) = contextFiles w.
Proof.
  unfold status_written.
  destruct (featureFiles w !! (p, f)); [destruct (feature_write_ok _ _ _ _) |];
    reflexivity.
Qed.

Lemma aborted_status_written (p f s : string) (w : World) :
  aborted (status_written p f s w) = aborted w.
Proof.
  unfold status_written.
  destruct (featureFiles w !! (p, f)); [destruct (feature_write_ok _ _ _ _) |];
    reflexivity.
Qed.

Lemma env_status_written (p f s : string) (w : World) :
  env (status_written p f s w) = env w.
Proof.
  unfold status_written.
  destruct (featureFiles w !! (p, f)); [destruct (feature_write_ok _ _ _ _) |];
    reflexivity.
Qed.

Lemma contextFiles_failed (p f : string) (e : JsError) (w : World) :
  contextFiles (failed ext p f e w) = contextFiles w.
Proof.
  unfold failed. cbv zeta. destruct (isAbort _); [reflexivity |].
  cbn. apply contextFiles_status_written.
Qed.

(** The transcript after a guarded run: what it was, or the text the run
    accumulated from [prev]. *)
Lemma guarded_transcript (p f : string) (u auto : bool) (ac : nat)
    (prompt_of : Feature -> string) (prev : option string) (label : string) (w : World) :
  ac ∉ aborted w ->
  mockAgent (env w) = false ->
  let w' := fst (run (guarded_run ext p f u auto ac prompt_of prev label) w) in
  contextFiles w' !! (p, f) = contextFiles w !! (p, f)
  \/ exists script,
       contextFiles w' !! (p, f) = Some (stream_text ext script (initial_responseText prev)).
Proof.
  intros Hac Hmock. cbv zeta.
  destruct (featureFiles w !! (p, f)) as [F|] eqn:HF.
  - rewrite (guarded_present ext p f u auto ac prompt_of prev label F w HF).
    unfold guarded_result. cbv zeta.
    pose proof (quiet_deriveWorktree ext p f u (or_null (f_branchName F)) w) as Hq.
    destruct (run (deriveWorktree ext p f u (or_null (f_branchName F))) w)
      as [w1 [wt|e|]]; cbn [fst] in Hq;
      destruct Hq as ((_ & _ & Hab & _ & _ & Henv) & _ & Hctx & _).
    + set (w3 := status_written _ _ _ _).
      assert (Hctx3 : contextFiles w3 = contextFiles w).
      { subst w3. rewrite contextFiles_status_written. exact Hctx. }
      assert (Hab3 : aborted w3 = aborted w).
      { subst w3. rewrite aborted_status_written. exact Hab. }
      assert (Henv3 : env w3 = env w).
      { subst w3. rewrite env_status_written. exact Henv. }
      match goal with
      | |- context [run (runAgent ?x1 ?x2 ?x3 ?x4 ?x5 ?x6 ?x7 ?x8 ?x9) w3] =>
          destruct (runAgent_spec x1 x2 x3 x4 x5 x6 x7 x8 x9 w3) as (w4 & Hrun & _ & Hc4);
          [congruence | congruence |]
      end.
      rewrite Hrun. rewrite Hctx3 in Hc4.
      match type of Hc4 with
      | context [stream_result ?s] => destruct (stream_result s) as [e|]; cbn [outcome_of fst]
      end.
      * left. cbn. now rewrite contextFiles_failed.
      * cbn. rewrite contextFiles_status_written, Hc4.
        destruct (_ && _); [right; eexists; reflexivity | now left].
    + left. cbn. now rewrite contextFiles_failed, Hctx.
    + left. cbn. now rewrite Hctx.
  - rewrite (guarded_absent ext p f u auto ac prompt_of prev label w HF).
    left. cbn. now rewrite contextFiles_failed.
Qed.

(** The transcript after a guarded run whose stream completes and whose
    final write succeeds. *)
Lemma guarded_transcript_saved (p f : string) (u auto : bool) (ac : nat)
    (prompt_of : Feature -> string) (prev : option string) (label : string)
    (F : Feature) (script : list StreamItem) (w : World) :
  featureFiles w !! (p, f) = Some F ->
  ac ∉ aborted w ->
  mockAgent (env w) = false ->
  can_mkdir w ->
  transcript_write_ok (env w) p f = true ->
  (forall o, provider (env w) o = script) ->
  stream_result script = None ->
  let w' := fst (run (guarded_run ext p f u auto ac prompt_of prev label) w) in
  contextFiles w' !! (p, f) = Some (stream_text ext script (initial_responseText prev)).
Proof.
  intros HF Hac Hmock Hmk Hwr Hscript Hres. cbv zeta.
  rewrite (guarded_present ext p f u auto ac prompt_of prev label F w HF).
  unfold guarded_result. cbv zeta.
  pose proof (quiet_deriveWorktree ext p f u (or_null (f_branchName F)) w) as Hq.
  destruct (deriveWorktree_fulfils ext p f u (or_null (f_branchName F)) w Hmk) as [wt Hwt].
  destruct (run (deriveWorktree ext p f u (or_null (f_branchName F))) w) as [w1 o1].
  cbn [fst snd] in *. subst o1.
  destruct Hq as ((_ & _ & Hab & _ & _ & Henv) & _ & Hctx & _).
  set (w3 := status_written _ _ _ _).
  assert (Hab3 : aborted w3 = aborted w).
  { subst w3. rewrite aborted_status_written. exact Hab. }
  assert (Henv3 : env w3 = env w).
  { subst w3. rewrite env_status_written. exact Henv. }
  match goal with
  | |- context [run (runAgent ?x1 ?x2 ?x3 ?x4 ?x5 ?x6 ?x7 ?x8 ?x9) w3] =>
      destruct (runAgent_spec x1 x2 x3 x4 x5 x6 x7 x8 x9 w3) as (w4 & Hrun & _ & Hc4);
      [congruence | congruence |]
  end.
  rewrite Henv3, Hscript, Hres in Hrun.
  rewrite Henv3, Hscript, Hres, Hmk, Hwr in Hc4. cbn [andb] in Hc4.
  rewrite Hrun. cbn. now rewrite contextFiles_status_written.
Qed.

(** Without a transcript, after the two turns in which [resumeFeature]
    looks for one, the task is the call of [executeFeature] itself. *)
Lemma resume_turns (d : nat) (p f : string) (u : bool) (w : World) :
  contextFiles w !! (p, f) = None ->
  turn (resumeFeature ext d p f u) w = (w, snd (turn (resumeFeature ext d p f u) w))
  /\ turn (snd (turn (resumeFeature ext d p f u) w)) w
     = (w, executeFeature ext d p f u false).
Proof.
  intros H. split; [reflexivity |].
  cbn. rewrite H. reflexivity.
Qed.

Lemma initial_extends (T : string) :
  exists x, initial_responseText (Some T) = T +:+ x.
Proof.
  unfold initial_responseText, or_null. destruct T as [|c T]; cbn.
  - now exists EmptyString.
  - now exists follow_up_separator.
Qed.

(** C9, as the code has it. Without a transcript, [resumeFeature] runs
    as [executeFeature] with the same arguments does: after the two turns in
    which it looks for the transcript, in which nothing changes, the task
    is that call. With a transcript [T] and a real provider, the transcript
    after the run starts with [T]: history is never overwritten. When
    moreover the stream completes and the final write succeeds, the
    transcript is the text the run accumulates from the stream: for a [T]
    that is not empty it is [T], the follow-up separator, and the new
    output, which holds every text and every tool use of the stream in
    order; for an empty [T] it is the new output alone, as a first run
    writes it, with no separator. *)
Theorem resume_seeds_history (d : nat) (p f : string) (u : bool) (w : World) :
  (contextFiles w !! (p, f) = None ->
   run (resumeFeature ext d p f u) w = run (executeFeature ext d p f u false) w
   /\ turn (snd (turn (resumeFeature ext d p f u) w)) w
      = (w, executeFeature ext d p f u false))
  /\
  (forall T,
     contextFiles w !! (p, f) = Some T ->
     runningFeatures w !! f = None ->
     mockAgent (env w) = false ->
     let w' := fst (run (resumeFeature ext d p f u) w) in
     (exists suffix, contextFiles w' !! (p, f) = Some (T +:+ suffix))
     /\
     (forall F script,
        featureFiles w !! (p, f) = Some F ->
        can_mkdir w ->
        transcript_write_ok (env w) p f = true ->
        (forall o, provider (env w) o = script) ->
        stream_result script = None ->
        let seed := if JS.truthy T then T +:+ follow_up_separator else EmptyString in
        exists new,
          contextFiles w' !! (p, f) = Some (seed +:+ new)
          /\ seed +:+ new = stream_text ext script seed
          /\ in_order (said script) new)).
Proof.
  split.
  - intros Hctx. split.
    + rewrite run_resumeFeature, Hctx. reflexivity.
    + apply resume_turns, Hctx.
  - intros T Hctx Hrun Hmock. cbv zeta.
    rewrite run_resumeFeature, Hctx.
    rewrite (run_executeFeatureWithContext ext p f T u w Hrun).
    set (w0 := started p f _ _ w).
    assert (Hac : controllers w ∉ aborted w0).
    { subst w0. cbn. rewrite elem_of_difference, elem_of_singleton. tauto. }
    split.
    + destruct (guarded_transcript p f u false (controllers w)
                  (fun feature => continue_prompt ext feature T) (Some T)
                  "Feature resumed and completed in " w0 Hac Hmock) as [Hsame|[script Hnew]].
      * exists EmptyString. rewrite Hsame. subst w0. cbn.
        now rewrite Hctx, JSFacts.append_empty_r.
      * destruct (initial_extends T) as [x Hx].
        destruct (stream_text_extends script (initial_responseText (Some T))) as [y Hy].
        exists (x +:+ y). rewrite Hnew, Hy, Hx. now rewrite JSFacts.append_assoc.
    + intros F script HF Hmk Hwr Hscript Hres.
      rewrite (guarded_transcript_saved p f u false (controllers w)
                 (fun feature => continue_prompt ext feature T) (Some T)
                 "Feature resumed and completed in " F script w0 HF Hac Hmock Hmk Hwr
                 Hscript Hres).
      assert (Hinit : initial_responseText (Some T)
                      = if JS.truthy T then T +:+ follow_up_separator else EmptyString).
      { unfold initial_responseText, or_null. now destruct (JS.truthy T). }
      rewrite Hinit.
      destruct (stream_text_says script Hres
                  (if JS.truthy T then T +:+ follow_up_separator else EmptyString))
        as (new & Hnew & Hsaid).
      exists new. rewrite Hnew. now repeat split.
Qed.

End Resuming.

Lemma resume_seeds_history_witness :
  let w := Demo.resumable_world "first attempt" [Demo.say "second attempt"] in
  contextFiles (fst (run (resumeFeature Demo.ext 0 "/proj" "f1" false) w)) !! ("/proj", "f1")
    = Some ("first attempt" +:+ follow_up_separator +:+ "second attempt")
  /\ run (resumeFeature Demo.ext 0 "/proj" "f1" false) (Demo.backlog_world [])
     = run (executeFeature Demo.ext 0 "/proj" "f1" false false) (Demo.backlog_world []).
Proof.
  cbv zeta. split.
  - destruct (proj2 (resume_seeds_history Demo.ext 0 "/proj" "f1" false
                       (Demo.resumable_world "first attempt" [Demo.say "second attempt"]))
                "first attempt" eq_refl eq_refl eq_refl) as [_ H].
    destruct (H (Demo.feature "in_progress" None) [Demo.say "second attempt"]
                eq_refl (fun _ => eq_refl) eq_refl (fun _ => eq_refl) eq_refl)
      as (new & Hnew & Htext & _).
    cbv zeta in Hnew, Htext. rewrite Hnew, Htext. reflexivity.
  - apply (proj1 (resume_seeds_history Demo.ext 0 "/proj" "f1" false (Demo.backlog_world []))).
    reflexivity.
Defined.

(** C9 as stated fails for a transcript that exists and is empty: the new
    run starts from an empty text, and no separator is written. *)
Lemma resume_empty_transcript_no_separator :
  let w := Demo.resumable_world EmptyString [Demo.say "second attempt"] in
  contextFiles w !! ("/proj", "f1") = Some EmptyString
  /\ contextFiles (fst (run (resumeFeature Demo.ext 0 "/proj" "f1" false) w)) !! ("/proj", "f1")
     = Some "second attempt"
  /\ ~ exists new, "second attempt" = EmptyString +:+ follow_up_separator +:+ new.
Proof.
  cbv zeta. split; [reflexivity |]. split; [reflexivity |].
  intros [new H]. vm_compute in H. discriminate H.
Qed.

(** ** Work trees *)

Section Worktrees.

Context (ext : External).

Lemma run_findExisting (p b : string) (w : World) :
  run (findExistingWorktreeForBranch ext p b) w =
    (record (Ran GitWorktreeList p) w, Fulfilled (find_result ext p b w)).
Proof.
  unfold findExistingWorktreeForBranch, find_result.
  rewrite run_try_catch, run_bind, run_await, run_execAsync.
  unfold exec_step. cbn [env record].
  destruct (wt_list_ok (env w)); reflexivity.
Qed.

Lemma run_setupWorktree (p f b : string) (w : World) :
  run (setupWorktree ext p f b) w = setup_result ext p f b w.
Proof.
  unfold setupWorktree, setup_result. cbv zeta.
  rewrite run_bind, run_await, run_findExisting. cbn beta iota.
  destruct (or_null (find_result ext p b w)) as [existing|]; [reflexivity |].
  rewrite run_bind, run_await. unfold fs_mkdir at 1. rewrite run_promise.
  cbn [env record].
  destruct (mkdir_ok (env w) (path_join ext p ".worktrees")); [| reflexivity].
  cbn beta iota.
  rewrite run_bind, run_try_catch, run_bind, run_await, run_fs_access.
  destruct (decide _) as [Hin|Hout]; cbn beta iota; rewrite run_ret; cbn beta iota.
  - rewrite run_ret. reflexivity.
  - rewrite run_bind, run_try_catch, run_bind, run_await, run_execAsync.
    unfold exec_step at 1. cbn [command_line env record with_dirs].
    destruct (shell (env w) ("git branch " +:+ b) p); cbn beta iota;
      rewrite ?run_ret; cbn beta iota;
      rewrite run_try_catch, run_bind, run_await, run_execAsync;
      unfold exec_step; cbn [env record with_dirs];
      destruct (wt_add_ok (env w) _ b); cbn beta iota; rewrite run_ret; reflexivity.
Qed.

(** The scan of a listing, cut in two. *)
Lemma scan_app (p b : string) (l1 l2 : list string) :
  forall cp cb,
    scan_worktrees ext p b (l1 ++ l2) cp cb =
      match scan_loop ext p b l1 cp cb with
      | inl r => r
      | inr (cp', cb') => scan_worktrees ext p b l2 cp' cb'
      end.
Proof.
  induction l1 as [|line rest IH]; intros cp cb; [reflexivity |].
  cbn [app scan_worktrees scan_loop].
  destruct (JS.startsWith "worktree " line); [apply IH |].
  destruct (JS.startsWith "branch " line); [apply IH |].
  destruct (JS.is_empty line), (or_null cp), (or_null cb); try apply IH.
  destruct (String.eqb _ b); [reflexivity | apply IH].
Qed.


Lemma remove_first_append (c : ascii) (pat rest : string) :
  JS.remove_first (String c pat) (String c pat +:+ rest) = rest.
Proof.
  rewrite JSFacts.append_cons. cbn [JS.remove_first].
  rewrite <- JSFacts.append_cons, JSFacts.prefix_append.
  apply JSFacts.slice_append.
Qed.





Lemma created_record (e : Effect) (w : World) :
  created (log (record e w)) =
    (created (log w) + match e with WorktreeCreated _ _ => 1 | _ => 0 end)%nat.
Proof.
  unfold created. cbn [log record].
  rewrite List.filter_app, List.length_app. cbn [List.filter].
  destruct e; cbn; lia.
Qed.





Lemma setup_refused (p f b : string) (w : World) :
  let wd := path_join ext p ".worktrees" in
  let wp := path_join ext wd f in
  or_null (find_result ext p b w) = None ->
  mkdir_ok (env w) wd = true ->
  wp ∉ {[wd]} ∪ dirs w ->
  wt_add_ok (env w) wp b = false ->
  setup_result ext p f b w =
    (record (Ran (GitWorktreeAdd wp b) p)
       (record (Ran (GitBranch b) p)
          (with_dirs (fun d => {[wd]} ∪ d) (record (Ran GitWorktreeList p) w))),
     Fulfilled (path_resolve ext p)).
Proof.
  intros wd wp H1 H2 H3 H4. unfold setup_result. cbv zeta. fold wd. fold wp.
  rewrite H1, H2, H4. now rewrite decide_False by exact H3.
Qed.



End Worktrees.



(** The binding is by branch: a second feature on the branch of the
    first gets the work tree that was made for the first. *)
Example worktree_shared_by_branch :
  let first := run (setupWorktree Demo.ext "/proj" "f1" "feature/login") Demo.repo_world in
  let second := run (setupWorktree Demo.ext "/proj" "f2" "feature/login") (fst first) in
  snd first = Fulfilled "/proj/.worktrees/f1"
  /\ snd second = Fulfilled "/proj/.worktrees/f1"
  /\ created (log (fst second)) = 1%nat.
Proof. cbv zeta. repeat split; vm_compute; reflexivity. Qed.

(** ** The final write of the transcript *)

Section FinalWrite.

Context (ext : External).

(** When the stream completes and the file can be written, the
    transcript is the accumulated text. *)
Lemma transcript_saved_on_completion (workDir f prompt : string) (rid : nat) (p : string)
    (imgs : option (list string)) (model prev : option string) (w : World) :
  mockAgent (env w) = false ->
  rid ∉ aborted w ->
  can_mkdir w ->
  transcript_write_ok (env w) p f = true ->
  stream_result (provider (env w) (agent_options ext workDir prompt rid imgs model)) = None ->
  let w' := fst (run (runAgent ext workDir f prompt rid p imgs model prev) w) in
  contextFiles w' !! (p, f) = Some (current_responseText rid w').
Proof.
  intros Hmock Hab Hmk Hwr Hres. cbv zeta.
  destruct (runAgent_spec ext workDir f prompt rid p imgs model prev w Hmock Hab)
    as (w' & Hrun & Htext & Hctx).
  rewrite Hrun. cbn [fst]. rewrite Hctx, Htext, Hres, Hmk, Hwr. reflexivity.
Qed.

(** When the stream fails, whatever the error, [runAgent] leaves the
    transcript as it was: the accumulated text is not written. *)
Lemma transcript_untouched_on_failure (workDir f prompt : string) (rid : nat) (p : string)
    (imgs : option (list string)) (model prev : option string) (e : JsError) (w : World) :
  mockAgent (env w) = false ->
  rid ∉ aborted w ->
  stream_result (provider (env w) (agent_options ext workDir prompt rid imgs model)) = Some e ->
  let w' := fst (run (runAgent ext workDir f prompt rid p imgs model prev) w) in
  snd (run (runAgent ext workDir f prompt rid p imgs model prev) w) = Rejected e
  /\ contextFiles w' !! (p, f) = contextFiles w !! (p, f)
  /\ current_responseText rid w' =
       stream_text ext (provider (env w) (agent_options ext workDir prompt rid imgs model))
         (initial_responseText prev).
Proof.
  intros Hmock Hab Hres. cbv zeta.
  destruct (runAgent_spec ext workDir f prompt rid p imgs model prev w Hmock Hab)
    as (w' & Hrun & Htext & Hctx).
  rewrite Hrun. cbn [fst snd]. rewrite Hres in Hctx |- *. cbn [outcome_of].
  split; [reflexivity |]. split; [exact Hctx | exact Htext].
Qed.

End FinalWrite.

(** C4 at two inputs where the stream does not complete. In the first,
    the only text of the stream carries an authentication error:
    [runAgent] rejects, [responseText] holds the text, the transcript does
    not exist and no timer is left that could write it. In the second, the
    stream is aborted after one text: at the moment the promise settles the
    transcript does not exist either; only the debounce timer that was
    pending may write it later. *)
Theorem final_write_skipped_on_failure :
  let agent w := run (runAgent Demo.ext "/proj" "f1" "prompt" 0 "/proj" None None None) w in
  let w1 := Demo.backlog_world [Demo.say "Invalid API key"] in
  let w2 := Demo.backlog_world [Demo.say "Working on the login page"; SThrow AbortError] in
  (snd (agent w1) = Rejected auth_error
   /\ current_responseText 0 (fst (agent w1)) = "Invalid API key"
   /\ contextFiles (fst (agent w1)) !! ("/proj", "f1") = None
   /\ Loop.timer_pending 0 (fst (agent w1)) = false)
  /\
  (snd (agent w2) = Rejected AbortError
   /\ current_responseText 0 (fst (agent w2)) = "Working on the login page"
   /\ contextFiles (fst (agent w2)) !! ("/proj", "f1") = None
   /\ Loop.timer_pending 0 (fst (agent w2)) = true).
Proof. cbv zeta. repeat split; vm_compute; reflexivity. Qed.

(** ** Concurrent calls *)

Section SingleInstance.

Context (ext : External).

(** The first turn of [executeFeature] for a feature that is not
    registered reads the registry, starts the check for a transcript and
    suspends: it changes nothing, and in particular registers nothing. *)
Lemma first_turn_registers_nothing (d : nat) (p f : string) (u a : bool) (w : World) :
  runningFeatures w !! f = None ->
  exists k,
    turn (executeFeature ext d p f u a) w = (w, k) /\ Loop.settled k = None.
Proof.
  intros H. destruct d; cbn; unfold is_running; rewrite H;
    (rewrite bool_decide_eq_false_2 by (now intros [x Hx]));
    eexists; split; reflexivity.
Qed.

(** The first turn of [followUpFeature] allocates the abort controller
    and suspends on the read of the feature: the registry is as before. *)
Lemma follow_up_first_turn_registers_nothing (p f prompt : string)
    (imgs : option (list string)) (u : bool) (w : World) :
  runningFeatures w !! f = None ->
  exists w' k,
    turn (followUpFeature ext p f prompt imgs u) w = (w', k)
    /\ Loop.settled k = None
    /\ runningFeatures w' = runningFeatures w.
Proof.
  intros H. cbn. unfold is_running. rewrite H.
  rewrite bool_decide_eq_false_2 by (now intros [x Hx]).
  do 2 eexists. split; [reflexivity |]. split; reflexivity.
Qed.

(** A call for a feature that is registered is rejected at once and
    changes nothing. *)
Lemma registered_call_rejected (d : nat) (p f : string) (u a : bool) (w : World) :
  is_Some (runningFeatures w !! f) ->
  run (executeFeature ext d p f u a) w = (w, Rejected (already_running f)).
Proof.
  intros H. destruct d; cbn; unfold is_running;
    rewrite bool_decide_eq_true_2 by exact H; reflexivity.
Qed.

Lemma registered_follow_up_rejected (p f prompt : string)
    (imgs : option (list string)) (u : bool) (w : World) :
  is_Some (runningFeatures w !! f) ->
  run (followUpFeature ext p f prompt imgs u) w = (w, Rejected (already_running f)).
Proof.
  intros H. cbn. unfold is_running.
  rewrite bool_decide_eq_true_2 by exact H. reflexivity.
Qed.

(** Hence two calls for the same feature made in the same turn both get
    past the check. *)
Lemma both_pass_the_check (d : nat) (p f : string) (u a : bool) (w : World) :
  runningFeatures w !! f = None ->
  exists k,
    Loop.steps ext (Loop.mkState w [])
      [Loop.Spawn (executeFeature ext d p f u a); Loop.Spawn (executeFeature ext d p f u a)]
    = Loop.mkState w [k; k]
    /\ Loop.settled k = None.
Proof.
  intros H. destruct (first_turn_registers_nothing d p f u a w H) as (k & Hk & Hs).
  exists k. split; [| exact Hs].
  cbn [Loop.steps fold_left Loop.step Loop.world Loop.tasks]. rewrite Hk.
  cbn [Loop.world Loop.tasks]. rewrite Hk. reflexivity.
Qed.

End SingleInstance.

(** C1 at a failing input: [executeFeature] called twice in the same turn
    for the feature ["f1"], which is in the backlog. After the two calls
    neither promise is settled: both got past the check of the registry.
    Resumed in alternation, both run the agent, both are fulfilled, neither
    is rejected, and the second to finish, whose registry entry the first
    has deleted, reverts the feature to the backlog. *)
Theorem concurrent_calls_both_run :
  let w := Demo.backlog_world [Demo.say "hello"] in
  let started := Loop.steps Demo.ext (Loop.mkState w []) Demo.both_calls in
  let finished := Loop.steps Demo.ext started (Demo.alternate 30) in
  Loop.settled <$> Loop.tasks started = [None; None]
  /\ Loop.settled <$> Loop.tasks finished = [Some (Fulfilled tt); Some (Fulfilled tt)]
  /\ Demo.agent_events (log (Loop.world finished)) =
       [ auto_mode_progress "f1" (Some "hello"); auto_mode_progress "f1" (Some "hello") ]
  /\ f_status <$> featureFiles (Loop.world finished) !! ("/proj", "f1") = Some "backlog".
Proof. cbv zeta. repeat split; vm_compute; reflexivity. Qed.

(** The same with [followUpFeature], and with [resumeFeature] for a
    feature that has a transcript. *)
Example concurrent_follow_ups_both_run :
  let w := Demo.backlog_world [Demo.say "hello"] in
  let call := Loop.Spawn (followUpFeature Demo.ext "/proj" "f1" "more" None false) in
  let finished := Loop.steps Demo.ext (Loop.mkState w []) ([call; call] ++ Demo.alternate 30) in
  Loop.settled <$> Loop.tasks finished = [Some (Fulfilled tt); Some (Fulfilled tt)]
  /\ Demo.agent_events (log (Loop.world finished)) =
       [ auto_mode_progress "f1" (Some "hello"); auto_mode_progress "f1" (Some "hello") ].
Proof. cbv zeta. split; vm_compute; reflexivity. Qed.

Example concurrent_resumes_both_run :
  let w := Demo.resumable_world "old" [Demo.say "hello"] in
  let call := Loop.Spawn (resumeFeature Demo.ext 1 "/proj" "f1" false) in
  let finished := Loop.steps Demo.ext (Loop.mkState w []) ([call; call] ++ Demo.alternate 40) in
  Loop.settled <$> Loop.tasks finished = [Some (Fulfilled tt); Some (Fulfilled tt)]
  /\ Demo.agent_events (log (Loop.world finished)) =
       [ auto_mode_progress "f1" (Some "hello"); auto_mode_progress "f1" (Some "hello") ].
Proof. cbv zeta. split; vm_compute; reflexivity. Qed.

(** The sequence of calls is decisive: a call made while the first is
    registered is rejected. *)
Example call_during_run_rejected :
  snd (run (executeFeature Demo.ext 0 "/proj" "f1" false false) Demo.busy_world)
  = Rejected (already_running "f1").
Proof. vm_compute. reflexivity. Qed.

(** [stopFeature] in an interleaving: the call is made while the stream is
    being consumed; right after it the registry still has the entry; the run
    then observes the abort, reports that it was stopped, and removes its
    entry itself. *)
Example stop_then_cleanup :
  let w := Demo.backlog_world [Demo.say "hello"; Demo.say "world"] in
  let run1 := Loop.Spawn (executeFeature Demo.ext 0 "/proj" "f1" false false) in
  let streaming := Loop.steps Demo.ext (Loop.mkState w []) (run1 :: replicate 13 (Loop.Resume 0)) in
  let stopped := Loop.steps Demo.ext streaming [Loop.Spawn (stopFeature "f1" ;; Ret tt)] in
  let finished := Loop.steps Demo.ext stopped (replicate 10 (Loop.Resume 0)) in
  Demo.agent_events (log (Loop.world streaming)) = [auto_mode_progress "f1" (Some "hello")]
  /\ st_runningFeatures (getStatus (Loop.world stopped)) = ["f1"]
  /\ st_runningFeatures (getStatus (Loop.world finished)) = []
  /\ last (log (Loop.world finished))
     = Some (Emitted (auto_mode_feature_complete "f1" false "Feature stopped by user"
                        (Some "/proj")))
  /\ f_status <$> featureFiles (Loop.world finished) !! ("/proj", "f1") = Some "in_progress".
Proof. cbv zeta. repeat split; vm_compute; reflexivity. Qed.

(** * Further properties of the service *)

(** ** Titles *)

Module TitleFacts.

Import JS.

Lemma length_trimStart (s : string) :
  (String.length (trimStart s) <= String.length s)%nat.
Proof.
  induction s as [|c r IH]; simpl; [lia |].
  destruct (is_ws c); simpl; lia.
Qed.

Lemma length_trimEnd (s : string) :
  (String.length (trimEnd s) <= String.length s)%nat.
Proof.
  induction s as [|c r IH]; simpl; [lia |].
  destruct (is_ws c && is_empty (trimEnd r)); simpl; lia.
Qed.

Lemma length_trim (s : string) : (String.length (trim s) <= String.length s)%nat.
Proof.
  unfold trim. pose proof (length_trimEnd (trimStart s)).
  pose proof (length_trimStart s). lia.
Qed.

Lemma single_line_trimStart (s : string) :
  single_line s = true -> single_line (trimStart s) = true.
Proof.
  induction s as [|c r IH]; simpl; intros H; [reflexivity |].
  apply andb_true_iff in H as [H1 H2].
  destruct (is_ws c); [apply IH, H2 |]. simpl. now rewrite H1, H2.
Qed.

Lemma single_line_trimEnd (s : string) :
  single_line s = true -> single_line (trimEnd s) = true.
Proof.
  induction s as [|c r IH]; simpl; intros H; [reflexivity |].
  apply andb_true_iff in H as [H1 H2].
  destruct (is_ws c && is_empty (trimEnd r)); [reflexivity |].
  simpl. rewrite H1. now apply IH.
Qed.

Lemma single_line_trim (s : string) : single_line s = true -> single_line (trim s) = true.
Proof. intros H. unfold trim. now apply single_line_trimEnd, single_line_trimStart. Qed.

Lemma first_line_cons (c : ascii) (r : string) :
  first_line (String c r) = if Ascii.eqb c nl then EmptyString else String c (first_line r).
Proof.
  unfold first_line. simpl. destruct (Ascii.eqb c nl); [reflexivity |].
  pose proof (JSFacts.split_nl_nonempty r) as Hne.
  destruct (split_nl r); [now elim Hne | reflexivity].
Qed.

Lemma single_line_first_line (s : string) : single_line (first_line s) = true.
Proof.
  induction s as [|c r IH]; [reflexivity |].
  rewrite first_line_cons. destruct (Ascii.eqb c nl) eqn:E; [reflexivity |].
  simpl. now rewrite E.
Qed.

Lemma single_line_substring0 (n : nat) (s : string) :
  single_line s = true -> single_line (substring0 n s) = true.
Proof.
  unfold substring0. revert s.
  induction n as [|n IH]; intros [|c r] H; simpl in *; try reflexivity.
  apply andb_true_iff in H as [H1 H2]. rewrite H1. simpl. now apply IH.
Qed.

End TitleFacts.

(** X1. Whatever the description, the title has at most 60
    characters and no line feed. *)
Theorem title_bounded (d : string) :
  (String.length (extractTitleFromDescription d) <= 60)%nat
  /\ JS.single_line (extractTitleFromDescription d) = true.
Proof.
  unfold extractTitleFromDescription.
  destruct (JS.is_empty d || JS.is_empty (JS.trim d)); [split; [simpl; lia | reflexivity] |].
  pose proof (TitleFacts.single_line_trim _ (TitleFacts.single_line_first_line d)) as Hline.
  set (firstLine := JS.trim (JS.first_line d)) in *.
  destruct (Nat.leb_spec (String.length firstLine) 60) as [Hle|Hgt].
  - split; [exact Hle | exact Hline].
  - split.
    + rewrite JSFacts.length_append, JSFacts.length_substring0 by lia. simpl. lia.
    + rewrite JSFacts.single_line_append.
      now rewrite (TitleFacts.single_line_substring0 57 _ Hline).
Qed.

(** X2. The title is empty exactly when the description is
    not blank but its first line is: the fall-back ["Untitled Feature"] is
    for blank descriptions only. *)
Theorem title_empty_iff (d : string) :
  extractTitleFromDescription d = EmptyString
  <-> JS.is_empty (JS.trim d) = false /\ JS.trim (JS.first_line d) = EmptyString.
Proof.
  split.
  - unfold extractTitleFromDescription.
    destruct (JS.is_empty d); [discriminate |]. cbn [orb].
    destruct (JS.is_empty (JS.trim d)); [discriminate |].
    destruct (Nat.leb (String.length (JS.trim (JS.first_line d))) 60).
    + intros H. now split.
    + intros H. apply (f_equal String.length) in H.
      rewrite JSFacts.length_append in H. simpl in H. lia.
  - intros [Hblank Hfirst]. rewrite (title_of_nonblank d Hblank). cbv zeta.
    now rewrite Hfirst.
Qed.

Example title_of_blank_first_line :
  extractTitleFromDescription (lf +:+ "Add login page") = EmptyString.
Proof. reflexivity. Qed.

(** ** The commit command *)

(** X3. In the escaped commit message every double quote comes
    right after a backslash, and the message never starts with a double
    quote. *)
Theorem escape_quotes_escapes_every_quote (s : string) :
  (forall pre c post,
     escape_quotes s = pre +:+ String c (String (ascii_of_nat 34) post) ->
     c = ascii_of_nat 92)
  /\ (forall post, escape_quotes s <> String (ascii_of_nat 34) post).
Proof.
  induction s as [|c0 r [IH1 IH2]].
  - split.
    + intros [|x pre] c post H; discriminate H.
    + intros post H. discriminate H.
  - cbn [escape_quotes]. destruct (Ascii.eqb c0 (ascii_of_nat 34)) eqn:E.
    + apply Ascii.eqb_eq in E. subst c0. split.
      * intros [|x [|y pre]] c post H.
        -- now injection H as <- _.
        -- injection H as _ _ H. now elim (IH2 post).
        -- injection H as _ _ H. now apply (IH1 pre c post).
      * intros post H. discriminate H.
    + split.
      * intros [|x pre] c post H.
        -- injection H as _ H. now elim (IH2 post).
        -- injection H as _ H. now apply (IH1 pre c post).
      * intros post H. injection H as H _. subst c0. discriminate E.
Qed.

(** ** Verification, for every outcome of the checks *)

Section VerificationOutcomes.

Context (ext : External).

(** X4. Whatever the commands answer, [verifyFeature] runs the
    checks in order up to and including the first that fails, returns
    whether all four passed, and names the first failing check in the
    event; it changes nothing else. *)
Theorem verify_runs_until_failure (p f : string) (w : World) :
  let dir := verify_dir ext w p f in
  let ok := command_ok w dir in
  let all := forallb ok verificationChecks.*1 in
  let msg :=
    match List.find (fun c => negb (ok (fst c))) verificationChecks with
    | Some c => "Verification failed: " +:+ snd c
    | None => "All verification checks passed"
    end in
  run (verifyFeature ext p f) w =
    (record (Emitted (auto_mode_feature_complete f all msg None))
       (ran_all dir (until_failure ok verificationChecks.*1) w),
     Fulfilled all).
Proof.
  cbv zeta. unfold verifyFeature.
  rewrite run_bind, run_verify_dir. cbn beta iota zeta.
  set (dir := verify_dir ext w p f).
  unfold verificationChecks, command_ok, ran_all.
  cbn [fmap list_fmap fst snd forallb List.find until_failure].
  rewrite run_bind.
  destruct (shell (env w) "npm run lint" dir) as [o1 e1|x1] eqn:H1;
    [rewrite (run_checks_pass ext _ _ _ _ _ _ _ _ H1)
    | rewrite (run_checks_stop ext _ _ _ x1 _ _ _ H1); run_simpl; reflexivity].
  destruct (shell (env w) "npm run typecheck" dir) as [o2 e2|x2] eqn:H2;
    [rewrite (run_checks_pass ext _ _ _ o2 e2); [| exact H2]
    | rewrite (run_checks_stop ext _ _ _ x2); [| exact H2]; run_simpl; reflexivity].
  destruct (shell (env w) "npm test" dir) as [o3 e3|x3] eqn:H3;
    [rewrite (run_checks_pass ext _ _ _ o3 e3); [| exact H3]
    | rewrite (run_checks_stop ext _ _ _ x3); [| exact H3]; run_simpl; reflexivity].
  destruct (shell (env w) "npm run build" dir) as [o4 e4|x4] eqn:H4;
    [rewrite (run_checks_pass ext _ _ _ o4 e4); [| exact H4]
    | rewrite (run_checks_stop ext _ _ _ x4); [| exact H4]; run_simpl; reflexivity].
  cbn [run_checks]. run_simpl. reflexivity.
Qed.

End VerificationOutcomes.

(** ** Commits that do not fail *)

Section CommitOutcomes.

Context (ext : External).

(** X5. When [git status --porcelain] prints nothing but
    white space, [commitFeature] returns [null] after that one command:
    nothing is staged, nothing is committed and no event is sent. *)
Theorem commit_clean_tree (w : World) (p f out err : string) (provided : option string) :
  let dir := commit_dir ext w p f provided in
  shell (env w) "git status --porcelain" dir = ExecOk out err ->
  JS.is_empty (JS.trim out) = true ->
  run (commitFeature ext p f provided) w =
    (record (Ran (Shell "git status --porcelain") dir) w, Fulfilled None).
Proof.
  intros dir Hstatus Hclean. unfold commitFeature.
  rewrite run_bind, run_commit_dir. cbn beta iota zeta. fold dir. run_simpl.
  rewrite (run_shell_ok ext _ _ _ _ _ Hstatus). run_simpl.
  cbn [fst]. rewrite Hclean. run_simpl. reflexivity.
Qed.

(** X6. When the work tree has changes and the four git
    commands succeed, [commitFeature] runs status, add, commit and
    rev-parse in this order in the same directory, sends a completion event
    with the first eight characters of the hash, and returns the trimmed
    hash. *)
Theorem commit_success (w : World) (p f : string) (provided : option string)
    (out err out1 err1 out2 err2 hash err3 : string) :
  let dir := commit_dir ext w p f provided in
  let commit := git_commit_command (commit_message (featureFiles w !! (p, f)) f) in
  shell (env w) "git status --porcelain" dir = ExecOk out err ->
  JS.is_empty (JS.trim out) = false ->
  shell (env w) "git add -A" dir = ExecOk out1 err1 ->
  shell (env w) (command_line commit) dir = ExecOk out2 err2 ->
  shell (env w) "git rev-parse HEAD" dir = ExecOk hash err3 ->
  run (commitFeature ext p f provided) w =
    (record
       (Emitted (auto_mode_feature_complete f true
                   ("Changes committed: " +:+ JS.substring0 8 (JS.trim hash)) None))
       (record (Ran (Shell "git rev-parse HEAD") dir)
          (record (Ran commit dir)
             (record (Ran (Shell "git add -A") dir)
                (record (Ran (Shell "git status --porcelain") dir) w)))),
     Fulfilled (Some (JS.trim hash))).
Proof.
  intros dir commit Hstatus Hchanged Hadd Hcommit Hhash. unfold commitFeature.
  rewrite run_bind, run_commit_dir. cbn beta iota zeta. fold dir. run_simpl.
  rewrite (run_shell_ok ext _ _ _ _ _ Hstatus). run_simpl.
  cbn [fst]. rewrite Hchanged. run_simpl. cbn [featureFiles record].
  rewrite (run_shell_ok ext _ _ out1 err1); [| exact Hadd]. run_simpl.
  fold commit. unfold commit, git_commit_command in *. cbn [command_line] in Hcommit.
  rewrite (run_shell_ok ext _ _ out2 err2); [| exact Hcommit]. run_simpl.
  rewrite (run_shell_ok ext _ _ hash err3); [| exact Hhash]. run_simpl.
  reflexivity.
Qed.

End CommitOutcomes.

Lemma commit_clean_tree_witness :
  let w := Demo.world (Demo.environment Demo.quiet_shell []) (Demo.feature "waiting_approval" None) in
  run (commitFeature Demo.ext "/proj" "f1" None) w =
    (record (Ran (Shell "git status --porcelain") "/proj") w, Fulfilled None).
Proof.
  cbv zeta.
  exact (commit_clean_tree Demo.ext
           (Demo.world (Demo.environment Demo.quiet_shell [])
              (Demo.feature "waiting_approval" None))
           "/proj" "f1" EmptyString EmptyString None eq_refl eq_refl).
Defined.

Lemma commit_success_witness :
  let w := Demo.world (Demo.environment Demo.commit_ok []) (Demo.feature "waiting_approval" None) in
  snd (run (commitFeature Demo.ext "/proj" "f1" None) w)
    = Fulfilled (Some "0123456789abcdef0123456789abcdef01234567")
  /\ last (log (fst (run (commitFeature Demo.ext "/proj" "f1" None) w)))
     = Some (Emitted (auto_mode_feature_complete "f1" true "Changes committed: 01234567" None)).
Proof.
  cbv zeta.
  rewrite (commit_success Demo.ext
             (Demo.world (Demo.environment Demo.commit_ok [])
                (Demo.feature "waiting_approval" None)) "/proj" "f1" None
             (" M src/login.ts" +:+ lf) EmptyString EmptyString EmptyString
             EmptyString EmptyString
             ("0123456789abcdef0123456789abcdef01234567" +:+ lf) EmptyString);
    try reflexivity.
  split; reflexivity.
Defined.

(** ** The text of the transcript *)

(** X7. A text block added to a transcript that is not empty
    is set off by an empty line: the text that precedes it is made to end
    with two line feeds, with no more line feeds added than are missing. A
    block added to an empty transcript is added as it is. *)
Theorem text_blocks_separated (t : option string) (r : string) :
  append_text t EmptyString = or_empty t
  /\ (r <> EmptyString ->
      exists pad,
        append_text t r = (r +:+ pad) +:+ or_empty t
        /\ JS.endsWith (lf +:+ lf) (r +:+ pad) = true
        /\ (String.length pad <= 2)%nat
        /\ (JS.endsWith (lf +:+ lf) r = true -> pad = EmptyString)).
Proof.
  split; [reflexivity |].
  intros Hr. unfold append_text.
  destruct r as [|c r]; [now elim Hr |]. cbn [JS.is_empty negb andb].
  destruct (JS.endsWith (lf +:+ lf) (String c r)) eqn:E2; cbn [negb].
  - exists EmptyString. rewrite JSFacts.append_empty_r.
    split; [reflexivity |]. split; [exact E2 |]. split; [simpl; lia | reflexivity].
  - destruct (JS.endsWith lf (String c r)) eqn:E1.
    + exists lf. split; [reflexivity |]. split; [| split; [simpl; lia | discriminate]].
      apply JSFacts.endsWith_inv in E1 as [r0 ->].
      rewrite JSFacts.append_assoc. apply JSFacts.endsWith_append.
    + exists (lf +:+ lf).
      split; [now rewrite !JSFacts.append_assoc |].
      split; [apply JSFacts.endsWith_append |]. split; [simpl; lia | discriminate].
Qed.

Lemma text_blocks_separated_witness :
  append_text (Some "second") "first" = "first" +:+ lf +:+ lf +:+ "second".
Proof.
  destruct (proj2 (text_blocks_separated (Some "second") "first")) as (pad & H & _);
    [discriminate |].
  reflexivity.
Defined.

(** ** The feature store *)

(** The feature store after a status update. *)
Lemma featureFiles_status_written (p f s : string) (w : World) :
  featureFiles (status_written p f s w) =
    match featureFiles w !! (p, f) with
    | Some F =>
        if feature_write_ok (env w) p f (set_status s (clock w) F)
        then <[(p, f) := set_status s (clock w) F]> (featureFiles w)
        else featureFiles w
    | None => featureFiles w
    end.
Proof.
  unfold status_written.
  destruct (featureFiles w !! (p, f)); [destruct (feature_write_ok _ _ _ _) |];
    reflexivity.
Qed.

Lemma clock_status_written (p f s : string) (w : World) :
  clock (status_written p f s w) = clock w.
Proof.
  unfold status_written.
  destruct (featureFiles w !! (p, f)); [destruct (feature_write_ok _ _ _ _) |];
    reflexivity.
Qed.

(** A status update overwrites all that an earlier one wrote. *)
Lemma set_status_twice (s1 s2 : string) (now : Z) (F : Feature) :
  set_status s2 now (set_status s1 now F) = set_status s2 now F.
Proof. reflexivity. Qed.

(** X8. [updateFeatureStatus] never fails, whether it cannot read the
    record or cannot write it. Of two updates of a feature [F], between
    which the outside world may change, the second decides the record when
    its write succeeds, whatever the first wrote or failed to write; when
    its write fails, the record stays as the first update left it. The
    records of other features are not touched, and a feature without a
    record gets none. *)
Theorem update_status_last_wins (p f s1 s2 : string) (later : Env) (w : World) :
  let first := run (updateFeatureStatus p f s1) w in
  let second := run (updateFeatureStatus p f s2) (with_env later (fst first)) in
  snd first = Fulfilled tt
  /\ snd second = Fulfilled tt
  /\ (forall F, featureFiles w !! (p, f) = Some F ->
        if feature_write_ok later p f (set_status s2 (clock w) F) then
          featureFiles (fst second) !! (p, f) = Some (set_status s2 (clock w) F)
        else featureFiles (fst second) = featureFiles (fst first))
  /\ (forall k, k <> (p, f) -> featureFiles (fst second) !! k = featureFiles w !! k)
  /\ (featureFiles w !! (p, f) = None -> featureFiles (fst second) = featureFiles w).
Proof.
  cbv zeta. rewrite !run_updateFeatureStatus. cbn [fst snd].
  split; [reflexivity |]. split; [reflexivity |].
  set (w1 := status_written p f s1 w).
  assert (Hclock : clock w1 = clock w) by apply clock_status_written.
  assert (Hfirst : forall F, featureFiles w !! (p, f) = Some F ->
            exists F1, featureFiles w1 !! (p, f) = Some F1
                       /\ set_status s2 (clock w) F1 = set_status s2 (clock w) F).
  { intros F E. subst w1. rewrite featureFiles_status_written, E.
    destruct (feature_write_ok _ _ _ _).
    - eexists. split; [apply lookup_insert_eq | apply set_status_twice].
    - exists F. now split. }
  assert (Hothers : forall k, k <> (p, f) -> featureFiles w1 !! k = featureFiles w !! k).
  { intros k Hk. subst w1. rewrite featureFiles_status_written.
    destruct (featureFiles w !! (p, f)); [destruct (feature_write_ok _ _ _ _) |];
      try reflexivity.
    now rewrite lookup_insert_ne by congruence. }
  rewrite featureFiles_status_written.
  cbn [featureFiles with_env env clock]. rewrite Hclock.
  destruct (featureFiles w !! (p, f)) as [F|] eqn:E.
  - destruct (Hfirst F eq_refl) as (F1 & H1 & H2). rewrite H1, H2.
    split; [| split].
    + intros F' HF'. injection HF' as <-.
      destruct (feature_write_ok later p f (set_status s2 (clock w) F));
        [apply lookup_insert_eq | reflexivity].
    + intros k Hk. destruct (feature_write_ok later p f _); [| now apply Hothers].
      rewrite lookup_insert_ne by congruence. now apply Hothers.
    + discriminate.
  - assert (Hsame : w1 = w) by (subst w1; unfold status_written; now rewrite E).
    rewrite Hsame, E. repeat split; try reflexivity. discriminate.
Qed.

(** ** Stopping twice *)

(** X9. [stopFeature] is idempotent: a second call returns
    what the first returned and leaves the state the first left. *)
Theorem stop_idempotent (f : string) (w : World) :
  run (stopFeature f ;; stopFeature f) w = run (stopFeature f) w.
Proof.
  unfold stopFeature. run_simpl.
  destruct (runningFeatures w !! f) as [r|] eqn:E; run_simpl.
  - cbn [runningFeatures with_aborted]. rewrite E. run_simpl.
    unfold with_aborted. cbn. do 2 f_equal.
    now rewrite (assoc_L (∪)), union_idemp_L.
  - rewrite E. reflexivity.
Qed.

(** ** What a run adds to the log *)

#[local] Instance grows_by_preorder (P : Effect -> Prop) : PreOrder (grows_by P).
Proof.
  split.
  - intros w. exists []. split; [now rewrite app_nil_r | constructor].
  - intros w1 w2 w3 (l1 & H1 & F1) (l2 & H2 & F2). exists (l1 ++ l2)%list. split.
    + now rewrite H2, H1, app_assoc.
    + apply Forall_app. now split.
Qed.

Lemma grows_by_same (P : Effect -> Prop) (w w' : World) :
  log w' = log w -> grows_by P w w'.
Proof. intros H. exists []. split; [now rewrite app_nil_r | constructor]. Qed.

Lemma grows_by_record (P : Effect -> Prop) (e : Effect) (w w0 : World) :
  log w0 = log w -> P e -> grows_by P w (record e w0).
Proof. intros H He. exists [e]. split; [cbn; now rewrite H | now constructor]. Qed.

Lemma grows_by_weaken (P Q : Effect -> Prop) (w w' : World) :
  (forall e, P e -> Q e) -> grows_by P w w' -> grows_by Q w w'.
Proof.
  intros H (l & Hl & Hall). exists l. split; [exact Hl |].
  eapply Forall_impl; [exact Hall | exact H].
Qed.

Lemma silent_grows_by (w w' : World) : silent w w' -> grows_by is_process_effect w w'.
Proof. intros H. exact H. Qed.

Section AgentOutput.

Context (ext : External).

Lemma output_emit (e : AutoModeEvent) :
  is_agent_event e = true -> preserves (grows_by is_agent_output) (emitAutoModeEvent e).
Proof. intros H. apply preserves_modify. intros w. now apply grows_by_record. Qed.

Lemma output_update_run (rid : nat) (g : AgentRun -> AgentRun) :
  preserves (grows_by is_agent_output) (update_run rid g).
Proof. apply preserves_modify. intros w. now apply grows_by_same. Qed.

Lemma output_fs_mkdir (path : string) :
  preserves (grows_by is_agent_output) (fs_mkdir path).
Proof.
  apply preserves_promise. intros w. cbn beta.
  destruct (mkdir_ok (env w) path); now apply grows_by_same.
Qed.

Lemma output_fs_writeFile_context (p f c : string) :
  preserves (grows_by is_agent_output) (fs_writeFile_context p f c).
Proof.
  apply preserves_promise. intros w. cbn beta.
  destruct (transcript_write_ok (env w) p f); cbn [fst].
  - now apply grows_by_record.
  - now apply grows_by_same.
Qed.

Lemma output_fs_writeFile (path c : string) :
  preserves (grows_by is_agent_output) (fs_writeFile path c).
Proof.
  apply preserves_promise. intros w. cbn beta.
  destruct (file_write_ok (env w) path); cbn [fst].
  - now apply grows_by_record.
  - now apply grows_by_same.
Qed.

Lemma output_modify_agentRuns (g : gmap nat AgentRun -> gmap nat AgentRun) :
  preserves (grows_by is_agent_output) (modify (with_agentRuns g)).
Proof. apply preserves_modify. intros w. now apply grows_by_same. Qed.

End AgentOutput.

#[local] Hint Resolve output_update_run output_fs_mkdir output_fs_writeFile_context
  output_fs_writeFile output_modify_agentRuns : frame.
#[local] Hint Extern 2 (preserves (grows_by is_agent_output) (emitAutoModeEvent _)) =>
  (apply output_emit; reflexivity) : frame.

Section AgentOutputLoops.

Context (ext : External).

Lemma output_consume_blocks (rid : nat) (f : string) (blocks : list ContentBlock) :
  preserves (grows_by is_agent_output) (consume_blocks ext rid f blocks).
Proof.
  induction blocks as [|b rest IH]; cbn [consume_blocks]; [frame_tac |].
  destruct b; unfold scheduleWrite; frame_tac.
Qed.

Lemma output_consume_stream (rid : nat) (f : string) (items : list StreamItem) :
  preserves (grows_by is_agent_output) (consume_stream ext rid f items).
Proof.
  pose proof output_consume_blocks.
  induction items as [|i rest IH]; cbn [consume_stream]; unfold scheduleWrite; frame_tac.
Qed.

Lemma output_writeToFile (rid : nat) (p f : string) :
  preserves (grows_by is_agent_output) (writeToFile ext rid p f).
Proof. unfold writeToFile. frame_tac. Qed.

(** In either mode the agent adds to the log progress and tool events
    and writes of files, and nothing else. *)
Lemma output_runAgent (workDir f prompt : string) (rid : nat) (p : string)
    (imgs : option (list string)) (model prev : option string) :
  preserves (grows_by is_agent_output) (runAgent ext workDir f prompt rid p imgs model prev).
Proof.
  pose proof output_writeToFile. pose proof output_consume_stream.
  unfold runAgent, sleep, clearWriteTimeout. frame_tac.
Qed.

End AgentOutputLoops.

Section RunShape.

Context (ext : External).

Lemma status_written_output (p f s : string) (w : World) :
  grows_by is_run_output w (status_written p f s w).
Proof.
  unfold status_written.
  destruct (featureFiles w !! (p, f)); [destruct (feature_write_ok _ _ _ _) |].
  - now apply grows_by_record.
  - reflexivity.
  - reflexivity.
Qed.

Lemma failed_log (p f : string) (e : JsError) (w : World) :
  exists body closing,
    log (failed ext p f e w) = (log w ++ body ++ [Emitted closing])%list
    /\ Forall is_run_output body /\ closes f closing.
Proof.
  unfold failed. cbv zeta. destruct (isAbort (classifyError ext e)).
  - exists [], (auto_mode_feature_complete f false "Feature stopped by user" (Some p)).
    split; [reflexivity |]. split; [constructor | exact eq_refl].
  - destruct (status_written_output p f "backlog" w) as (l & Hl & Hall).
    exists l. eexists. split; [cbn [log record]; rewrite Hl, <- app_assoc; reflexivity |].
    split; [exact Hall | exact eq_refl].
Qed.

(** The log of the guarded part of a run: the child processes of the
    work-tree set-up, then the writes of the record and the output of the
    agent, then one event that ends the run. *)
Lemma guarded_log (p f : string) (u auto : bool) (ac : nat)
    (prompt_of : Feature -> string) (prev : option string) (label : string) (w0 : World) :
  exists tree body closing,
    log (fst (run (guarded_run ext p f u auto ac prompt_of prev label) w0))
      = (log w0 ++ tree ++ body ++ [Emitted closing])%list
    /\ Forall is_process_effect tree
    /\ Forall is_run_output body
    /\ closes f closing
    /\ (u = false -> tree = []).
Proof.
  destruct (featureFiles w0 !! (p, f)) as [F|] eqn:HF.
  - rewrite (guarded_present ext p f u auto ac prompt_of prev label F w0 HF).
    unfold guarded_result. cbv zeta.
    assert (Htree : exists tree,
               log (fst (run (deriveWorktree ext p f u (or_null (f_branchName F))) w0))
                 = (log w0 ++ tree)%list
               /\ Forall is_process_effect tree /\ (u = false -> tree = [])).
    { destruct u.
      - destruct (quiet_deriveWorktree ext p f true (or_null (f_branchName F)) w0)
          as (_ & (tree & Ht & Hp) & _).
        exists tree. split; [exact Ht |]. split; [exact Hp | discriminate].
      - exists []. split; [cbn; now rewrite app_nil_r |]. split; [constructor | reflexivity]. }
    destruct Htree as (tree & Ht & Hp & Hu).
    pose proof (settles_deriveWorktree ext p f u (or_null (f_branchName F)) w0) as Hs.
    destruct (run (deriveWorktree ext p f u (or_null (f_branchName F))) w0)
      as [w1 [wt|e|]] eqn:E1; cbn [fst snd] in *; [| | now elim Hs].
    + set (w3 := status_written p f "in_progress" _).
      assert (H3 : exists l3, log w3 = (log w1 ++ l3)%list /\ Forall is_run_output l3).
      { subst w3.
        destruct (status_written_output p f "in_progress"
                    (registered p f wt (or_null (f_branchName F)) ac auto w1))
          as (l3 & Hl3 & Hall3).
        exists l3. split; [exact Hl3 | exact Hall3]. }
      destruct H3 as (l3 & Hl3 & Hall3).
      match goal with
      | |- context [run (runAgent ?x1 ?x2 ?x3 ?x4 ?x5 ?x6 ?x7 ?x8 ?x9) w3] =>
          pose proof (output_runAgent x1 x2 x3 x4 x5 x6 x7 x8 x9 w3) as (l4 & Hl4 & Hall4);
          pose proof (settles_runAgent x1 x2 x3 x4 x5 x6 x7 x8 x9 w3) as Hs4;
          destruct (run (runAgent x1 x2 x3 x4 x5 x6 x7 x8 x9) w3) as [w4 [[]|e|]] eqn:E4
      end; cbn [fst snd] in *; [| | now elim Hs4].
      * destruct (status_written_output p f "waiting_approval" w4) as (l5 & Hl5 & Hall5).
        exists tree, (l3 ++ l4 ++ l5)%list. eexists.
        split.
        { cbn [log cleanup completed record with_runningFeatures].
          rewrite Hl5, Hl4, Hl3, Ht. rewrite <- !app_assoc. reflexivity. }
        split; [exact Hp |]. split; [| split; [exact eq_refl | exact Hu]].
        apply Forall_app. split; [exact Hall3 |]. apply Forall_app. split; [| exact Hall5].
        eapply Forall_impl; [exact Hall4 |]. intros [] Hx; cbn in *; tauto.
      * destruct (failed_log p f e w4) as (body & closing & Hb & Hallb & Hc).
        exists tree, (l3 ++ l4 ++ body)%list, closing.
        split; [| split; [exact Hp | split; [| split; [exact Hc | exact Hu]]]].
        -- cbn [log cleanup with_runningFeatures].
           rewrite Hb, Hl4, Hl3, Ht. rewrite <- !app_assoc. reflexivity.
        -- apply Forall_app. split; [exact Hall3 |]. apply Forall_app. split; [| exact Hallb].
           eapply Forall_impl; [exact Hall4 |]. intros [] Hx; cbn in *; tauto.
    + destruct (failed_log p f e w1) as (body & closing & Hb & Hallb & Hc).
      exists tree, body, closing.
      split; [| split; [exact Hp | split; [exact Hallb | split; [exact Hc | exact Hu]]]].
      cbn [log cleanup with_runningFeatures]. rewrite Hb, Ht. rewrite <- !app_assoc.
      reflexivity.
  - rewrite (guarded_absent ext p f u auto ac prompt_of prev label w0 HF). cbn [fst].
    destruct (failed_log p f (not_found f) w0) as (body & closing & Hb & Hallb & Hc).
    exists [], body, closing.
    split; [exact Hb |]. split; [constructor |]. split; [exact Hallb |].
    split; [exact Hc | reflexivity].
Qed.


(** X11. With work trees disabled [executeFeature] starts no
    child process: neither git nor any other command is run, whatever the
    feature record says about a branch. *)
Theorem no_process_without_worktrees (d : nat) (p f : string) (a : bool) (w : World) :
  exists l,
    log (fst (run (executeFeature ext d p f false a) w)) = (log w ++ l)%list
    /\ Forall (fun e => ~ is_process_effect e) l.
Proof.
  destruct (runningFeatures w !! f) as [r|] eqn:H.
  - exists []. split; [| constructor]. rewrite app_nil_r.
    destruct d; cbn; unfold is_running; rewrite H;
      (rewrite bool_decide_eq_true_2 by eauto); reflexivity.
  - rewrite (run_executeFeature ext d p f false a w H).
    assert (Hout : forall e, is_run_output e -> ~ is_process_effect e).
    { intros [] Hx; cbn in *; tauto. }
    destruct (contextFiles w !! (p, f)) as [context|].
    + rewrite (run_executeFeatureWithContext ext p f context false w H).
      destruct (guarded_log p f false false (controllers w)
                  (fun feature => continue_prompt ext feature context) (Some context)
                  "Feature resumed and completed in "
                  (started p f "Resuming..." "Feature is resuming from previous context" w))
        as (tree & body & closing & Hl & _ & Hb & _ & Hu).
      rewrite (Hu eq_refl) in Hl. eexists. split.
      * rewrite Hl. cbn [log started record with_controllers with_aborted app].
        rewrite <- !app_assoc. reflexivity.
      * cbn [app]. constructor; [tauto |]. apply Forall_app. split.
        -- eapply Forall_impl; [exact Hb | exact Hout].
        -- constructor; [cbn; tauto | constructor].
    + rewrite run_executeFeature_fresh.
      destruct (guarded_log p f false a (controllers w) (buildFeaturePrompt ext) None
                  "Feature completed in " (started p f "Loading..." "Feature is starting" w))
        as (tree & body & closing & Hl & _ & Hb & _ & Hu).
      rewrite (Hu eq_refl) in Hl. eexists. split.
      * rewrite Hl. cbn [log started record with_controllers with_aborted app].
        rewrite <- !app_assoc. reflexivity.
      * cbn [app]. constructor; [tauto |]. apply Forall_app. split.
        -- eapply Forall_impl; [exact Hb | exact Hout].
        -- constructor; [cbn; tauto | constructor].
Qed.

End RunShape.


(** ** The mock agent *)

Section MockAgent.

Context (ext : External).

(** X12. With [AUTOMAKER_MOCK_AGENT] set, [runAgent] does not query
    the provider and does not look at the abort controller: it sends three
    progress events, writes [yellow.txt] in the work directory and replaces
    the transcript by the mock output, whatever the previous content. *)
Theorem mock_agent_run (workDir f prompt : string) (rid : nat) (p : string)
    (imgs : option (list string)) (model prev : option string) (w : World) :
  mockAgent (env w) = true ->
  file_write_ok (env w) (path_join ext workDir "yellow.txt") = true ->
  mkdir_ok (env w) (getFeatureDir ext p f) = true ->
  transcript_write_ok (env w) p f = true ->
  let w' := fst (run (runAgent ext workDir f prompt rid p imgs model prev) w) in
  snd (run (runAgent ext workDir f prompt rid p imgs model prev) w) = Fulfilled tt
  /\ contextFiles w' !! (p, f) = Some mockOutput
  /\ agentRuns w' = agentRuns w
  /\ log w' =
       (log w ++
        [ Emitted (auto_mode_progress f (Some "Mock agent: Analyzing the codebase..."));
          Emitted (auto_mode_progress f (Some "Mock agent: Implementing the feature..."));
          FileWritten (path_join ext workDir "yellow.txt") "yellow";
          Emitted (auto_mode_progress f
                     (Some "Mock agent: Created yellow.txt file with content 'yellow'"));
          TranscriptWritten p f mockOutput ])%list.
Proof.
  intros Hmock Hfile Hdir Hwrite. cbv zeta.
  unfold runAgent, sleep, emitAutoModeEvent, fs_writeFile, fs_mkdir, fs_writeFile_context.
  rewrite run_bind, run_read. cbn beta iota. rewrite Hmock.
  run_simpl. rewrite run_promise. cbn [env record]. rewrite Hfile.
  run_simpl. rewrite run_promise. cbn [env record]. rewrite Hdir.
  run_simpl. rewrite run_promise. cbn [env record with_dirs]. rewrite Hwrite.
  cbn [fst snd].
  split; [reflexivity |]. split; [cbn; apply lookup_insert_eq |].
  split; [reflexivity |].
  cbn. rewrite <- !app_assoc. reflexivity.
Qed.

End MockAgent.

Lemma mock_agent_run_witness :
  let w := Demo.world (Demo.mock_environment [Demo.say "never read"])
             (Demo.feature "in_progress" None) in
  contextFiles
    (fst (run (runAgent Demo.ext "/proj" "f1" "prompt" 0 "/proj" None None (Some "history"))
            (with_aborted (fun a => {[0]} ∪ a) w)))
    !! ("/proj", "f1") = Some mockOutput.
Proof.
  cbv zeta.
  apply (mock_agent_run Demo.ext "/proj" "f1" "prompt" 0 "/proj" None None (Some "history")
           (with_aborted (fun a => {[0]} ∪ a)
              (Demo.world (Demo.mock_environment [Demo.say "never read"])
                 (Demo.feature "in_progress" None))));
    reflexivity.
Defined.

(** ** Calls that end early, and calls that are redirected *)

Section EarlyEnds.

Context (ext : External).

(** X13. [executeFeature] for a feature that has no record does
    not fail: it sends the start event and then an error event that says
    the feature was not found, starts no agent, writes no record and leaves
    the registry as it was. *)
Theorem execute_missing_feature (d : nat) (p f : string) (u a : bool) (w : World) :
  runningFeatures w !! f = None ->
  contextFiles w !! (p, f) = None ->
  featureFiles w !! (p, f) = None ->
  isAbort (classifyError ext (not_found f)) = false ->
  let info := classifyError ext (not_found f) in
  let w' := fst (run (executeFeature ext d p f u a) w) in
  snd (run (executeFeature ext d p f u a) w) = Fulfilled tt
  /\ log w' =
       (log w ++
        [ Emitted (auto_mode_feature_start f p (StartStub f "Loading..." "Feature is starting"));
          Emitted (auto_mode_error f (message info)
                     (Some (if isAuth info then "authentication" else "execution"))
                     (Some p)) ])%list
  /\ featureFiles w' = featureFiles w
  /\ runningFeatures w' = runningFeatures w
  /\ agentRuns w' = agentRuns w.
Proof.
  intros Hrun Hctx HF Hab. cbv zeta.
  rewrite (run_executeFeature ext d p f u a w Hrun), Hctx, run_executeFeature_fresh.
  rewrite guarded_absent by exact HF.
  cbn [fst snd]. unfold failed. cbv zeta. rewrite Hab.
  unfold status_written. cbn [featureFiles started record with_controllers with_aborted].
  rewrite HF.
  split; [reflexivity |]. split; [cbn; now rewrite <- app_assoc |].
  split; [reflexivity |]. split; [| reflexivity].
  cbn. now apply MapFacts.delete_absent.
Qed.

(** X14. For a feature that has a transcript, [executeFeature]
    does what [resumeFeature] does: the run continues the transcript, and
    the [isAutoMode] argument has no effect. *)
Theorem execute_with_transcript_resumes (d : nat) (p f T : string) (u a : bool) (w : World) :
  contextFiles w !! (p, f) = Some T ->
  run (executeFeature ext d p f u a) w = run (resumeFeature ext d p f u) w
  /\ run (executeFeature ext d p f u a) w = run (executeFeatureWithContext ext p f T u) w.
Proof.
  intros Hctx.
  assert (Hresume : run (resumeFeature ext d p f u) w
                    = run (executeFeatureWithContext ext p f T u) w).
  { rewrite run_resumeFeature, Hctx. reflexivity. }
  rewrite Hresume.
  enough (run (executeFeature ext d p f u a) w
          = run (executeFeatureWithContext ext p f T u) w) by now split.
  destruct (runningFeatures w !! f) as [r|] eqn:Hrun.
  - unfold executeFeatureWithContext, is_running.
    rewrite run_bind, run_read. cbn beta iota.
    rewrite Hrun, bool_decide_eq_true_2 by eauto.
    destruct d; cbn; unfold is_running; rewrite Hrun;
      (rewrite bool_decide_eq_true_2 by eauto); reflexivity.
  - rewrite (run_executeFeature ext d p f u a w Hrun), Hctx. reflexivity.
Qed.

Lemma failed_registry (p f : string) (e : JsError) (w0 : World) :
  runningFeatures (failed ext p f e w0) = runningFeatures w0.
Proof.
  unfold failed. cbv zeta. destruct (isAbort _); [reflexivity |].
  cbn. apply stable_status_written_registry.
Qed.

Lemma guarded_restores_registry (p f : string) (u auto : bool) (ac : nat)
    (prompt_of : Feature -> string) (prev : option string) (label : string) (w0 : World) :
  runningFeatures w0 !! f = None ->
  runningFeatures (fst (run (guarded_run ext p f u auto ac prompt_of prev label) w0))
  = runningFeatures w0.
Proof.
  intros H0.
  destruct (featureFiles w0 !! (p, f)) as [F|] eqn:HF.
  - rewrite (guarded_present ext p f u auto ac prompt_of prev label F w0 HF).
    unfold guarded_result. cbv zeta.
    pose proof (quiet_deriveWorktree ext p f u (or_null (f_branchName F)) w0)
      as ((Hreg1 & _) & _).
    pose proof (settles_deriveWorktree ext p f u (or_null (f_branchName F)) w0) as Hs.
    destruct (run (deriveWorktree ext p f u (or_null (f_branchName F))) w0)
      as [w1 [wt|e|]]; cbn [fst snd] in *; [| | now elim Hs].
    + set (w3 := status_written p f "in_progress" _).
      assert (H3 : runningFeatures w3
                   = <[f := mkRunning f p wt (or_null (f_branchName F)) ac auto (clock w1)]>
                       (runningFeatures w0)).
      { subst w3. rewrite stable_status_written_registry. cbn. now rewrite Hreg1. }
      match goal with
      | |- context [run (runAgent ?x1 ?x2 ?x3 ?x4 ?x5 ?x6 ?x7 ?x8 ?x9) w3] =>
          pose proof (framed_runAgent x1 x2 x3 x4 x5 x6 x7 x8 x9 w3) as ((Hreg4 & _) & _);
          pose proof (settles_runAgent x1 x2 x3 x4 x5 x6 x7 x8 x9 w3) as Hs4;
          destruct (run (runAgent x1 x2 x3 x4 x5 x6 x7 x8 x9) w3) as [w4 [[]|e|]]
      end; cbn [fst snd] in *; [| | now elim Hs4].
      * cbn. rewrite stable_status_written_registry, Hreg4, H3.
        now apply MapFacts.delete_set.
      * cbn. rewrite failed_registry, Hreg4, H3.
        now apply MapFacts.delete_set.
    + cbn. rewrite failed_registry, Hreg1. now apply MapFacts.delete_absent.
  - rewrite (guarded_absent ext p f u auto ac prompt_of prev label w0 HF).
    cbn. rewrite failed_registry. now apply MapFacts.delete_absent.
Qed.

(** X15. A call of [executeFeature] or of [resumeFeature] for a
    feature that is not running leaves the registry exactly as it found
    it: its own entry is gone and no entry of another feature is touched. *)
Theorem run_restores_registry (d : nat) (p f : string) (u a : bool) (w : World) :
  runningFeatures w !! f = None ->
  runningFeatures (fst (run (executeFeature ext d p f u a) w)) = runningFeatures w
  /\ runningFeatures (fst (run (resumeFeature ext d p f u) w)) = runningFeatures w.
Proof.
  intros H.
  assert (Hexec : forall a0,
             runningFeatures (fst (run (executeFeature ext d p f u a0) w))
             = runningFeatures w).
  { intros a0. rewrite (run_executeFeature ext d p f u a0 w H).
    destruct (contextFiles w !! (p, f)) as [context|].
    - rewrite (run_executeFeatureWithContext ext p f context u w H).
      rewrite guarded_restores_registry; [reflexivity | exact H].
    - rewrite run_executeFeature_fresh.
      rewrite guarded_restores_registry; [reflexivity | exact H]. }
  split; [apply Hexec |].
  rewrite run_resumeFeature.
  destruct (contextFiles w !! (p, f)) as [context|]; [| apply Hexec].
  rewrite (run_executeFeatureWithContext ext p f context u w H).
  rewrite guarded_restores_registry; [reflexivity | exact H].
Qed.

End EarlyEnds.

(** ** Looking a branch up in the list of work trees *)

Section Lookup.

Context (ext : External).

Lemma split_entry_app (path head branch rest : string) :
  JS.single_line path = true -> JS.single_line head = true ->
  JS.single_line branch = true ->
  JS.split_nl (worktree_entry path head branch +:+ rest) =
    ([ "worktree " +:+ path; "HEAD " +:+ head; "branch refs/heads/" +:+ branch;
       EmptyString ] ++ JS.split_nl rest)%list.
Proof.
  intros Hp Hh Hb. unfold worktree_entry.
  assert (Heq : ("worktree " +:+ path +:+ lf +:+ "HEAD " +:+ head +:+ lf +:+
                 "branch refs/heads/" +:+ branch +:+ lf +:+ lf) +:+ rest
                = ("worktree " +:+ path) +:+ String JS.nl
                    (("HEAD " +:+ head) +:+ String JS.nl
                       (("branch refs/heads/" +:+ branch) +:+ String JS.nl
                          (EmptyString +:+ String JS.nl rest)))).
  { rewrite !JSFacts.append_assoc. reflexivity. }
  rewrite Heq, !JSFacts.split_nl_app_nl.
  rewrite (JSFacts.split_nl_single_line ("worktree " +:+ path)),
    (JSFacts.split_nl_single_line ("HEAD " +:+ head)),
    (JSFacts.split_nl_single_line ("branch refs/heads/" +:+ branch));
    [reflexivity | | | ]; rewrite JSFacts.single_line_append; cbn; assumption.
Qed.

(** The scan of one record, from the state in which the loop starts and
    in which every record that does not match leaves it. *)
Lemma scan_loop_entry (p path head branch b : string) :
  JS.truthy path = true -> JS.truthy branch = true ->
  scan_loop ext p b
    [ "worktree " +:+ path; "HEAD " +:+ head; "branch refs/heads/" +:+ branch;
      EmptyString ] None None
  = if String.eqb branch b then inl (Some (resolve_listed ext p path))
    else inr (None, None).
Proof.
  intros Hp Hb.
  cbn [scan_loop]. unfold JS.startsWith.
  rewrite (JSFacts.prefix_append "worktree " path).
  change (JS.slice 9 ("worktree " +:+ path)) with path.
  change (String.prefix "worktree " ("HEAD " +:+ head)) with false. cbn iota.
  change (String.prefix "branch " ("HEAD " +:+ head)) with false. cbn iota.
  change (JS.is_empty ("HEAD " +:+ head)) with false. cbn iota.
  change (String.prefix "worktree " ("branch refs/heads/" +:+ branch)) with false. cbn iota.
  change (String.prefix "branch " ("branch refs/heads/" +:+ branch)) with true. cbn iota.
  change (JS.slice 7 ("branch refs/heads/" +:+ branch)) with ("refs/heads/" +:+ branch).
  rewrite remove_first_append.
  change (String.prefix "worktree " EmptyString) with false.
  change (String.prefix "branch " EmptyString) with false.
  cbn iota. change (JS.is_empty EmptyString) with true.
  unfold or_null. rewrite Hp, Hb. cbn iota.
  destruct (String.eqb branch b); reflexivity.
Qed.

Lemma scan_listing (p b : string) (entries : list (string * string * string)) :
  Forall well_listed entries ->
  scan_worktrees ext p b (JS.split_nl (listing_of entries)) None None
  = (fun e => resolve_listed ext p e.1.1) <$> List.find (fun e => String.eqb e.2 b) entries.
Proof.
  induction 1 as [|[[path head] branch] rest (Hp1 & Hp2 & Hh & Hb1 & Hb2) _ IH].
  - reflexivity.
  - cbn [listing_of foldr fst snd List.find] in *.
    rewrite (split_entry_app path head branch _ Hp1 Hh Hb1), scan_app.
    rewrite (scan_loop_entry p path head branch b Hp2 Hb2).
    destruct (String.eqb branch b); [reflexivity | exact IH].
Qed.

(** X16. [findExistingWorktreeForBranch] never fails. When git
    lists well-formed records, it returns the path of the first record
    whose branch is the one looked for, made absolute, and [null] when
    there is none; it returns [null] as well when the git command fails. *)
Theorem find_worktree_first_match (p b : string) (entries : list (string * string * string))
    (w : World) :
  wt_listing w = listing_of entries ->
  Forall well_listed entries ->
  snd (run (findExistingWorktreeForBranch ext p b) w) =
    Fulfilled
      (if wt_list_ok (env w) then
         (fun e => resolve_listed ext p e.1.1)
           <$> List.find (fun e => String.eqb e.2 b) entries
       else None).
Proof.
  intros HL Hwf. rewrite run_findExisting. cbn [snd]. unfold find_result.
  destruct (wt_list_ok (env w)); [| reflexivity].
  now rewrite HL, scan_listing.
Qed.

(** X17. [setupWorktree] fails only when the [.worktrees]
    directory cannot be made. When git refuses to add the work tree, the
    call does not fail: it returns the project directory itself, and no
    work tree is created or listed. *)
Theorem setup_worktree_fallback (p f b : string) (w : World) :
  let wd := path_join ext p ".worktrees" in
  let wp := path_join ext wd f in
  let call := run (setupWorktree ext p f b) w in
  (forall e, snd call = Rejected e -> mkdir_ok (env w) wd = false /\ e = EIO "mkdir")
  /\ snd call <> Unsettled
  /\ (or_null (find_result ext p b w) = None ->
      mkdir_ok (env w) wd = true ->
      wp ∉ {[wd]} ∪ dirs w ->
      wt_add_ok (env w) wp b = false ->
      snd call = Fulfilled (path_resolve ext p)
      /\ created (log (fst call)) = created (log w)
      /\ wt_listing (fst call) = wt_listing w).
Proof.
  cbv zeta. rewrite run_setupWorktree.
  split; [| split].
  - unfold setup_result. cbv zeta.
    destruct (or_null (find_result ext p b w)); [discriminate |].
    destruct (mkdir_ok (env w) (path_join ext p ".worktrees")).
    + destruct (decide _); [discriminate |].
      destruct (wt_add_ok _ _ _); discriminate.
    + intros e He. injection He as <-. now split.
  - unfold setup_result. cbv zeta.
    destruct (or_null (find_result ext p b w)); [discriminate |].
    destruct (mkdir_ok (env w) (path_join ext p ".worktrees")); [| discriminate].
    destruct (decide _); [discriminate |].
    destruct (wt_add_ok _ _ _); discriminate.
  - intros Hfind Hmk Hout Hadd.
    rewrite (setup_refused ext p f b w Hfind Hmk Hout Hadd). cbn [fst snd].
    split; [reflexivity |]. split; [| reflexivity].
    rewrite !created_record. cbn [with_dirs log]. rewrite created_record. lia.
Qed.

End Lookup.

(** ** Follow-ups *)

#[local] Instance same_registry_preorder : PreOrder same_registry.
Proof.
  split.
  - intros w. reflexivity.
  - intros w1 w2 w3 H1 H2. unfold same_registry in *. congruence.
Qed.

Lemma framed_same_registry (w w' : World) : framed w w' -> same_registry w w'.
Proof. intros ((H & _) & _). exact H. Qed.

Section FollowUps.

Context (ext : External).

Lemma registry_updateFeatureStatus (p f s : string) :
  preserves same_registry (updateFeatureStatus p f s).
Proof.
  intros w. rewrite run_updateFeatureStatus. apply stable_status_written_registry.
Qed.

Lemma registry_loadFeature (p f : string) : preserves same_registry (loadFeature p f).
Proof. intros w. rewrite run_loadFeature. reflexivity. Qed.

Lemma registry_fs_writeFeature (p f : string) (F : Feature) :
  preserves same_registry (fs_writeFeature p f F).
Proof.
  apply preserves_promise. intros w. cbn beta.
  destruct (feature_write_ok _ _ _ _); reflexivity.
Qed.

Lemma registry_fs_copyFile (a b : string) : preserves same_registry (fs_copyFile a b).
Proof. apply preserves_promise. intros w. reflexivity. Qed.

Lemma registry_fs_readFile_context (p f : string) :
  preserves same_registry (fs_readFile_context p f).
Proof. apply preserves_promise. intros w. reflexivity. Qed.

Lemma registry_framed {A : Type} (m : Async A) :
  preserves framed m -> preserves same_registry m.
Proof. apply preserves_weaken. exact framed_same_registry. Qed.

Lemma registry_copy_images (dir : string) (l acc : list string) :
  preserves same_registry (copy_images ext dir l acc).
Proof.
  pose proof registry_fs_copyFile.
  revert acc. induction l as [|x l IH]; intros acc; cbn [copy_images]; frame_tac.
Qed.

Lemma restores_bind {A : Type} (R0 : JsMap RunningFeature) (m : Async A)
    (g : A -> Async unit) (w : World) :
  fulfils m -> preserves same_registry m ->
  (forall a w', runningFeatures w' = runningFeatures w -> restores R0 (g a) w') ->
  restores R0 (bind m g) w.
Proof.
  intros Hm Hr Hg. unfold restores. rewrite run_bind.
  destruct (Hm w) as [a Ha]. specialize (Hr w).
  destruct (run m w) as [w' o]. cbn [fst snd] in *. subst o.
  now apply Hg.
Qed.

Lemma restores_guard (f : string) (x : RunningFeature) (ev : AutoModeEvent)
    (body : Async unit) (h : JsError -> Async unit) (w : World) :
  settles body -> preserves same_registry body ->
  (forall e, fulfils (h e)) -> (forall e, preserves same_registry (h e)) ->
  runningFeatures w !! f = None ->
  restores (runningFeatures w)
    (modify (with_runningFeatures (insert f x)) ;;
     emitAutoModeEvent ev ;;
     try_finally (try_catch body h) (with_runningFeatures (delete f))) w.
Proof.
  intros Hs Hb Hh Hhr Hf. unfold restores, emitAutoModeEvent.
  rewrite run_bind, run_modify. cbn beta iota.
  rewrite run_bind, run_modify. cbn beta iota.
  set (w2 := record (Emitted ev) (with_runningFeatures (insert f x) w)).
  rewrite run_try_finally.
  pose proof (fulfils_try_catch body h Hs Hh w2) as [[] Ha].
  assert (Hreg : preserves same_registry (try_catch body h)).
  { apply preserves_try_catch; [typeclasses eauto | exact Hb | exact Hhr]. }
  specialize (Hreg w2).
  destruct (run (try_catch body h) w2) as [w3 o]. cbn [fst snd] in *. subst o.
  split; [reflexivity |]. cbn. rewrite Hreg. subst w2. cbn.
  now apply MapFacts.delete_set.
Qed.

Lemma fulfils_readFile_or_empty (p f : string) :
  fulfils (try_catch (await (fs_readFile_context p f)) (fun _ => Ret EmptyString)).
Proof.
  apply fulfils_try_catch; [| intro; apply fulfils_ret].
  apply settles_await, settles_fs_readFile_context.
Qed.

(** X18. A call of [followUpFeature] for a feature
    that is not running is always fulfilled, whatever fails in it, and
    leaves the registry exactly as it found it. *)
Theorem follow_up_restores_registry (p f prompt : string) (imgs : option (list string))
    (u : bool) (w : World) :
  runningFeatures w !! f = None ->
  snd (run (followUpFeature ext p f prompt imgs u) w) = Fulfilled tt
  /\ runningFeatures (fst (run (followUpFeature ext p f prompt imgs u) w))
     = runningFeatures w.
Proof.
  intros H. unfold followUpFeature, is_running.
  rewrite run_bind, run_read. cbn beta iota.
  rewrite bool_decide_eq_false_2 by (rewrite H; now intros [x Hx]).
  match goal with
  | |- snd (run ?M ?w0) = _ /\ _ => change (restores (runningFeatures w) M w0)
  end.
  apply restores_bind;
    [apply fulfils_newAbortController | intros w0; reflexivity | intros ac w1 H1].
  apply restores_bind;
    [apply fulfils_await, fulfils_loadFeature
    | apply preserves_await, registry_loadFeature | intros feature w2 H2].
  apply restores_bind.
  { destruct u; [| apply fulfils_ret].
    destruct (match feature with Some f0 => or_null (f_branchName f0) | None => None end);
      [apply fulfils_await; intros w0; apply findExisting_fulfils | apply fulfils_ret]. }
  { destruct u; [| apply preserves_ret; typeclasses eauto].
    destruct (match feature with Some f0 => or_null (f_branchName f0) | None => None end);
      [| apply preserves_ret; typeclasses eauto].
    apply preserves_await, registry_framed.
    eapply preserves_weaken; [exact quiet_framed | apply quiet_findExisting]. }
  intros worktreePath w3 H3.
  apply restores_bind;
    [apply fulfils_readFile_or_empty
    | apply preserves_try_catch;
        [typeclasses eauto | apply preserves_await, registry_fs_readFile_context
        | intro; apply preserves_ret; typeclasses eauto]
    | intros previousContext w4 H4].
  apply restores_bind;
    [apply fulfils_read | apply preserves_read; typeclasses eauto | intros now w5 H5].
  assert (Hreg : runningFeatures w5 = runningFeatures w) by congruence.
  rewrite <- Hreg.
  apply restores_guard.
  - pose proof (settles_copy_images ext). settles_tac.
  - pose proof registry_updateFeatureStatus. pose proof registry_copy_images.
    pose proof registry_fs_writeFeature.
    assert (Hfr : forall (A : Type) (m : Async A),
               preserves framed m -> preserves same_registry m)
      by (intros; now apply registry_framed).
    frame_tac; apply Hfr; frame_tac.
  - intros e. destruct (isAbortError ext e); [apply fulfils_ret | apply fulfils_emit].
  - intros e. destruct (isAbortError ext e); [apply preserves_ret; typeclasses eauto |].
    apply registry_framed, framed_emit.
  - now rewrite Hreg.
Qed.

Lemma run_copy_images (dir : string) (l acc : list string) (w : World) :
  run (copy_images ext dir l acc) w = (w, Fulfilled (acc ++ copies ext (env w) dir l)%list).
Proof.
  revert acc. induction l as [|x l IH]; intros acc; cbn [copy_images copies omap list_omap].
  - now rewrite app_nil_r.
  - unfold fs_copyFile.
    rewrite run_bind, run_try_catch, run_bind, run_await, run_promise.
    destruct (copy_ok (env w) x (path_join ext dir (path_basename ext x)));
      cbn beta iota; rewrite run_ret; cbn beta iota; rewrite ?run_ret; cbn beta iota;
      rewrite IH.
    + now rewrite <- app_assoc.
    + now rewrite app_nil_r.
Qed.

(** The steps of a follow-up on a feature [F] before its guarded part,
    taken in the hypothesis [E] that names the run: the abort controller
    [ac], the state [w1] it is made in, the state [w2] after the search for
    a work tree [wt], and the previous transcript. *)
Ltac follow_up_prefix :=
  match goal with
  | Hrun : runningFeatures ?w !! ?f = None,
    HF : featureFiles ?w !! (?p, ?f) = Some ?F,
    E : run (followUpFeature ?ext ?p ?f ?prompt ?imgs ?u) ?w = _ |- _ =>
      unfold followUpFeature, is_running in E;
      rewrite run_bind, run_read in E; cbn beta iota in E;
      rewrite bool_decide_eq_false_2 in E by (rewrite Hrun; now intros [? ?]);
      rewrite run_bind in E; unfold newAbortController in E; cbn [run] in E;
      cbn beta iota in E;
      set (ac := controllers w) in *;
      set (w1 := with_controllers S (with_aborted (fun a => a ∖ {[ac]}) w)) in *;
      rewrite run_bind, run_await, run_loadFeature in E; cbn beta iota in E;
      replace (featureFiles w1 !! (p, f)) with (Some F) in E by (symmetry; exact HF);
      rewrite run_bind in E;
      let Hfind := fresh "Hfind" in
      assert (Hfind : exists w2 wt,
                 run (if u
                      then match or_null (f_branchName F) with
                           | Some branch =>
                               await (findExistingWorktreeForBranch ext p branch)
                           | None => Ret None
                           end
                      else Ret None) w1 = (w2, Fulfilled wt)
                 /\ quiet w1 w2);
      [ destruct u; [| exists w1, None; split; [reflexivity | reflexivity]];
        destruct (or_null (f_branchName F)) as [branch|];
          [| exists w1, None; split; [reflexivity | reflexivity]];
        rewrite run_await;
        destruct (findExisting_fulfils ext p branch w1) as [r Hr];
        pose proof (quiet_findExisting ext p branch w1) as Hq;
        destruct (run (findExistingWorktreeForBranch ext p branch) w1) as [w2 o2];
        cbn [fst snd] in *; subst o2; exists w2, r; now split
      | destruct Hfind as (w2 & wt & Hfind & (Hst & (tree & Htree & Hproc) & Hctx & Hag));
        destruct Hst as (Hreg & Hcon & Hab & Hff & Hclock & Henv);
        rewrite Hfind in E; cbn beta iota in E;
        rewrite run_bind in E;
        let Hread := fresh "Hread" in
        assert (Hread : exists previousContext,
                   run (try_catch (await (fs_readFile_context p f))
                          (fun _ => Ret EmptyString)) w2
                   = (w2, Fulfilled previousContext));
        [ unfold fs_readFile_context; rewrite run_try_catch, run_await, run_promise;
          destruct (contextFiles w2 !! (p, f)); eexists; reflexivity
        | destruct Hread as (previousContext & Hread);
          rewrite Hread in E; cbn beta iota in E;
          unfold emitAutoModeEvent in E;
          rewrite run_bind, run_read in E; cbn beta iota in E;
          rewrite run_bind, run_modify in E; cbn beta iota in E;
          rewrite run_bind, run_modify in E; cbn beta iota in E;
          rewrite run_try_finally, run_try_catch in E;
          rewrite run_bind, run_await, run_updateFeatureStatus in E;
          cbn beta iota in E ] ]
  end.

(** What a status update adds to the log ends no run. *)
Lemma status_written_not_closing (p f s : string) (w : World) :
  exists l, log (status_written p f s w) = (log w ++ l)%list /\ Forall (not_closing f) l.
Proof.
  unfold status_written.
  destruct (featureFiles w !! (p, f)); [destruct (feature_write_ok _ _ _ _) |].
  - eexists [_]. split; [reflexivity |]. constructor; [exact I | constructor].
  - exists []. split; [now rewrite app_nil_r | constructor].
  - exists []. split; [now rewrite app_nil_r | constructor].
Qed.

(** The record after a status update in a state that holds [F0] and
    has the clock and the outside world of [w]. *)
Lemma lookup_status_written (p f s : string) (F0 : Feature) (w w0 : World) :
  featureFiles w0 !! (p, f) = Some F0 ->
  env w0 = env w -> clock w0 = clock w ->
  featureFiles (status_written p f s w0) !! (p, f) = Some (status_attempt w p f s F0).
Proof.
  intros HF Henv Hclock.
  rewrite featureFiles_status_written, HF, Henv, Hclock. unfold status_attempt.
  destruct (feature_write_ok _ _ _ _); [apply lookup_insert_eq | exact HF].
Qed.

(** X19. A follow-up without images on a feature [F], with a real
    provider. Its two updates of the status take effect when their writes
    succeed and are skipped when they fail. The first sets the status to
    ["in_progress"]. When the stream completes, the second sets it to
    ["waiting_approval"] and the last event is the completion of the
    follow-up. When the stream fails, the record stays as the first update
    left it: the status is not put back; the error event carries the
    message as it is, without an error type; and when the failure is an
    abort no event at all ends the run. *)
Theorem follow_up_outcome (p f prompt : string) (u : bool) (F : Feature)
    (script : list StreamItem) (w : World) :
  runningFeatures w !! f = None ->
  featureFiles w !! (p, f) = Some F ->
  mockAgent (env w) = false ->
  (forall o, provider (env w) o = script) ->
  let w' := fst (run (followUpFeature ext p f prompt None u) w) in
  let working := status_attempt w p f "in_progress" F in
  match stream_result script with
  | None =>
      featureFiles w' !! (p, f) = Some (status_attempt w p f "waiting_approval" working)
      /\ last (log w') =
           Some (Emitted (auto_mode_feature_complete f true
                            "Follow-up completed successfully" (Some p)))
  | Some e =>
      featureFiles w' !! (p, f) = Some working
      /\ (if isAbortError ext e then
            exists l, log w' = (log w ++ l)%list /\ Forall (not_closing f) l
          else
            last (log w') =
              Some (Emitted (auto_mode_error f (err_message e) None (Some p))))
  end.
Proof.
  intros Hrun HF Hmock Hscript.
  destruct (run (followUpFeature ext p f prompt None u) w) as [wf o] eqn:E.
  cbv zeta. cbn [fst].
  follow_up_prefix.
  rewrite run_bind, run_ret in E. cbn beta iota in E.
  rewrite run_bind, run_ret in E. cbn beta iota in E.
  rewrite run_bind, run_await in E.
  set (w3 := status_written p f "in_progress" _) in E.
  assert (Henv3 : env w3 = env w).
  { subst w3. rewrite env_status_written. cbn. exact Henv. }
  assert (Hclock3 : clock w3 = clock w).
  { subst w3. rewrite clock_status_written. cbn. exact Hclock. }
  assert (Hff3 : featureFiles w3 !! (p, f) = Some (status_attempt w p f "in_progress" F)).
  { subst w3. apply lookup_status_written; cbn; [rewrite Hff; exact HF | exact Henv | exact Hclock]. }
  assert (Hlog3 : exists l3, log w3 = (log w ++ l3)%list /\ Forall (not_closing f) l3).
  { subst w3.
    match goal with
    | |- context [status_written p f "in_progress" ?w0] =>
        destruct (status_written_not_closing p f "in_progress" w0) as (l & Hl & Hall)
    end.
    rewrite Hl. cbn [log record with_featureFiles with_runningFeatures]. rewrite Htree.
    cbn [log w1 with_controllers with_aborted].
    eexists. split; [rewrite <- !app_assoc; reflexivity |].
    apply Forall_app. split.
    - eapply Forall_impl; [exact Hproc |]. intros [] Hx; cbn in *; tauto.
    - constructor; [cbn; tauto | exact Hall]. }
  assert (Hab3 : ac ∉ aborted w3).
  { subst w3. rewrite aborted_status_written. cbn. rewrite Hab. cbn.
    rewrite elem_of_difference, elem_of_singleton. tauto. }
  match type of E with
  | context [run (runAgent ?x1 ?x2 ?x3 ?x4 ?x5 ?x6 ?x7 ?x8 ?x9) w3] =>
      pose proof (framed_runAgent x1 x2 x3 x4 x5 x6 x7 x8 x9 w3) as [Hst4 _];
      pose proof (output_runAgent x1 x2 x3 x4 x5 x6 x7 x8 x9 w3) as (l4 & Hl4 & Hall4);
      destruct (runAgent_spec x1 x2 x3 x4 x5 x6 x7 x8 x9 w3) as (w4 & Hrun4 & _);
      [now rewrite Henv3 | exact Hab3 |]
  end.
  rewrite Hrun4 in E, Hst4, Hl4. cbn [fst] in Hst4, Hl4.
  destruct Hst4 as (_ & _ & _ & Hff4 & Hclock4 & Henv4).
  replace (provider (env w3) _) with script in E
    by (rewrite Henv3; symmetry; apply Hscript).
  destruct Hlog3 as (l3 & Hl3 & Hall3).
  assert (Hagent : Forall (not_closing f) l4).
  { eapply Forall_impl; [exact Hall4 |]. intros [[]| | | | |] Hx; cbn in *; try tauto;
      discriminate. }
  destruct (stream_result script) as [e|]; cbn [outcome_of] in E; cbn beta iota in E.
  - destruct (isAbortError ext e).
    + rewrite run_ret in E. injection E as <- <-.
      split; [cbn; now rewrite Hff4 |].
      exists (l3 ++ l4)%list. split.
      * cbn. rewrite Hl4, Hl3. now rewrite app_assoc.
      * apply Forall_app. now split.
    + rewrite run_modify in E. injection E as <- <-.
      split; [cbn; now rewrite Hff4 |].
      cbn. apply last_snoc.
  - rewrite run_bind, run_await, run_updateFeatureStatus in E. cbn beta iota in E.
    rewrite run_modify in E. injection E as <- <-.
    split; [| cbn; apply last_snoc].
    cbn [featureFiles record with_runningFeatures].
    apply lookup_status_written; [now rewrite Hff4 | congruence | congruence].
Qed.

(** The end of a follow-up from the state [w5] in which the agent is
    started, in the hypothesis [E] that names the run. *)
Ltac follow_up_tail w5 Hff5 :=
  match goal with
  | E : context [run (runAgent ?x1 ?x2 ?x3 ?x4 ?x5 ?x6 ?x7 ?x8 ?x9) w5] |- _ =>
      let Hst6 := fresh "Hst6" in
      let w6 := fresh "w6" in
      let Hrun6 := fresh "Hrun6" in
      let Hff6 := fresh "Hff6" in
      let Hclock6 := fresh "Hclock6" in
      let Henv6 := fresh "Henv6" in
      pose proof (framed_runAgent x1 x2 x3 x4 x5 x6 x7 x8 x9 w5) as [Hst6 _];
      destruct (runAgent_spec x1 x2 x3 x4 x5 x6 x7 x8 x9 w5) as (w6 & Hrun6 & _);
      [ subst w5; cbn; congruence | subst w5; cbn; assumption |];
      rewrite Hrun6 in E, Hst6; cbn [fst] in Hst6;
      destruct Hst6 as (_ & _ & _ & Hff6 & Hclock6 & Henv6);
      match goal with
      | Hscript : forall o, provider (env ?w) o = ?script, Henv3 : env _ = env ?w |- _ =>
          replace (provider (env w5) _) with script in E
            by (subst w5; cbn; rewrite Henv3; symmetry; apply Hscript);
          destruct (stream_result script) as [e|]; cbn [outcome_of] in E;
            cbn beta iota in E;
          [ destruct (isAbortError _ e);
              [ rewrite run_ret in E | rewrite run_modify in E ];
              injection E as <- <-; cbn; rewrite Hff6; exact Hff5
          | rewrite run_bind, run_await, run_updateFeatureStatus in E; cbn beta iota in E;
            rewrite run_modify in E; injection E as <- <-;
            cbn [featureFiles record with_runningFeatures];
            apply lookup_status_written;
              [ rewrite Hff6; exact Hff5
              | rewrite Henv6; subst w5; cbn; assumption
              | rewrite Hclock6; subst w5; cbn; assumption ] ]
      end
  end.

(** X20. A follow-up that copies at least one image writes back the
    feature record it read before it set the status, with the copied
    images appended. When that write succeeds, it puts the status back to
    what it was before the follow-up: if the stream then fails, the feature
    keeps that status, not ["in_progress"]. When that write fails, the
    failure is swallowed and the record stays as the update of the status
    left it. When the stream completes, the last update sets the status to
    ["waiting_approval"] on the record that holds then. *)
Theorem follow_up_with_images (p f prompt img : string) (rest : list string) (u : bool)
    (F : Feature) (script : list StreamItem) (w : World) :
  let dir := path_join ext (getFeatureDir ext p f) "images" in
  let new := copies ext (env w) dir (img :: rest) in
  let staged :=
    set_imagePaths
      (match f_imagePaths F with Some l => l | None => [] end ++
       List.map (fun x => ImgObject x (Some (path_basename ext x)) (Some "image/png")) new)
      F in
  let saved :=
    if feature_write_ok (env w) p f staged then staged
    else status_attempt w p f "in_progress" F in
  runningFeatures w !! f = None ->
  featureFiles w !! (p, f) = Some F ->
  mockAgent (env w) = false ->
  (forall o, provider (env w) o = script) ->
  mkdir_ok (env w) dir = true ->
  new <> [] ->
  f_status staged = f_status F
  /\ featureFiles (fst (run (followUpFeature ext p f prompt (Some (img :: rest)) u) w))
       !! (p, f)
     = Some (match stream_result script with
             | None => status_attempt w p f "waiting_approval" saved
             | Some _ => saved
             end).
Proof.
  intros dir new staged saved Hrun HF Hmock Hscript Hmk Hnew.
  split; [reflexivity |].
  destruct (run (followUpFeature ext p f prompt (Some (img :: rest)) u) w) as [wf o] eqn:E.
  cbn [fst].
  follow_up_prefix.
  set (w3 := status_written p f "in_progress" _) in E.
  assert (Henv3 : env w3 = env w).
  { subst w3. rewrite env_status_written. cbn. exact Henv. }
  assert (Hab3 : ac ∉ aborted w3).
  { subst w3. rewrite aborted_status_written. cbn. rewrite Hab. cbn.
    rewrite elem_of_difference, elem_of_singleton. tauto. }
  assert (Hclock3 : clock w3 = clock w).
  { subst w3. rewrite clock_status_written. cbn. exact Hclock. }
  assert (Hff3 : featureFiles w3 !! (p, f) = Some (status_attempt w p f "in_progress" F)).
  { subst w3. apply lookup_status_written; cbn; [rewrite Hff; exact HF | exact Henv | exact Hclock]. }
  rewrite run_bind, run_bind, run_await in E. unfold fs_mkdir in E.
  rewrite run_promise in E. fold dir in E. rewrite Henv3, Hmk in E. cbn beta iota in E.
  rewrite run_copy_images in E. cbn beta iota in E.
  cbn [env with_dirs app] in E. rewrite Henv3 in E. fold new in E.
  destruct new as [|n0 new0] eqn:En; [now elim Hnew |].
  cbn beta iota in E. fold staged in E.
  unfold fs_writeFeature in E.
  rewrite run_bind, run_try_catch, run_await, run_promise in E.
  cbn [env with_dirs] in E. rewrite Henv3 in E. subst saved.
  destruct (feature_write_ok (env w) p f staged) eqn:Hsave; cbn beta iota in E;
    rewrite ?run_ret in E; cbn beta iota in E; rewrite run_bind, run_await in E.
  - set (w5 := record (FeatureWritten p f staged) _) in E.
    assert (Hff5 : featureFiles w5 !! (p, f) = Some staged).
    { subst w5. cbn. apply lookup_insert_eq. }
    follow_up_tail w5 Hff5.
  - set (w5 := with_dirs _ w3) in E.
    assert (Hff5 : featureFiles w5 !! (p, f) = Some (status_attempt w p f "in_progress" F))
      by exact Hff3.
    follow_up_tail w5 Hff5.
Qed.

End FollowUps.

(** ** The push route *)

Section PushRouteFacts.

Context (ext : External) (getErrorMessage : JsError -> string).

(** A push request without a work-tree path, or with an empty one, is
    answered with the status 400 and runs no command. *)
Lemma push_requires_path (body : PushRequest) (w : World) :
  or_null (pr_worktreePath body) = None ->
  run (createPushHandler ext getErrorMessage body) w =
    (w, Fulfilled (mkResponse 400 (PushFailure "worktreePath required"))).
Proof. intros H. unfold createPushHandler. rewrite H. reflexivity. Qed.

(** X21. When the branch is known and [git push -u] fails,
    the handler tries once more with [--set-upstream]: if that succeeds the
    request succeeds; if it fails too, the answer is the status 500 with
    the message of the second failure, the first being dropped. *)
Theorem push_falls_back (body : PushRequest) (wp out err : string) (e1 : JsError)
    (w : World) :
  let branch := JS.trim out in
  let remote := match or_null (pr_remote body) with Some r => r | None => "origin" end in
  let flag := match pr_force body with Some true => "--force" | _ => EmptyString end in
  let first := push_command "-u" remote branch flag in
  let second := push_command "--set-upstream" remote branch flag in
  or_null (pr_worktreePath body) = Some wp ->
  shell (env w) "git rev-parse --abbrev-ref HEAD" wp = ExecOk out err ->
  shell (env w) (command_line first) wp = ExecErr e1 ->
  run (createPushHandler ext getErrorMessage body) w =
    (record (Ran second wp)
       (record (Ran first wp)
          (record (Ran (Shell "git rev-parse --abbrev-ref HEAD") wp) w)),
     Fulfilled
       match shell (env w) (command_line second) wp with
       | ExecOk _ _ =>
           mkResponse 200
             (PushSuccess branch true
                ("Successfully pushed " +:+ branch +:+ " to " +:+ remote))
       | ExecErr e2 => mkResponse 500 (PushFailure (getErrorMessage e2))
       end).
Proof.
  intros branch remote flag first second Hpath Hrev Hfirst.
  unfold createPushHandler. rewrite Hpath. run_simpl.
  rewrite (run_shell_ok ext _ _ _ _ _ Hrev). run_simpl. cbn [fst].
  fold branch remote flag first second.
  unfold first, push_command in Hfirst |- *. cbn [command_line] in Hfirst.
  rewrite (run_shell_err ext _ _ e1); [| exact Hfirst]. run_simpl.
  unfold second, push_command. cbn [command_line].
  rewrite run_execAsync, exec_shell. cbn [env record].
  destruct (shell (env w)
              ("git push " +:+ "--set-upstream" +:+ " " +:+ remote +:+ " " +:+ branch
               +:+ " " +:+ flag) wp);
    run_simpl; reflexivity.
Qed.

(** X22. Every push request is answered, and success is
    answered only after a push command has succeeded for the branch that
    the answer names. *)
Theorem push_success_means_pushed (body : PushRequest) (w : World) :
  exists r,
    snd (run (createPushHandler ext getErrorMessage body) w) = Fulfilled r
    /\ (res_status r = 200 ->
        exists how wp remote branch flag msg,
          Ran (push_command how remote branch flag) wp
            ∈ log (fst (run (createPushHandler ext getErrorMessage body) w))
          /\ command_ok w wp (command_line (push_command how remote branch flag)) = true
          /\ res_body r = PushSuccess branch true msg).
Proof.
  destruct (run (createPushHandler ext getErrorMessage body) w) as [wf o] eqn:E.
  cbn [fst snd]. unfold createPushHandler in E.
  destruct (or_null (pr_worktreePath body)) as [wp|];
    [| injection E as <- <-; eexists; split; [reflexivity | discriminate]].
  autorewrite with run in E. cbn beta iota zeta in E.
  rewrite run_execAsync, exec_shell in E.
  destruct (shell (env w) "git rev-parse --abbrev-ref HEAD" wp) as [out err|e0];
    autorewrite with run in E; cbn beta iota zeta in E;
    [| injection E as <- <-; eexists; split; [reflexivity | discriminate]].
  cbn [fst] in E.
  set (branch := JS.trim out) in E.
  set (remote := match or_null (pr_remote body) with Some r => r | None => "origin" end) in E.
  set (flag := match pr_force body with Some true => "--force" | _ => EmptyString end) in E.
  rewrite run_execAsync in E. unfold exec_step in E. cbn [env record push_command] in E.
  destruct (shell (env w) (command_line (push_command "-u" remote branch flag)) wp)
    as [o1 r1|e1] eqn:H1; autorewrite with run in E; cbn beta iota zeta in E.
  - injection E as <- <-. eexists. split; [reflexivity |]. intros _.
    exists "-u", wp, remote, branch, flag. eexists.
    split; [| split; [| reflexivity]].
    + cbn. apply list_elem_of_In, in_or_app. right. left. reflexivity.
    + unfold command_ok. now rewrite H1.
  - rewrite run_execAsync in E. unfold exec_step in E. cbn [env record push_command] in E.
    destruct (shell (env w) (command_line (push_command "--set-upstream" remote branch flag))
                wp) as [o2 r2|e2] eqn:H2; autorewrite with run in E;
      cbn beta iota zeta in E; injection E as <- <-.
    + eexists. split; [reflexivity |]. intros _.
      exists "--set-upstream", wp, remote, branch, flag. eexists.
      split; [| split; [| reflexivity]].
      * cbn. apply list_elem_of_In, in_or_app. right. left. reflexivity.
      * unfold command_ok. now rewrite H2.
    + eexists. split; [reflexivity | discriminate].
Qed.

End PushRouteFacts.

(** ** Project analysis *)

Section AnalysisFacts.

Context (ext : External) (getAutomakerDir : string -> string).

Lemma last_cons_default (x : string) (l : list string) (d d' : string) :
  List.last (x :: l) d = List.last (x :: l) d'.
Proof.
  revert x. induction l as [|y l IH]; intros x; [reflexivity |].
  change (List.last (y :: l) d = List.last (y :: l) d'). apply IH.
Qed.

Lemma last_app_default (l1 l2 : list string) (d : string) :
  List.last (l1 ++ l2) d = List.last l2 (List.last l1 d).
Proof.
  induction l1 as [|x l1 IH]; [reflexivity |].
  destruct l1 as [|y l1].
  - destruct l2 as [|z l2]; [reflexivity |].
    change (List.last (z :: l2) d = List.last (z :: l2) x). apply last_cons_default.
  - change (List.last ((y :: l1) ++ l2) d = List.last l2 (List.last (y :: l1) d)).
    exact IH.
Qed.

Lemma run_analysis_blocks (fid project : string) (blocks : list ContentBlock) :
  forall sent r,
    exists more,
      analysis_blocks fid project blocks sent r
        = ((sent ++ more)%list, List.last (block_answers blocks) r)
      /\ Forall (is_analysis_progress fid project) more.
Proof.
  induction blocks as [|b rest IH]; intros sent r.
  - exists []. split; [now rewrite app_nil_r | constructor].
  - destruct b as [text| |]; cbn [analysis_blocks block_answers]; [| apply IH | apply IH].
    destruct (IH (sent ++ [analysis_progress fid text project])%list (or_empty text))
      as (more & Hm & Hall).
    exists (analysis_progress fid text project :: more). split.
    + rewrite Hm, <- app_assoc. cbn [app].
      change (or_empty text :: block_answers rest)
        with ([or_empty text] ++ block_answers rest)%list.
      now rewrite last_app_default.
    + constructor; [now split | exact Hall].
Qed.

Lemma run_analysis_stream (fid project : string) (items : list StreamItem) :
  forall sent r w,
    exists more,
      run (analysis_stream fid project items sent r) w
        = (w, Fulfilled ((sent ++ more)%list,
                         match stream_throws items with
                         | Some e => inr e
                         | None => inl (List.last (answers items) r)
                         end))
      /\ Forall (is_analysis_progress fid project) more.
Proof.
  induction items as [|i rest IH]; intros sent r w.
  - exists []. split; [cbn; now rewrite app_nil_r | constructor].
  - destruct i as [msg|e]; cbn [analysis_stream stream_throws answers];
      [| exists []; split; [cbn; now rewrite app_nil_r | constructor]].
    rewrite run_yield.
    destruct msg as [[content|]|error|subtype result|];
      try (destruct (IH sent r w) as (more & Hm & Hall); exists more; now split).
    + destruct (run_analysis_blocks fid project content sent r) as (m1 & H1 & Hall1).
      rewrite H1.
      destruct (IH (sent ++ m1)%list (List.last (block_answers content) r) w)
        as (m2 & H2 & Hall2).
      exists (m1 ++ m2)%list. split.
      * rewrite H2, <- app_assoc. destruct (stream_throws rest); [reflexivity |].
        now rewrite last_app_default.
      * apply Forall_app. now split.
    + destruct (String.eqb subtype "success").
      * destruct (IH sent (match or_null result with Some x => x | None => r end) w)
          as (more & Hm & Hall).
        exists more. split; [| exact Hall]. rewrite Hm.
        destruct (stream_throws rest); [reflexivity |].
        rewrite last_app_default. destruct (or_null result); reflexivity.
      * destruct (IH sent r w) as (more & Hm & Hall). exists more. now split.
Qed.

(** X23. [analyzeProject] never fails and never enters the
    registry. It sends the start event, then progress events only, then
    one last event. When the stream ends without an error and the file can
    be written, [project-analysis.md] receives the last answer of the
    stream alone (the text of its last text block or the result of a later
    successful result message, not the texts put together) and the last
    event is the completion; when the iterator of the stream rejects,
    nothing is written and the last event is the error. *)
Theorem analysis_outcome (p : string) (w : World) :
  let fid := "analysis-" +:+ string_of_Z (clock w) in
  let script := provider (env w) (analysis_options ext p (controllers w)) in
  let dir := getAutomakerDir p in
  let call := run (analyzeProject ext getAutomakerDir p) w in
  exists mid closing,
    snd call =
      Fulfilled (analysis_start fid p "Project Analysis" "Analyzing project structure"
                 :: mid ++ [closing])%list
    /\ Forall (is_analysis_progress fid p) mid
    /\ runningFeatures (fst call) = runningFeatures w
    /\ featureFiles (fst call) = featureFiles w
    /\ contextFiles (fst call) = contextFiles w
    /\ match stream_throws script with
       | Some e =>
           log (fst call) = log w /\ closing = analysis_error fid (err_message e) p
       | None =>
           mkdir_ok (env w) dir = true ->
           file_write_ok (env w) (path_join ext dir "project-analysis.md") = true ->
           log (fst call) =
             (log w ++ [FileWritten (path_join ext dir "project-analysis.md")
                          (List.last (answers script) EmptyString)])%list
           /\ closing = analysis_complete fid true "Project analysis completed" p
       end.
Proof.
  cbv zeta.
  destruct (run (analyzeProject ext getAutomakerDir p) w) as [wf o] eqn:E.
  cbn [fst snd]. unfold analyzeProject in E.
  rewrite run_bind in E. unfold newAbortController in E. cbn [run] in E.
  cbn beta iota in E.
  set (w1 := with_controllers S _) in E.
  rewrite run_bind, run_read in E. cbn beta iota zeta in E.
  rewrite run_bind, run_read in E. cbn beta iota zeta in E.
  change (clock w1) with (clock w) in E. change (env w1) with (env w) in E.
  fold (analysis_options ext p (controllers w)) in E.
  set (fid := "analysis-" +:+ string_of_Z (clock w)) in *.
  set (script := provider (env w) (analysis_options ext p (controllers w))) in *.
  rewrite run_bind in E.
  destruct (run_analysis_stream fid p script
              [analysis_start fid p "Project Analysis" "Analyzing project structure"]
              EmptyString w1) as (mid & Hm & Hmid).
  rewrite Hm in E. cbn beta iota in E.
  destruct (stream_throws script) as [e|].
  - rewrite run_ret in E. injection E as <- <-.
    exists mid. eexists. split; [reflexivity |]. split; [exact Hmid |].
    do 3 (split; [reflexivity |]). split; reflexivity.
  - unfold fs_mkdir, fs_writeFile in E.
    rewrite run_try_catch, run_bind, run_await, run_promise in E.
    change (env w1) with (env w) in E.
    destruct (mkdir_ok (env w) (getAutomakerDir p)) eqn:Hmk; cbn beta iota in E.
    + rewrite run_bind, run_await, run_promise in E. cbn [env with_dirs] in E.
      change (env w1) with (env w) in E.
      destruct (file_write_ok (env w) (path_join ext (getAutomakerDir p) "project-analysis.md"))
        eqn:Hwr; cbn beta iota in E; rewrite run_ret in E; injection E as <- <-.
      * exists mid. eexists. split; [reflexivity |]. split; [exact Hmid |].
        do 3 (split; [reflexivity |]). intros _ _. split; reflexivity.
      * exists mid. eexists. split; [reflexivity |]. split; [exact Hmid |].
        do 3 (split; [reflexivity |]). intros _ H. discriminate H.
    + rewrite run_ret in E. injection E as <- <-.
      exists mid. eexists. split; [reflexivity |]. split; [exact Hmid |].
      do 3 (split; [reflexivity |]). intros H. discriminate H.
Qed.

End AnalysisFacts.

(** ** Calls for a feature that is registered *)

Section Registered.

Context (ext : External).

(** X24. While a feature is in the registry, every call of
    [executeFeature], [resumeFeature] or [followUpFeature] for it is
    rejected with the error that it is already running, and changes
    nothing: no event, no write, no new abort controller. *)
Theorem registered_calls_rejected (d : nat) (p f prompt : string)
    (imgs : option (list string)) (u a : bool) (w : World) :
  is_Some (runningFeatures w !! f) ->
  run (executeFeature ext d p f u a) w = (w, Rejected (already_running f))
  /\ run (resumeFeature ext d p f u) w = (w, Rejected (already_running f))
  /\ run (followUpFeature ext p f prompt imgs u) w = (w, Rejected (already_running f)).
Proof.
  intros H.
  assert (Hexec : forall d0 a0,
             run (executeFeature ext d0 p f u a0) w = (w, Rejected (already_running f))).
  { intros d0 a0. destruct d0; cbn; unfold is_running;
      rewrite bool_decide_eq_true_2 by exact H; reflexivity. }
  split; [apply Hexec |]. split.
  - rewrite run_resumeFeature.
    destruct (contextFiles w !! (p, f)) as [context|]; [| apply Hexec].
    unfold executeFeatureWithContext, is_running.
    rewrite run_bind, run_read. cbn beta iota.
    rewrite bool_decide_eq_true_2 by exact H. reflexivity.
  - unfold followUpFeature, is_running.
    rewrite run_bind, run_read. cbn beta iota.
    rewrite bool_decide_eq_true_2 by exact H. reflexivity.
Qed.

End Registered.

Lemma registered_calls_rejected_witness :
  run (followUpFeature Demo.ext "/proj" "f1" "more" None false) Demo.busy_world
  = (Demo.busy_world, Rejected (already_running "f1")).
Proof.
  apply (registered_calls_rejected Demo.ext 0 "/proj" "f1" "more" None false false
           Demo.busy_world).
  now exists Demo.in_flight.
Defined.

(** ** The debounce timer after a run *)

Section TimerFacts.

Context (ext : External).

Lemma agentRuns_writeToFile (rid : nat) (p f : string) (w : World) :
  agentRuns (fst (run (writeToFile ext rid p f) w)) = agentRuns w.
Proof.
  unfold writeToFile, fs_mkdir, fs_writeFile_context.
  rewrite run_try_catch, run_bind, run_await, run_promise.
  destruct (mkdir_ok (env w) (getFeatureDir ext p f)); cbn beta iota; [| reflexivity].
  rewrite run_bind, run_read. cbn beta iota.
  rewrite run_await, run_promise. cbn [env with_dirs].
  destruct (transcript_write_ok (env w) p f); reflexivity.
Qed.

(** X25. In a run of [runAgent] with which nothing is interleaved,
    when the stream completes the run is fulfilled and leaves no debounce
    timer pending: the timer was cleared before the final write, so a timer
    event that comes for this activation after the run starts no write.
    (A call-back that had fired while the stream was still consumed is
    another task: see [stale_write_after_completion].) *)
Theorem no_timer_after_completion (workDir f prompt : string) (rid : nat) (p : string)
    (imgs : option (list string)) (model prev : option string) (w : World) :
  mockAgent (env w) = false ->
  rid ∉ aborted w ->
  stream_result (provider (env w) (agent_options ext workDir prompt rid imgs model)) = None ->
  let call := run (runAgent ext workDir f prompt rid p imgs model prev) w in
  snd call = Fulfilled tt
  /\ Loop.timer_pending rid (fst call) = false
  /\ forall tasks,
       Loop.step ext (Loop.mkState (fst call) tasks) (Loop.FireTimer rid)
       = Loop.mkState (fst call) tasks.
Proof.
  intros Hmock Hab Hres. cbv zeta.
  enough (Hmain : snd (run (runAgent ext workDir f prompt rid p imgs model prev) w)
                  = Fulfilled tt
                  /\ Loop.timer_pending rid
                       (fst (run (runAgent ext workDir f prompt rid p imgs model prev) w))
                     = false).
  { destruct Hmain as [H1 H2]. split; [exact H1 |]. split; [exact H2 |].
    intros tasks. cbn [Loop.step Loop.world]. now rewrite H2. }
  destruct (run (runAgent ext workDir f prompt rid p imgs model prev) w) as [wf o] eqn:E.
  cbn [fst snd]. unfold runAgent in E.
  rewrite run_bind, run_read in E. cbn beta iota in E. rewrite Hmock in E.
  rewrite run_bind, run_await, run_ret in E. cbn beta iota in E.
  rewrite run_bind, run_read in E. cbn beta iota in E.
  fold (agent_options ext workDir prompt rid imgs model) in E.
  rewrite run_bind, run_modify in E. cbn beta iota in E.
  set (w1 := with_agentRuns _ w) in E.
  assert (Hw1 : consuming rid p f (initial_responseText prev) (contextFiles w !! (p, f)) w1).
  { split; [exact Hab |]. split; [reflexivity |].
    exists NoTimer. subst w1. cbn. apply lookup_insert_eq. }
  destruct (consume_stream_spec ext rid p f _
              (provider (env w) (agent_options ext workDir prompt rid imgs model)) _ w1 Hw1)
    as (w2 & Hrun & (_ & _ & t & Hr)).
  rewrite run_bind, Hrun, Hres in E. cbn [outcome_of] in E. cbn beta iota in E.
  unfold clearWriteTimeout in E. rewrite run_bind, run_update_run in E.
  cbn beta iota in E. rewrite run_await in E.
  set (w3 := with_agentRuns _ w2) in E.
  pose proof (agentRuns_writeToFile rid p f w3) as Hruns.
  pose proof (settles_writeToFile ext rid p f w3) as Hs.
  assert (Hf : exists x, snd (run (writeToFile ext rid p f) w3) = Fulfilled x).
  { unfold writeToFile. apply run_caught. settles_tac. }
  destruct Hf as [[] Hf].
  rewrite E in Hruns, Hf. cbn [fst snd] in Hruns, Hf. subst o.
  split; [reflexivity |].
  unfold Loop.timer_pending. rewrite Hruns. subst w3. cbn.
  rewrite lookup_alter_eq, Hr. cbn. destruct t; reflexivity.
Qed.

End TimerFacts.

Lemma no_timer_after_completion_witness :
  Loop.timer_pending 0
    (fst (run (runAgent Demo.ext "/proj" "f1" "prompt" 0 "/proj" None None None)
            (Demo.backlog_world [Demo.say "hello"])))
  = false.
Proof.
  exact (proj1 (proj2
    (no_timer_after_completion Demo.ext "/proj" "f1" "prompt" 0 "/proj" None None None
       (Demo.backlog_world [Demo.say "hello"])
       eq_refl (not_elem_of_empty (C := gset nat) 0) eq_refl))).
Defined.

(** The limit of the last property. The debounce timer fires after the
    first text of a stream of two; its call-back takes the text it finds
    and starts its write; the stream then completes and [runAgent] makes
    its final write; the write of the call-back completes last, and the
    transcript is left without the second text. *)
Example stale_write_after_completion :
  let task := runAgent Demo.ext "/proj" "f1" "prompt" 0 "/proj" None None None in
  let schedule :=
    ([Loop.Spawn task] ++ replicate 2 (Loop.Resume 0) ++ [Loop.FireTimer 0]
     ++ replicate 2 (Loop.Resume 1) ++ replicate 8 (Loop.Resume 0)
     ++ replicate 3 (Loop.Resume 1))%list in
  let s :=
    Loop.steps Demo.ext
      (Loop.mkState (Demo.backlog_world [Demo.say "a"; Demo.say "b"]) []) schedule in
  Loop.settled <$> Loop.tasks s = [Some (Fulfilled tt); Some (Fulfilled tt)]
  /\ omap (fun e => match e with TranscriptWritten _ _ c => Some c | _ => None end)
          (log (Loop.world s))
     = ["a" +:+ lf +:+ lf +:+ "b"; "a"]
  /\ contextFiles (Loop.world s) !! ("/proj", "f1") = Some "a"
  /\ current_responseText 0 (Loop.world s) = "a" +:+ lf +:+ lf +:+ "b".
Proof. cbv zeta. repeat split; vm_compute; reflexivity. Qed.

(** ** The properties at concrete inputs *)

Lemma title_empty_iff_witness :
  extractTitleFromDescription (lf +:+ "Add login page") = EmptyString.
Proof.
  apply (proj2 (title_empty_iff (lf +:+ "Add login page"))). split; reflexivity.
Defined.

Lemma escape_quotes_witness :
  escape_quotes (dq +:+ "hi" +:+ dq)
  <> String (ascii_of_nat 34) ("hi" +:+ dq).
Proof.
  exact (proj2 (escape_quotes_escapes_every_quote (dq +:+ "hi" +:+ dq)) ("hi" +:+ dq)).
Defined.

Lemma update_status_last_wins_witness :
  let first := run (updateFeatureStatus "/proj" "f1" "waiting_approval") (Demo.backlog_world []) in
  f_status <$>
    featureFiles
      (fst (run (updateFeatureStatus "/proj" "f1" "backlog")
              (with_env (env (Demo.backlog_world [])) (fst first))))
      !! ("/proj", "f1")
  = Some "backlog"
  /\ f_status <$>
       featureFiles
         (fst (run (updateFeatureStatus "/proj" "f1" "backlog")
                 (with_env (env (Demo.readonly_world [])) (fst first))))
         !! ("/proj", "f1")
     = Some "waiting_approval".
Proof.
  cbv zeta. split.
  - pose proof (proj1 (proj2 (proj2
        (update_status_last_wins "/proj" "f1" "waiting_approval" "backlog"
           (env (Demo.backlog_world [])) (Demo.backlog_world [])))) _ eq_refl) as H.
    cbv zeta in H.
    match type of H with
    | if _ then ?written else _ => assert (Hwritten : written) by exact H
    end.
    rewrite Hwritten. reflexivity.
  - pose proof (proj1 (proj2 (proj2
        (update_status_last_wins "/proj" "f1" "waiting_approval" "backlog"
           (env (Demo.readonly_world [])) (Demo.backlog_world [])))) _ eq_refl) as H.
    cbv zeta in H.
    match type of H with
    | if _ then _ else ?kept => assert (Hkept : kept) by exact H
    end.
    rewrite Hkept. reflexivity.
Defined.

Lemma execute_missing_feature_witness :
  let w := Demo.backlog_world [] in
  log (fst (run (executeFeature Demo.ext 0 "/proj" "f2" false false) w)) =
    [ Emitted (auto_mode_feature_start "f2" "/proj"
                 (StartStub "f2" "Loading..." "Feature is starting"));
      Emitted (auto_mode_error "f2" "Feature f2 not found" (Some "execution")
                 (Some "/proj")) ].
Proof.
  cbv zeta.
  exact (proj1 (proj2 (execute_missing_feature Demo.ext 0 "/proj" "f2" false false
                         (Demo.backlog_world []) eq_refl eq_refl eq_refl eq_refl))).
Defined.

Lemma execute_with_transcript_resumes_witness :
  let w := Demo.resumable_world "first attempt" [Demo.say "second attempt"] in
  run (executeFeature Demo.ext 0 "/proj" "f1" false true) w
  = run (resumeFeature Demo.ext 0 "/proj" "f1" false) w.
Proof.
  cbv zeta.
  apply (execute_with_transcript_resumes Demo.ext 0 "/proj" "f1" "first attempt" false true).
  reflexivity.
Defined.

Lemma run_restores_registry_witness :
  runningFeatures
    (fst (run (executeFeature Demo.ext 0 "/proj" "f1" false false)
            (Demo.backlog_world [Demo.say "hello"])))
  = runningFeatures (Demo.backlog_world [Demo.say "hello"]).
Proof.
  exact (proj1 (run_restores_registry Demo.ext 0 "/proj" "f1" false false
                  (Demo.backlog_world [Demo.say "hello"]) eq_refl)).
Defined.

Lemma find_worktree_first_match_witness :
  snd (run (findExistingWorktreeForBranch Demo.ext "/proj" "main") Demo.repo_world)
  = Fulfilled (Some "/proj").
Proof.
  apply (find_worktree_first_match Demo.ext "/proj" "main"
           [("/proj", "1111111111111111111111111111111111111111", "main")]
           Demo.repo_world).
  - reflexivity.
  - constructor; [| constructor]. repeat split; reflexivity.
Defined.

Lemma setup_worktree_fallback_witness :
  snd (run (setupWorktree Demo.ext "/proj" "f1" "feature/login") Demo.locked_repo_world)
  = Fulfilled "/proj".
Proof.
  destruct (setup_worktree_fallback Demo.ext "/proj" "f1" "feature/login"
              Demo.locked_repo_world) as (_ & _ & H).
  destruct H as (H & _); [reflexivity | reflexivity | | reflexivity | exact H].
  cbn. rewrite elem_of_union, elem_of_singleton. intros [H | H].
  - discriminate H.
  - now apply not_elem_of_empty in H.
Defined.

Lemma follow_up_restores_registry_witness :
  runningFeatures
    (fst (run (followUpFeature Demo.ext "/proj" "f1" "more" None true)
            (Demo.backlog_world [Demo.say "hello"])))
  = runningFeatures (Demo.backlog_world [Demo.say "hello"]).
Proof.
  exact (proj2 (follow_up_restores_registry Demo.ext "/proj" "f1" "more" None true
                  (Demo.backlog_world [Demo.say "hello"]) eq_refl)).
Defined.

Lemma follow_up_outcome_witness :
  let failing := [Demo.say "hello"; SMsg (MError (Some "boom"))] in
  let w := Demo.world (Demo.environment Demo.quiet_shell failing)
             (Demo.feature "waiting_approval" None) in
  let w' := fst (run (followUpFeature Demo.ext "/proj" "f1" "more" None false) w) in
  let readonly :=
    fst (run (followUpFeature Demo.ext "/proj" "f1" "more" None false)
           (Demo.readonly_world [Demo.say "hello"])) in
  f_status <$> featureFiles w' !! ("/proj", "f1") = Some "in_progress"
  /\ last (log w') = Some (Emitted (auto_mode_error "f1" "boom" None (Some "/proj")))
  /\ f_status <$> featureFiles readonly !! ("/proj", "f1") = Some "backlog".
Proof.
  cbv zeta.
  pose proof (follow_up_outcome Demo.ext "/proj" "f1" "more" false
                (Demo.feature "waiting_approval" None)
                [Demo.say "hello"; SMsg (MError (Some "boom"))]
                (Demo.world (Demo.environment Demo.quiet_shell
                               [Demo.say "hello"; SMsg (MError (Some "boom"))])
                   (Demo.feature "waiting_approval" None))
                eq_refl eq_refl eq_refl (fun _ => eq_refl)) as H.
  cbv zeta in H. cbn [stream_result message_result Demo.say blocks_result auth_signal] in H.
  destruct H as [H1 H2]. split; [now rewrite H1 |]. split; [exact H2 |].
  pose proof (follow_up_outcome Demo.ext "/proj" "f1" "more" false
                (Demo.feature "backlog" None) [Demo.say "hello"]
                (Demo.readonly_world [Demo.say "hello"])
                eq_refl eq_refl eq_refl (fun _ => eq_refl)) as H.
  cbv zeta in H. cbn [stream_result message_result Demo.say blocks_result auth_signal] in H.
  destruct H as [H3 _]. now rewrite H3.
Defined.

Lemma follow_up_with_images_witness :
  let failing := [SMsg (MError (Some "boom"))] in
  let w := Demo.world (Demo.environment Demo.quiet_shell failing)
             (Demo.feature "waiting_approval" None) in
  let w' :=
    fst (run (followUpFeature Demo.ext "/proj" "f1" "more" (Some ["/tmp/shot.png"]) false) w) in
  let picky :=
    fst (run (followUpFeature Demo.ext "/proj" "f1" "more" (Some ["/tmp/shot.png"]) false)
           (Demo.no_images_world failing)) in
  f_status <$> featureFiles w' !! ("/proj", "f1") = Some "waiting_approval"
  /\ f_status <$> featureFiles picky !! ("/proj", "f1") = Some "in_progress".
Proof.
  cbv zeta.
  assert (Hnew : forall w,
            copy_ok (env w) "/tmp/shot.png" "/proj/.automaker/features/f1/images/shot.png"
            = true ->
            copies Demo.ext (env w)
              (path_join Demo.ext (getFeatureDir Demo.ext "/proj" "f1") "images")
              ["/tmp/shot.png"] <> []).
  { intros w He. unfold copies. cbn [omap list_omap].
    change (path_join Demo.ext
              (path_join Demo.ext (getFeatureDir Demo.ext "/proj" "f1") "images")
              (path_basename Demo.ext "/tmp/shot.png"))
      with "/proj/.automaker/features/f1/images/shot.png".
    cbv zeta. rewrite He. discriminate. }
  split.
  - destruct (follow_up_with_images Demo.ext "/proj" "f1" "more" "/tmp/shot.png" [] false
                (Demo.feature "waiting_approval" None) [SMsg (MError (Some "boom"))]
                (Demo.world (Demo.environment Demo.quiet_shell [SMsg (MError (Some "boom"))])
                   (Demo.feature "waiting_approval" None))
                eq_refl eq_refl eq_refl (fun _ => eq_refl) eq_refl
                (Hnew (Demo.world
                         (Demo.environment Demo.quiet_shell [SMsg (MError (Some "boom"))])
                         (Demo.feature "waiting_approval" None)) eq_refl))
      as [_ H].
    rewrite H. reflexivity.
  - destruct (follow_up_with_images Demo.ext "/proj" "f1" "more" "/tmp/shot.png" [] false
                (Demo.feature "waiting_approval" None) [SMsg (MError (Some "boom"))]
                (Demo.no_images_world [SMsg (MError (Some "boom"))])
                eq_refl eq_refl eq_refl (fun _ => eq_refl) eq_refl
                (Hnew (Demo.no_images_world [SMsg (MError (Some "boom"))]) eq_refl))
      as [_ H].
    rewrite H. reflexivity.
Defined.

Lemma push_requires_path_witness :
  run (createPushHandler Demo.ext Demo.getErrorMessage (mkPushRequest (Some EmptyString) None None))
      (Demo.backlog_world [])
  = (Demo.backlog_world [], Fulfilled (mkResponse 400 (PushFailure "worktreePath required"))).
Proof. apply push_requires_path. reflexivity. Defined.

Lemma push_falls_back_witness :
  let request := mkPushRequest (Some "/proj/.worktrees/f1") None None in
  snd (run (createPushHandler Demo.ext Demo.getErrorMessage request)
         (Demo.world (Demo.environment Demo.upstream_missing []) (Demo.feature "backlog" None)))
  = Fulfilled (mkResponse 200
                 (PushSuccess "feature/login" true
                    "Successfully pushed feature/login to origin"))
  /\ snd (run (createPushHandler Demo.ext Demo.getErrorMessage request)
            (Demo.world (Demo.environment Demo.offline []) (Demo.feature "backlog" None)))
     = Fulfilled (mkResponse 500
                    (PushFailure "fatal: could not read from remote repository")).
Proof.
  cbv zeta. split.
  - rewrite (push_falls_back Demo.ext Demo.getErrorMessage
               (mkPushRequest (Some "/proj/.worktrees/f1") None None)
               "/proj/.worktrees/f1" ("feature/login" +:+ lf) EmptyString
               (Error "fatal: no upstream")
               (Demo.world (Demo.environment Demo.upstream_missing [])
                  (Demo.feature "backlog" None))); reflexivity.
  - rewrite (push_falls_back Demo.ext Demo.getErrorMessage
               (mkPushRequest (Some "/proj/.worktrees/f1") None None)
               "/proj/.worktrees/f1" ("feature/login" +:+ lf) EmptyString
               (Error "fatal: unable to access the remote")
               (Demo.world (Demo.environment Demo.offline [])
                  (Demo.feature "backlog" None))); reflexivity.
Defined.

Lemma analysis_outcome_witness :
  let w := Demo.backlog_world
             [Demo.say "draft"; Demo.say "final";
              SMsg (MResult "success" (Some "summary"))] in
  log (fst (run (analyzeProject Demo.ext Demo.getAutomakerDir "/proj") w))
  = [FileWritten "/proj/.automaker/project-analysis.md" "summary"].
Proof.
  cbv zeta.
  destruct (analysis_outcome Demo.ext Demo.getAutomakerDir "/proj"
              (Demo.backlog_world
                 [Demo.say "draft"; Demo.say "final";
                  SMsg (MResult "success" (Some "summary"))]))
    as (mid & closing & _ & _ & _ & _ & _ & H).
  cbv zeta in H. cbn [stream_throws Demo.backlog_world Demo.world env provider
                      Demo.environment Demo.say] in H.
  destruct H as [H _]; [reflexivity | reflexivity |].
  exact H.
Defined.

(** ** The registry under interleaving *)

Section Keeps.

Context {A : Type} (Inv : World -> Prop).

Lemma keeps_bind {B : Type} (m : Async A) (g : A -> Async B) :
  keeps Inv m -> (forall a, keeps Inv (g a)) -> keeps Inv (bind m g).
Proof.
  intros Hm Hg. induction m as [a | e | X op k IH | k IH |]; cbn in *; auto.
  split; [apply Hm | intros x; apply IH, Hm].
Qed.

Lemma keeps_try_catch (m : Async A) (h : JsError -> Async A) :
  keeps Inv m -> (forall e, keeps Inv (h e)) -> keeps Inv (try_catch m h).
Proof.
  intros Hm Hh. induction m as [a | e | X op k IH | k IH |]; cbn in *; auto.
  split; [apply Hm | intros x; apply IH, Hm].
Qed.


Lemma keeps_await (m : Async A) : keeps Inv m -> keeps Inv (await m).
Proof.
  intros Hm. induction m as [a | e | X op k IH | k IH |]; cbn in *; auto.
  split; [apply Hm | intros x; apply IH, Hm].
Qed.

Lemma keeps_read (g : World -> A) : keeps Inv (read g).
Proof. cbn. auto. Qed.

Lemma keeps_promise (op : World -> World * (A + JsError)) :
  (forall w, Inv w -> Inv (fst (op w))) -> keeps Inv (promise op).
Proof. intros H. cbn. split; [exact H | now intros [x | e]]. Qed.


End Keeps.

Lemma keeps_modify (Inv : World -> Prop) (f : World -> World) :
  (forall w, Inv w -> Inv (f w)) -> keeps Inv (modify f).
Proof. intros H. cbn. auto. Qed.

Ltac keeps_tac :=
  repeat match goal with
    | |- keeps _ (Ret _) => exact I
    | |- keeps _ (Throw _) => exact I
    | |- keeps _ Diverge => exact I
    | |- keeps _ (read _) => apply keeps_read
    | |- keeps _ (bind _ _) => apply keeps_bind; [| intro]
    | |- keeps _ (try_catch _ _) => apply keeps_try_catch; [| intro]
    | |- keeps _ (await _) => apply keeps_await
    | |- keeps _ (Yield _) => cbn [keeps]
    | |- keeps _ (match ?x with _ => _ end) => destruct x
    | |- keeps _ _ => solve [eauto with keeps]
    end.

Create HintDb keeps discriminated.

Lemma keyed_same (w w' : World) :
  runningFeatures w' = runningFeatures w -> keyed w -> keyed w'.
Proof. intros E H. unfold keyed. rewrite E. exact H. Qed.



(** What leaves the registry alone keeps it keyed. *)
Ltac steady :=
  let w := fresh "w" in
  let Hw := fresh "Hw" in
  intros w Hw; (eapply keyed_same; [| exact Hw]); cbn;
  repeat match goal with
    | |- context [match ?x with _ => _ end] => destruct x; cbn
    end;
  reflexivity.

Section KeyedService.

Context (ext : External) (getAutomakerDir : string -> string).

Lemma keeps_emit (e : AutoModeEvent) : keeps keyed (emitAutoModeEvent e).
Proof. apply keeps_modify. steady. Qed.

Lemma keeps_newAbortController : keeps keyed newAbortController.
Proof. cbn. split; [steady | auto]. Qed.

Lemma keeps_fs_access_context (p f : string) : keeps keyed (fs_access_context p f).
Proof. apply keeps_promise. steady. Qed.

Lemma keeps_fs_readFile_context (p f : string) : keeps keyed (fs_readFile_context p f).
Proof. apply keeps_promise. steady. Qed.

Lemma keeps_fs_writeFile_context (p f c : string) :
  keeps keyed (fs_writeFile_context p f c).
Proof. apply keeps_promise. steady. Qed.

Lemma keeps_fs_readFeature (p f : string) : keeps keyed (fs_readFeature p f).
Proof. apply keeps_promise. steady. Qed.

Lemma keeps_fs_writeFeature (p f : string) (F : Feature) :
  keeps keyed (fs_writeFeature p f F).
Proof. apply keeps_promise. steady. Qed.

Lemma keeps_fs_access (path : string) : keeps keyed (fs_access path).
Proof. apply keeps_promise. steady. Qed.

Lemma keeps_fs_mkdir (path : string) : keeps keyed (fs_mkdir path).
Proof. apply keeps_promise. steady. Qed.

Lemma keeps_fs_copyFile (src dest : string) : keeps keyed (fs_copyFile src dest).
Proof. apply keeps_promise. steady. Qed.

Lemma keeps_fs_writeFile (path c : string) : keeps keyed (fs_writeFile path c).
Proof. apply keeps_promise. steady. Qed.

Lemma keeps_execAsync (c : Command) (cwd : string) : keeps keyed (execAsync ext c cwd).
Proof. apply keeps_promise. unfold exec_step. steady. Qed.

Lemma keeps_update_run (rid : nat) (f : AgentRun -> AgentRun) :
  keeps keyed (update_run rid f).
Proof. apply keeps_modify. steady. Qed.

Lemma keeps_sleep (ms : nat) : keeps keyed (sleep ms).
Proof. exact I. Qed.

End KeyedService.

#[local] Hint Resolve keeps_emit keeps_newAbortController keeps_fs_access_context
  keeps_fs_readFile_context keeps_fs_writeFile_context keeps_fs_readFeature
  keeps_fs_writeFeature keeps_fs_access keeps_fs_mkdir keeps_fs_copyFile
  keeps_fs_writeFile keeps_execAsync keeps_update_run keeps_sleep : keeps.

Section KeyedCalls.

Context (ext : External) (getAutomakerDir : string -> string).

Lemma keeps_loadFeature (p f : string) : keeps keyed (loadFeature p f).
Proof. unfold loadFeature. keeps_tac. Qed.

Lemma keeps_updateFeatureStatus (p f s : string) : keeps keyed (updateFeatureStatus p f s).
Proof. unfold updateFeatureStatus. keeps_tac. Qed.

Lemma keeps_contextExists (p f : string) : keeps keyed (contextExists p f).
Proof. unfold contextExists. keeps_tac. Qed.

Lemma keeps_findExisting (p b : string) :
  keeps keyed (findExistingWorktreeForBranch ext p b).
Proof. unfold findExistingWorktreeForBranch. keeps_tac. Qed.

Lemma keeps_setupWorktree (p f b : string) : keeps keyed (setupWorktree ext p f b).
Proof. pose proof keeps_findExisting. unfold setupWorktree. keeps_tac. Qed.

Lemma keeps_deriveWorktree (p f : string) (u : bool) (b : option string) :
  keeps keyed (deriveWorktree ext p f u b).
Proof.
  pose proof keeps_findExisting. pose proof keeps_setupWorktree.
  unfold deriveWorktree. keeps_tac.
Qed.

Lemma keeps_writeToFile (rid : nat) (p f : string) : keeps keyed (writeToFile ext rid p f).
Proof. unfold writeToFile. keeps_tac. Qed.

Lemma keeps_consume_blocks (rid : nat) (f : string) (blocks : list ContentBlock) :
  keeps keyed (consume_blocks ext rid f blocks).
Proof.
  induction blocks as [|b rest IH]; cbn [consume_blocks]; [keeps_tac |].
  destruct b; unfold scheduleWrite; keeps_tac.
Qed.

Lemma keeps_consume_stream (rid : nat) (f : string) (items : list StreamItem) :
  keeps keyed (consume_stream ext rid f items).
Proof.
  pose proof keeps_consume_blocks.
  induction items as [|i rest IH]; cbn [consume_stream]; unfold scheduleWrite; keeps_tac.
Qed.

Lemma keeps_runAgent (workDir f prompt : string) (rid : nat) (p : string)
    (imgs : option (list string)) (model previous : option string) :
  keeps keyed (runAgent ext workDir f prompt rid p imgs model previous).
Proof.
  pose proof keeps_consume_stream. pose proof keeps_writeToFile.
  unfold runAgent, clearWriteTimeout. keeps_tac.
  apply keeps_modify. steady.
Qed.

Lemma keeps_on_run_error (p f : string) (e : JsError) : keeps keyed (on_run_error ext p f e).
Proof. pose proof keeps_updateFeatureStatus. unfold on_run_error. keeps_tac. Qed.

Lemma keeps_emit_completed (p f label : string) : keeps keyed (emit_completed p f label).
Proof. unfold emit_completed. keeps_tac. Qed.

End KeyedCalls.

#[local] Hint Resolve keeps_loadFeature keeps_updateFeatureStatus keeps_contextExists
  keeps_findExisting keeps_setupWorktree keeps_deriveWorktree keeps_writeToFile
  keeps_consume_blocks keeps_consume_stream keeps_runAgent keeps_on_run_error
  keeps_emit_completed : keeps.

Section KeyedEntryPoints.

Context (ext : External) (getAutomakerDir : string -> string).


















End KeyedEntryPoints.

Section RunningAgents.

Context (ext : External) (getAutomakerDir : string -> string).





End RunningAgents.

